(** * World_Display_DMM: the scene animation and input model of [main.cpp]

    A shallow embedding of the sun / planet / moon scene: the three
    [CelestialBody] variants with their [update] and [render] methods, the
    process-wide interaction variables and [handleInput], the main loop
    with the frame it draws, and the start-up and shutdown of [main] with
    [initSDL], [loadTexture] and [cleanup].

    C++ [float] is IEEE-754 binary32 and is modelled bit-exactly with the
    parameterised specification of the standard library ([SpecFloat] at
    precision 24, maximal exponent 128, round to nearest even); [double] is
    the same specification at precision 53.  [int] and [Uint32] are [Z] with
    their wrap-around written out.  OpenGL's fixed-function state (matrix
    stack, bound texture, colour) is an explicit record threaded through the
    render methods. *)

From Stdlib Require Import String.
From Stdlib Require Import ZArith QArith Qabs List Bool Lia.
From Stdlib Require Import Floats.SpecFloat.
Import ListNotations.
Local Open Scope Z_scope.

(** ** Machine numbers *)

(** [Uint32] results are reduced modulo 2^32. *)
Definition uint32 (z : Z) : Z := z mod 4294967296.

(** [int] results wrap to the signed 32-bit range. *)
Definition sint32 (z : Z) : Z := (z + 2147483648) mod 4294967296 - 2147483648.

(** Binary32: the C++ type [float]. *)
Module F32.
Definition prec : Z := 24.
Definition emax : Z := 128.
Definition t : Type := spec_float.

(** Conversion from an integer, as in [dx * 0.5f]. *)
Definition of_int (z : Z) : t := binary_normalize prec emax z 0 false.

Definition add : t -> t -> t := SFadd prec emax.
Definition sub : t -> t -> t := SFsub prec emax.
Definition mul : t -> t -> t := SFmul prec emax.
Definition div : t -> t -> t := SFdiv prec emax.
Definition fabs : t -> t := SFabs.

(** The C++ comparisons; every one of them but [!=] is false on NaN. *)
Definition ltb (x y : t) : bool := SFltb x y.
Definition gtb (x y : t) : bool := SFltb y x.
Definition leb (x y : t) : bool := SFleb x y.
Definition geb (x y : t) : bool := SFleb y x.
Definition neqb (x y : t) : bool := negb (SFeqb x y).

(** The literal [n/d] rounded once to binary32, for decimal constants such
    as [0.1f] (n = 1, d = 10). *)
Definition lit (n d : positive) : t :=
  div (S754_finite false n 0) (S754_finite false d 0).

(** Narrowing of a [double]: one rounding to nearest even. *)
Definition of_double (x : spec_float) : t :=
  match x with
  | S754_finite s m e => binary_round prec emax s m e
  | _ => x
  end.

(** Identity of two binary32 data (so [+0] and [-0] differ), as a test. *)
Definition same (x y : t) : bool :=
  match x, y with
  | S754_zero s, S754_zero s' => Bool.eqb s s'
  | S754_infinity s, S754_infinity s' => Bool.eqb s s'
  | S754_nan, S754_nan => true
  | S754_finite s m e, S754_finite s' m' e' =>
      Bool.eqb s s' && Pos.eqb m m' && Z.eqb e e'
  | _, _ => false
  end.

(** The rational a finite binary32 stands for. *)
Definition to_Q (x : t) : option Q :=
  match x with
  | S754_zero _ => Some (0 # 1)
  | S754_finite s m e =>
      let n := if s then Z.neg m else Z.pos m in
      Some (if 0 <=? e then (n * 2 ^ e) # 1 else n # Z.to_pos (2 ^ (- e)))
  | _ => None
  end.
End F32.

(** Binary64: the C++ type [double], used where [M_PI] promotes a product. *)
Module F64.
Definition prec : Z := 53.
Definition emax : Z := 1024.
Definition t : Type := spec_float.

(** Widening of a [float] is exact. *)
Definition of_float (x : F32.t) : t :=
  match x with
  | S754_finite s m e => binary_round prec emax s m e
  | _ => x
  end.

Definition mul : t -> t -> t := SFmul prec emax.
Definition div : t -> t -> t := SFdiv prec emax.

Definition lit (n d : positive) : t :=
  SFdiv prec emax (S754_finite false n 0) (S754_finite false d 0).
End F64.

Declare Scope f32_scope.
Delimit Scope f32_scope with f32.
Infix "+" := F32.add : f32_scope.
Infix "-" := F32.sub : f32_scope.
Infix "*" := F32.mul : f32_scope.
Infix "<" := F32.ltb : f32_scope.
Infix ">" := F32.gtb : f32_scope.
Infix ">=" := F32.geb : f32_scope.
Infix "!=" := F32.neqb (at level 70) : f32_scope.

(** The float literals of the source, each evaluated once. *)
Definition f0 : F32.t := Eval vm_compute in F32.of_int 0.
Definition f1 : F32.t := Eval vm_compute in F32.of_int 1.
Definition f5 : F32.t := Eval vm_compute in F32.of_int 5.
Definition f40 : F32.t := Eval vm_compute in F32.of_int 40.
Definition fm40 : F32.t := Eval vm_compute in F32.of_int (-40).
Definition f90 : F32.t := Eval vm_compute in F32.of_int 90.
Definition f180 : F32.t := Eval vm_compute in F32.of_int 180.
Definition f360 : F32.t := Eval vm_compute in F32.of_int 360.
Definition f0_5 : F32.t := Eval vm_compute in F32.lit 1 2.
Definition f0_1 : F32.t := Eval vm_compute in F32.lit 1 10.
Definition f0_05 : F32.t := Eval vm_compute in F32.lit 5 100.

(** [M_PI] is the [double] nearest to 3.14159265358979323846. *)
Definition M_PI : F64.t :=
  Eval vm_compute in F64.lit 314159265358979323846 100000000000000000000.

(** Screen dimensions *)
Definition SCREEN_WIDTH : Z := 1915.
Definition SCREEN_HEIGHT : Z := 1030.

(** Zoom limits *)
Definition MIN_ZOOM : F32.t := Eval vm_compute in F32.lit 21 10.
Definition MAX_ZOOM : F32.t := Eval vm_compute in F32.of_int 20.

(** Timing constants *)
Definition RETURN_TO_ORIGINAL_DELAY : Z := 2000.

Definition SDL_BUTTON_LEFT : Z := 1.

(** [cosf] and [sinf] come from the C library; the model takes them as an
    interface. *)
Record Libm := { cosf : F32.t -> F32.t; sinf : F32.t -> F32.t }.

(** ** The fixed-function OpenGL state *)

(** A modelview matrix is kept as the list of transforms multiplied onto the
    matrix that was current when rendering began, outermost first. *)
Inductive xform :=
| Translate (x y z : F32.t)
| Rotate (angle x y z : F32.t).

Definition rgba : Type := (F32.t * F32.t * F32.t * F32.t)%type.

(** One [gluSphere] call, with the state it was issued under. *)
Record sphere := {
  at_matrix : list xform;
  with_texture : Z;
  with_color : rgba;
  sphere_radius : F32.t;
  sphere_slices : Z;
  sphere_stacks : Z
}.

Record GL := {
  matrix : list xform;
  stack : list (list xform);
  texture : Z;
  color : rgba;
  drawn : list sphere
}.

Definition glPushMatrix (g : GL) : GL :=
  {| matrix := matrix g; stack := matrix g :: stack g;
     texture := texture g; color := color g; drawn := drawn g |}.

(** Popping an empty stack is a GL error that leaves the state as it is. *)
Definition glPopMatrix (g : GL) : GL :=
  match stack g with
  | m :: s => {| matrix := m; stack := s;
                 texture := texture g; color := color g; drawn := drawn g |}
  | [] => g
  end.

Definition mult (x : xform) (g : GL) : GL :=
  {| matrix := matrix g ++ [x]; stack := stack g;
     texture := texture g; color := color g; drawn := drawn g |}.

Definition glTranslatef (x y z : F32.t) : GL -> GL := mult (Translate x y z).
Definition glRotatef (angle x y z : F32.t) : GL -> GL := mult (Rotate angle x y z).

Definition glBindTexture (id : Z) (g : GL) : GL :=
  {| matrix := matrix g; stack := stack g;
     texture := id; color := color g; drawn := drawn g |}.

Definition glColor4f (r gr b a : F32.t) (g : GL) : GL :=
  {| matrix := matrix g; stack := stack g;
     texture := texture g; color := (r, gr, b, a); drawn := drawn g |}.

(** [gluNewQuadric; gluQuadricTexture; gluSphere; gluDeleteQuadric]: a
    textured sphere under the current matrix, texture and colour. *)
Definition gluSphere (radius : F32.t) (slices stacks : Z) (g : GL) : GL :=
  {| matrix := matrix g; stack := stack g;
     texture := texture g; color := color g;
     drawn := drawn g ++ [ {| at_matrix := matrix g; with_texture := texture g;
                              with_color := color g; sphere_radius := radius;
                              sphere_slices := slices; sphere_stacks := stacks |} ] |}.

(** A block of GL calls, run in order. *)
Definition block (calls : list (GL -> GL)) (g : GL) : GL :=
  fold_left (fun g call => call g) calls g.

(** ** The capability set of a celestial body

    [update] reads the C library, the clock ([SDL_GetTicks]) and the global
    [lastInteractionTime]; [render] runs on the GL state.  Both are methods
    of a mutable object, so both return the object they leave behind. *)
Class CelestialBody (B : Type) := {
  update : Libm -> Z -> Z -> B -> B;
  render : B -> GL -> B * GL
}.

(** The shared wrap test of the angle updates:
    [if (a >= 360.0f) a -= 360.0f;]. *)
Definition wrap360 (a : F32.t) : F32.t :=
  if (a >= f360)%f32 then (a - f360)%f32 else a.

(** ** Moon *)
Module Moon.
Record t := mk {
  orbitAngle : F32.t;
  distance : F32.t;
  size : F32.t;
  textureID : Z;
  atmosphereTextureID : Z
}.

Definition new (d s : F32.t) (texture atmosphereTexture : Z) : t :=
  {| orbitAngle := f0; distance := d; size := s;
     textureID := texture; atmosphereTextureID := atmosphereTexture |}.

Definition renderSphere (radius : F32.t) (slices stacks : Z) : GL -> GL :=
  gluSphere radius slices stacks.

Definition render (m : t) (g : GL) : t * GL :=
  (m,
   block [ glPushMatrix;
         glRotatef (orbitAngle m) f0 f1 f0;
         glTranslatef (distance m) f0 f0;
         glBindTexture (textureID m);
         renderSphere (size m) 30 30;
         glPushMatrix;
         glRotatef (orbitAngle m * f0_5)%f32 f0 f1 f0;
         glBindTexture (atmosphereTextureID m);
         glColor4f f1 f1 f1 f0_5;
         renderSphere (size m + f0_05)%f32 30 30;
         glColor4f f1 f1 f1 f1;
         glPopMatrix;
         glPopMatrix ] g).

Definition update (m : t) : t :=
  {| orbitAngle := wrap360 (orbitAngle m + f0_5)%f32;
     distance := distance m; size := size m;
     textureID := textureID m; atmosphereTextureID := atmosphereTextureID m |}.
End Moon.

#[export] Instance Moon_body : CelestialBody Moon.t :=
  {| update := fun _ _ _ => Moon.update; render := Moon.render |}.

(** ** Planet *)
Module Planet.
Record t := mk {
  rotationX : F32.t;
  rotationY : F32.t;
  zoom : F32.t;
  passiveRotationSpeed : F32.t;
  textureID : Z;
  atmosphereTextureID : Z;
  radius : F32.t;
  atmosphereRadius : F32.t;
  moon : option Moon.t;
  userRotationX : F32.t;
  userRotationY : F32.t;
  orbitRadius : F32.t;
  orbitAngle : F32.t;
  orbitSpeed : F32.t;
  positionX : F32.t;
  positionZ : F32.t
}.

Definition new (r atmosphereR : F32.t) (texture atmosphereTexture : Z)
    (m : option Moon.t) (orbitR orbitS : F32.t) : t :=
  {| rotationX := f0; rotationY := f0; zoom := f5;
     passiveRotationSpeed := f0_1;
     textureID := texture; atmosphereTextureID := atmosphereTexture;
     radius := r; atmosphereRadius := atmosphereR; moon := m;
     userRotationX := f0; userRotationY := f0;
     orbitRadius := orbitR; orbitAngle := f0; orbitSpeed := orbitS;
     positionX := orbitR; positionZ := f0 |}.

Definition getRotationX (p : t) : F32.t := rotationX p.
Definition getRotationY (p : t) : F32.t := rotationY p.
Definition getZoom (p : t) : F32.t := zoom p.

Definition setRotation (rotX rotY : F32.t) (p : t) : t :=
  {| rotationX := rotationX p; rotationY := rotationY p; zoom := zoom p;
     passiveRotationSpeed := passiveRotationSpeed p;
     textureID := textureID p; atmosphereTextureID := atmosphereTextureID p;
     radius := radius p; atmosphereRadius := atmosphereRadius p; moon := moon p;
     userRotationX := rotX; userRotationY := rotY;
     orbitRadius := orbitRadius p; orbitAngle := orbitAngle p;
     orbitSpeed := orbitSpeed p;
     positionX := positionX p; positionZ := positionZ p |}.

Definition setZoom (z : F32.t) (p : t) : t :=
  {| rotationX := rotationX p; rotationY := rotationY p; zoom := z;
     passiveRotationSpeed := passiveRotationSpeed p;
     textureID := textureID p; atmosphereTextureID := atmosphereTextureID p;
     radius := radius p; atmosphereRadius := atmosphereRadius p; moon := moon p;
     userRotationX := userRotationX p; userRotationY := userRotationY p;
     orbitRadius := orbitRadius p; orbitAngle := orbitAngle p;
     orbitSpeed := orbitSpeed p;
     positionX := positionX p; positionZ := positionZ p |}.

(** [orbitAngle * M_PI / 180.0f]: the product and the quotient are taken in
    [double], and the argument of [cosf]/[sinf] is narrowed to [float]. *)
Definition radians (angle : F32.t) : F32.t :=
  F32.of_double (F64.div (F64.mul (F64.of_float angle) M_PI) (F64.of_float f180)).

(** The three statements of the idle branch, on the value of
    [userRotationX]. *)
Definition spring_back (x : F32.t) : F32.t :=
  let x1 := if (x > f0)%f32 then (x - f0_5)%f32 else x in
  let x2 := if (x1 < f0)%f32 then (x1 + f0_5)%f32 else x1 in
  if (F32.fabs x2 < f0_5)%f32 then f0 else x2.

(** [currentTime - lastInteractionTime >= RETURN_TO_ORIGINAL_DELAY], in
    [Uint32]. *)
Definition idle (currentTime lastInteractionTime : Z) : bool :=
  RETURN_TO_ORIGINAL_DELAY <=? uint32 (currentTime - lastInteractionTime).

Definition update (lm : Libm) (currentTime lastInteractionTime : Z) (p : t) : t :=
  let rotationY' := wrap360 (rotationY p + passiveRotationSpeed p)%f32 in
  let orbitAngle' := wrap360 (orbitAngle p + orbitSpeed p)%f32 in
  let positionX' := (orbitRadius p * cosf lm (radians orbitAngle'))%f32 in
  let positionZ' := (orbitRadius p * sinf lm (radians orbitAngle'))%f32 in
  let userRotationX' :=
    if idle currentTime lastInteractionTime && (userRotationX p != f0)%f32
    then spring_back (userRotationX p)
    else userRotationX p in
  {| rotationX := rotationX p; rotationY := rotationY'; zoom := zoom p;
     passiveRotationSpeed := passiveRotationSpeed p;
     textureID := textureID p; atmosphereTextureID := atmosphereTextureID p;
     radius := radius p; atmosphereRadius := atmosphereRadius p;
     moon := option_map Moon.update (moon p);
     userRotationX := userRotationX'; userRotationY := userRotationY p;
     orbitRadius := orbitRadius p; orbitAngle := orbitAngle';
     orbitSpeed := orbitSpeed p;
     positionX := positionX'; positionZ := positionZ' |}.

Definition renderSphere (radius : F32.t) (slices stacks : Z) : GL -> GL :=
  block [ glPushMatrix;
        glRotatef f90 f1 f0 f0;
        gluSphere radius slices stacks;
        glPopMatrix ].

(** The moon is drawn by its own [render], which hands the moon back. *)
Definition render_moon (m : option Moon.t) (g : GL) : option Moon.t * GL :=
  match m with
  | Some mn => let (mn', g') := Moon.render mn g in (Some mn', g')
  | None => (None, g)
  end.

Definition render (p : t) (g : GL) : t * GL :=
  let g1 :=
    block [ glPushMatrix;
          glTranslatef (positionX p) f0 (positionZ p);
          glRotatef (userRotationX p) f1 f0 f0;
          glRotatef (userRotationY p) f0 f1 f0;
          glRotatef (rotationY p) f0 f1 f0;
          glBindTexture (textureID p);
          renderSphere (radius p) 40 40;
          glPushMatrix;
          glRotatef (rotationY p + f5)%f32 f0 f1 f0;
          glBindTexture (atmosphereTextureID p);
          glColor4f f1 f1 f1 f0_5;
          renderSphere (atmosphereRadius p) 40 40;
          glColor4f f1 f1 f1 f1;
          glPopMatrix ] g in
  let (m', g2) := render_moon (moon p) g1 in
  ({| rotationX := rotationX p; rotationY := rotationY p; zoom := zoom p;
      passiveRotationSpeed := passiveRotationSpeed p;
      textureID := textureID p; atmosphereTextureID := atmosphereTextureID p;
      radius := radius p; atmosphereRadius := atmosphereRadius p; moon := m';
      userRotationX := userRotationX p; userRotationY := userRotationY p;
      orbitRadius := orbitRadius p; orbitAngle := orbitAngle p;
      orbitSpeed := orbitSpeed p;
      positionX := positionX p; positionZ := positionZ p |},
   glPopMatrix g2).
End Planet.

#[export] Instance Planet_body : CelestialBody Planet.t :=
  {| update := Planet.update; render := Planet.render |}.

(** ** Sun *)
Module Sun.
Record t := mk { radius : F32.t; textureID : Z }.

Definition new (r : F32.t) (texture : Z) : t :=
  {| radius := r; textureID := texture |}.

Definition render (s : t) (g : GL) : t * GL :=
  (s,
   block [ glPushMatrix;
         glBindTexture (textureID s);
         Planet.renderSphere (radius s) 40 40;
         glPopMatrix ] g).

(** Sun doesn't need to update. *)
Definition update (s : t) : t := s.
End Sun.

#[export] Instance Sun_body : CelestialBody Sun.t :=
  {| update := fun _ _ _ => Sun.update; render := Sun.render |}.

(** ** Mouse controls and the input handler *)

Inductive SDL_Event :=
| SDL_QUIT
| SDL_MOUSEMOTION (x y : Z)
| SDL_MOUSEBUTTONDOWN (button x y : Z)
| SDL_MOUSEBUTTONUP (button x y : Z)
| SDL_MOUSEWHEEL (y : Z)
| SDL_OTHER (type : Z).

(** The globals of the program together with the two objects [handleInput]
    receives by reference. *)
Record App := {
  running : bool;
  planet : Planet.t;
  lastInteractionTime : Z;
  sphereRotationY : F32.t;
  sphereRotationX : F32.t;
  dragging : bool;
  lastMouseX : Z;
  lastMouseY : Z
}.

(** [handleInput event running planet]; [ticks] is what [SDL_GetTicks]
    returns if the handler asks for the time. *)
Definition handleInput (event : SDL_Event) (ticks : Z) (a : App) : App :=
  match event with
  | SDL_QUIT =>
      {| running := false; planet := planet a;
         lastInteractionTime := lastInteractionTime a;
         sphereRotationY := sphereRotationY a; sphereRotationX := sphereRotationX a;
         dragging := dragging a;
         lastMouseX := lastMouseX a; lastMouseY := lastMouseY a |}
  | SDL_MOUSEMOTION x y =>
      if dragging a then
        let dx := sint32 (x - lastMouseX a) in
        let dy := sint32 (y - lastMouseY a) in
        let rotY := (sphereRotationY a + F32.of_int dx * f0_5)%f32 in
        let rotX0 := (sphereRotationX a - F32.of_int dy * f0_5)%f32 in
        let rotX1 := if (rotX0 > f40)%f32 then f40 else rotX0 in
        let rotX := if (rotX1 < fm40)%f32 then fm40 else rotX1 in
        {| running := running a;
           planet := Planet.setRotation rotX rotY (planet a);
           lastInteractionTime := ticks;
           sphereRotationY := rotY; sphereRotationX := rotX;
           dragging := dragging a;
           lastMouseX := x; lastMouseY := y |}
      else a
  | SDL_MOUSEBUTTONDOWN button x y =>
      if button =? SDL_BUTTON_LEFT then
        {| running := running a; planet := planet a;
           lastInteractionTime := lastInteractionTime a;
           sphereRotationY := sphereRotationY a; sphereRotationX := sphereRotationX a;
           dragging := true;
           lastMouseX := x; lastMouseY := y |}
      else a
  | SDL_MOUSEBUTTONUP button x y =>
      if button =? SDL_BUTTON_LEFT then
        {| running := running a; planet := planet a;
           lastInteractionTime := lastInteractionTime a;
           sphereRotationY := sphereRotationY a; sphereRotationX := sphereRotationX a;
           dragging := false;
           lastMouseX := lastMouseX a; lastMouseY := lastMouseY a |}
      else a
  | SDL_MOUSEWHEEL y =>
      let p1 :=
        if 0 <? y then Planet.setZoom (Planet.getZoom (planet a) - f0_5)%f32 (planet a)
        else if y <? 0 then Planet.setZoom (Planet.getZoom (planet a) + f0_5)%f32 (planet a)
        else planet a in
      let p2 := if (Planet.getZoom p1 < MIN_ZOOM)%f32 then Planet.setZoom MIN_ZOOM p1 else p1 in
      let p3 := if (Planet.getZoom p2 > MAX_ZOOM)%f32 then Planet.setZoom MAX_ZOOM p2 else p2 in
      {| running := running a; planet := p3;
         lastInteractionTime := lastInteractionTime a;
         sphereRotationY := sphereRotationY a; sphereRotationX := sphereRotationX a;
         dragging := dragging a;
         lastMouseX := lastMouseX a; lastMouseY := lastMouseY a |}
  | SDL_OTHER _ => a
  end.

(** ** The scene of [main] *)

(** The moon, the planet and the sun as [main] constructs them; the texture
    handles are whatever [loadTexture] returned. *)
Definition main_moon (moonTexture moonAtmosphereTexture : Z) : Moon.t :=
  Moon.new f5 (F32.lit 27 100) moonTexture moonAtmosphereTexture.

Definition main_planet (planetTexture planetAtmosphereTexture : Z) (m : Moon.t) : Planet.t :=
  Planet.new f1 (F32.lit 105 100) planetTexture planetAtmosphereTexture
             (Some m) (F32.of_int 20) f0_1.

Definition main_sun (sunTexture : Z) : Sun.t := Sun.new (F32.of_int 10) sunTexture.

(** The state in which the main loop starts: the globals carry their static
    initialisers. *)
Definition main_app (p : Planet.t) : App :=
  {| running := true; planet := p;
     lastInteractionTime := 0;
     sphereRotationY := f0; sphereRotationX := f0;
     dragging := false;
     lastMouseX := 0; lastMouseY := 0 |}.

(** Draining a queue of events, each with the clock reading at its handling. *)
Definition handleInputs (events : list (SDL_Event * Z)) (a : App) : App :=
  fold_left (fun a ev => handleInput (fst ev) (snd ev) a) events a.

(** A run of [update] ticks of the planet, one clock reading per tick, with
    no input in between. *)
Definition updates (lm : Libm) (clock : list Z) (last : Z) (p : Planet.t) : Planet.t :=
  fold_left (fun p now => Planet.update lm now last p) clock p.

(** A series implementation of the C library interface, to run the model on
    concrete inputs. *)
Definition series_libm : Libm :=
  {| cosf := fun x =>
       let x2 := (x * x)%f32 in
       (f1 - x2 * f0_5 + x2 * x2 * F32.lit 1 24)%f32;
     sinf := fun x =>
       let x2 := (x * x)%f32 in
       (x - x * x2 * F32.lit 1 6 + x * x2 * x2 * F32.lit 1 120)%f32 |}.


(** The scene of [main] with texture handles 1 to 4. *)
Definition demo_planet : Planet.t := main_planet 1 2 (main_moon 3 4).


(** ** The frame of the main loop

    [gluLookAt] takes doubles; the arguments [main] passes are [float]
    values, which the conversion keeps as they are. *)

Definition vec3 : Type := (F32.t * F32.t * F32.t)%type.

(** A factor of the modelview matrix under the transforms a [GL] state
    lists: the viewing transform of a [gluLookAt] call, or a transform that
    was listed when a later [gluLookAt] multiplied onto it. *)
Inductive view_xform :=
| LookAt (eye center up : vec3)
| Object (x : xform).

Definition vec4 : Type := (F32.t * F32.t * F32.t * F32.t)%type.

(** What [SDL_GL_SwapWindow] shows: the spheres of the frame, the matrix they
    stand on and the light. *)
Record shot := {
  shot_base : list view_xform;
  shot_light : vec4 * list view_xform;
  shot_spheres : list sphere
}.

(** The GL context of the main loop.  The bodies render on [gl], whose
    matrices are on top of [base]; [light0] is the position light 0 was last
    given together with the modelview matrix in force at that call, which is
    the matrix GL transforms the position by; [window] lists the frames
    shown so far.  Matrices saved on the stack of [gl] stay relative to the
    base they were pushed on. *)
Record Screen := {
  gl : GL;
  base : list view_xform;
  light0 : vec4 * list view_xform;
  window : list shot
}.

Definition modelview (s : Screen) : list view_xform :=
  base s ++ map Object (matrix (gl s)).

(** [glClear (GL_COLOR_BUFFER_BIT | GL_DEPTH_BUFFER_BIT)]: nothing of the
    last frame stays drawn. *)
Definition glClear (s : Screen) : Screen :=
  {| gl := {| matrix := matrix (gl s); stack := stack (gl s);
              texture := texture (gl s); color := color (gl s); drawn := [] |};
     base := base s; light0 := light0 s; window := window s |}.

Definition glLoadIdentity (s : Screen) : Screen :=
  {| gl := {| matrix := []; stack := stack (gl s);
              texture := texture (gl s); color := color (gl s); drawn := drawn (gl s) |};
     base := []; light0 := light0 s; window := window s |}.

(** [glLightfv (GL_LIGHT0, GL_POSITION, position)]. *)
Definition glLightfv (position : vec4) (s : Screen) : Screen :=
  {| gl := gl s; base := base s; light0 := (position, modelview s); window := window s |}.

(** [gluLookAt] multiplies the viewing transform onto the current matrix. *)
Definition gluLookAt (eye center up : vec3) (s : Screen) : Screen :=
  {| gl := {| matrix := []; stack := stack (gl s);
              texture := texture (gl s); color := color (gl s); drawn := drawn (gl s) |};
     base := modelview s ++ [LookAt eye center up];
     light0 := light0 s; window := window s |}.

Definition SDL_GL_SwapWindow (s : Screen) : Screen :=
  {| gl := gl s; base := base s; light0 := light0 s;
     window := window s ++ [ {| shot_base := base s; shot_light := light0 s;
                                shot_spheres := drawn (gl s) |} ] |}.

(** The bodies render on the GL state of the screen. *)
Definition on_gl {B : Type} (draw : GL -> B * GL) (s : Screen) : B * Screen :=
  let (b, g) := draw (gl s) in
  (b, {| gl := g; base := base s; light0 := light0 s; window := window s |}).

(** What one pass of the main loop reads from outside: the events
    [SDL_PollEvent] hands out until the queue is empty, each with the clock
    reading at its handling, and the clock reading of [planet.update]. *)
Record Poll := { polled : list (SDL_Event * Z); update_ticks : Z }.

(** The variables of [main] that the loop works on. *)
Record Loop := { prog : App; sun : Sun.t; screen : Screen }.

Definition set_planet (p : Planet.t) (a : App) : App :=
  {| running := running a; planet := p;
     lastInteractionTime := lastInteractionTime a;
     sphereRotationY := sphereRotationY a; sphereRotationX := sphereRotationX a;
     dragging := dragging a;
     lastMouseX := lastMouseX a; lastMouseY := lastMouseY a |}.

(** The body of [while (running)]. *)
Definition frame (lm : Libm) (i : Poll) (st : Loop) : Loop :=
  let a := handleInputs (polled i) (prog st) in
  let p := Planet.update lm (update_ticks i) (lastInteractionTime a) (planet a) in
  let s := Sun.update (sun st) in
  let sc :=
    gluLookAt (Planet.positionX p, f0, (Planet.positionZ p + Planet.getZoom p)%f32)
              (Planet.positionX p, f0, Planet.positionZ p)
              (f0, f1, f0)
      (glLightfv (f0, f0, f0, f1) (glLoadIdentity (glClear (screen st)))) in
  let (s', sc1) := on_gl (Sun.render s) sc in
  let (p', sc2) := on_gl (Planet.render p) sc1 in
  {| prog := set_planet p' a; sun := s'; screen := SDL_GL_SwapWindow sc2 |}.

(** The main loop over the polls of a run.  The loop is left when a pass
    ends with [running] false; polls after that are not read.  A run whose
    polls are used up with [running] still true has not left the loop. *)
Definition main_loop (lm : Libm) (polls : list Poll) (st : Loop) : Loop :=
  fold_left (fun st i => if running (prog st) then frame lm i st else st) polls st.

(** A context as GL creates it: the identity on the modelview stack, the
    default texture bound, the current colour opaque white, light 0 in its
    default position. *)
Definition new_context : Screen :=
  {| gl := {| matrix := []; stack := []; texture := 0;
              color := (f1, f1, f1, f1); drawn := [] |};
     base := []; light0 := ((f0, f0, f1, f0), []); window := [] |}.

(** Of [initOpenGL] the calls on the modelview matrix and on the light; the
    projection matrix and the enable flags are not part of [Screen]. *)
Definition initOpenGL (s : Screen) : Screen :=
  glLightfv (f0, f0, f0, f1) (glLoadIdentity s).

(** [loadTexture] leaves the texture it has made bound. *)
Definition bind_texture (id : Z) (s : Screen) : Screen :=
  snd (on_gl (fun g => (tt, glBindTexture id g)) s).

(** The loop state [main] enters the loop with, from the five texture names
    and the GL context as the start-up leaves it. *)
Definition main_start (planetTexture planetAtmosphereTexture moonTexture
                       moonAtmosphereTexture sunTexture : Z) (sc : Screen) : Loop :=
  {| prog := main_app (main_planet planetTexture planetAtmosphereTexture
                                  (main_moon moonTexture moonAtmosphereTexture));
     sun := main_sun sunTexture;
     screen := sc |}.

(** ** Start-up and shutdown *)

(** Constants of the SDL_image and OpenGL headers. *)
Definition IMG_INIT_JPG : Z := 1.
Definition IMG_INIT_PNG : Z := 2.
Definition GL_RGB : Z := 6407.
Definition GL_RGBA : Z := 6408.

(** Of a decoded image, what [loadTexture] reads besides the pixels. *)
Record SDL_Surface := { surface_w : Z; surface_h : Z; BytesPerPixel : Z }.

(** What the libraries answer at start-up.  [IMG_Load_result n file] is the
    answer to the [n]-th call of [loadTexture], [None] for a null pointer;
    [glGenTextures_result n] is the texture name generated in that call. *)
Record Platform := {
  SDL_Init_result : Z;
  SDL_CreateWindow_result : bool;
  SDL_GL_CreateContext_result : bool;
  SDL_GL_SetSwapInterval_result : Z;
  IMG_Init_result : Z;
  IMG_Load_result : nat -> string -> option SDL_Surface;
  glGenTextures_result : nat -> Z
}.

(** The library calls that acquire or release something, those that
    acquire with their success, and the messages on [std::cerr]. *)
Inductive call :=
| SDL_Init (ok : bool)
| SDL_CreateWindow (w h : Z) (ok : bool)
| SDL_GL_CreateContext (ok : bool)
| SDL_GL_SetSwapInterval (interval : Z)
| IMG_Init (flags : Z)
| IMG_Load (file : string) (ok : bool)
| glGenTextures (name : Z)
| glTexImage2D (name format w h : Z)
| SDL_FreeSurface (file : string)
| new_Moon
| delete_moon
| IMG_Quit
| SDL_GL_DeleteContext
| SDL_DestroyWindow
| SDL_Quit
| cerr (message : string).

(** The process: the calls made so far, the number of [loadTexture] calls
    among them, and the GL context. *)
Record Process := { log : list call; loads : nat; display : Screen }.

(** How a stretch of the program ends: it returns, the process exits, or
    the main loop has not been left with the polls at hand. *)
Inductive result (A : Type) :=
| Returned (a : A)
| Exited (status : Z)
| Looping.
Arguments Returned {A} a.
Arguments Exited {A} status.
Arguments Looping {A}.

Definition run (A : Type) : Type := Process -> Process * result A.

Definition ret {A : Type} (a : A) : run A := fun s => (s, Returned a).

Definition bind {A B : Type} (m : run A) (k : A -> run B) : run B :=
  fun s =>
    match m s with
    | (s', Returned a) => k a s'
    | (s', Exited status) => (s', Exited status)
    | (s', Looping) => (s', Looping)
    end.

Notation "x <- m ;; k" := (bind m (fun x => k))
  (at level 61, m at next level, right associativity).
Notation "m ;; k" := (bind m (fun _ => k))
  (at level 61, right associativity).

Definition exit {A : Type} (status : Z) : run A := fun s => (s, Exited status).

Definition does (c : call) : run unit :=
  fun s => ({| log := log s ++ [c]; loads := loads s; display := display s |},
            Returned tt).

Definition on_display (f : Screen -> Screen) : run unit :=
  fun s => ({| log := log s; loads := loads s; display := f (display s) |},
            Returned tt).

Definition initSDL (pf : Platform) : run unit :=
  does (SDL_Init (negb (SDL_Init_result pf <? 0))) ;;
  if SDL_Init_result pf <? 0 then
    does (cerr "SDL could not initialize! SDL_Error: ") ;; exit 1
  else
    does (SDL_CreateWindow SCREEN_WIDTH SCREEN_HEIGHT (SDL_CreateWindow_result pf)) ;;
    if negb (SDL_CreateWindow_result pf) then
      does (cerr "Window could not be created! SDL_Error: ") ;; exit 1
    else
      does (SDL_GL_CreateContext (SDL_GL_CreateContext_result pf)) ;;
      if negb (SDL_GL_CreateContext_result pf) then
        does (cerr "OpenGL context could not be created! SDL_Error: ") ;; exit 1
      else
        does (SDL_GL_SetSwapInterval 1) ;;
        if SDL_GL_SetSwapInterval_result pf <? 0 then
          does (cerr "Warning: Unable to set VSync! SDL_Error: ")
        else ret tt.

Definition loadTexture (pf : Platform) (filename : string) : run Z :=
  fun s =>
    let n := loads s in
    let s0 := {| log := log s; loads := S n; display := display s |} in
    (does (IMG_Load filename
             match IMG_Load_result pf n filename with Some _ => true | None => false end) ;;
     match IMG_Load_result pf n filename with
     | None =>
         does (cerr ("Failed to load texture (" ++ filename ++ "): ")%string) ;; exit 1
     | Some surface =>
         let textureID := glGenTextures_result pf n in
         does (glGenTextures textureID) ;;
         on_display (bind_texture textureID) ;;
         if BytesPerPixel surface =? 3 then
           does (glTexImage2D textureID GL_RGB (surface_w surface) (surface_h surface)) ;;
           does (SDL_FreeSurface filename) ;;
           ret textureID
         else if BytesPerPixel surface =? 4 then
           does (glTexImage2D textureID GL_RGBA (surface_w surface) (surface_h surface)) ;;
           does (SDL_FreeSurface filename) ;;
           ret textureID
         else
           does (cerr ("Unsupported image format for texture: " ++ filename)%string) ;;
           does (SDL_FreeSurface filename) ;;
           exit 1
     end) s0.

Definition cleanup : run unit :=
  does SDL_GL_DeleteContext ;; does SDL_DestroyWindow ;; does SDL_Quit.

(** The test [main] makes of what [IMG_Init] returns. *)
Definition IMG_Init_failed (initted : Z) : bool :=
  Z.land initted (Z.lor IMG_INIT_PNG IMG_INIT_JPG) =? 0.

(** The main loop, on the GL context of the process. *)
Definition loop (lm : Libm) (polls : list Poll)
    (planetTexture planetAtmosphereTexture moonTexture
     moonAtmosphereTexture sunTexture : Z) : run unit :=
  fun s =>
    let st := main_loop lm polls
                (main_start planetTexture planetAtmosphereTexture moonTexture
                            moonAtmosphereTexture sunTexture (display s)) in
    ({| log := log s; loads := loads s; display := screen st |},
     if running (prog st) then Looping else Returned tt).

Definition main (pf : Platform) (lm : Libm) (polls : list Poll) : run Z :=
  initSDL pf ;;
  on_display initOpenGL ;;
  does (IMG_Init (Z.lor IMG_INIT_PNG IMG_INIT_JPG)) ;;
  if IMG_Init_failed (IMG_Init_result pf) then
    does (cerr "SDL_image could not initialize! IMG_Error: ") ;;
    cleanup ;;
    ret 1
  else
    planetTexture <- loadTexture pf "map2.png" ;;
    planetAtmosphereTexture <- loadTexture pf "clouds.png" ;;
    moonTexture <- loadTexture pf "moon.jpg" ;;
    moonAtmosphereTexture <- loadTexture pf "clouds.png" ;;
    sunTexture <- loadTexture pf "map2.png" ;;
    does new_Moon ;;
    loop lm polls planetTexture planetAtmosphereTexture moonTexture
         moonAtmosphereTexture sunTexture ;;
    does delete_moon ;;
    does IMG_Quit ;;
    cleanup ;;
    ret 0.

(** The process before [main]. *)
Definition start : Process := {| log := []; loads := 0; display := new_context |}.

(** * Vocabulary of the properties *)

(** ** Checks over a finite range *)

(** The integers [lo], [lo + 1], ..., [lo + n - 1]. *)
Definition zrange (lo : Z) (n : nat) : list Z :=
  map (fun i => lo + Z.of_nat i) (List.seq 0 n).

(** ** Zoom *)

(** Within the zoom limits, as the handler compares. *)
Definition zoom_ok (z : F32.t) : Prop :=
  F32.leb MIN_ZOOM z = true /\ F32.leb z MAX_ZOOM = true.

(** The two clamp statements of the wheel branch. *)
Definition clamp_zoom (z : F32.t) : F32.t :=
  let z1 := if (z < MIN_ZOOM)%f32 then MIN_ZOOM else z in
  if (z1 > MAX_ZOOM)%f32 then MAX_ZOOM else z1.

(** What a wheel event with vertical amount [y] makes of the zoom: one
    notch is half a unit in or out, then the clamp. *)
Definition wheel_zoom (y : Z) (z : F32.t) : F32.t :=
  clamp_zoom (if 0 <? y then (z - f0_5)%f32
              else if y <? 0 then (z + f0_5)%f32 else z).

(** ** Wrap-around angles *)

(** One tick of a wrap-around angle: [a += speed; if (a >= 360) a -= 360]. *)
Definition advance (speed a : F32.t) : F32.t := wrap360 (a + speed)%f32.

Definition f128 : F32.t := Eval vm_compute in F32.of_int 128.

(** An angle in [0, 360): a binary32 number [a] (not a NaN, not an infinity,
    with a normalised mantissa) for which [0 <= a] and [a < 360] hold as the
    program compares. *)
Definition angle_ok (a : F32.t) : Prop :=
  valid_binary 24 128 a = true /\ F32.geb a f0 = true /\ F32.ltb a f360 = true.

(** A speed between 0 and 128 degrees per tick. *)
Definition speed_ok (s : F32.t) : Prop :=
  valid_binary 24 128 s = true /\ F32.geb s f0 = true /\ F32.leb s f128 = true.

(** The value of a finite binary32 in units of 2^-149, the smallest positive
    binary32. *)
Definition V (m : positive) (e : Z) : Z := Z.pos m * 2 ^ (e + 149).

(** 360 in these units. *)
Definition V360 : Z := Eval vm_compute in V 11796480 (-15).

(** 209/16384 = 0.01275634765625 and 11793621/32768 = 359.912750244140625,
    both binary32 numbers. *)
Definition angle_after_3600 : F32.t := Eval vm_compute in F32.lit 209 16384.
Definition angle_after_3599 : F32.t := Eval vm_compute in F32.lit 11793621 32768.

(** ** Drags *)

(** The clamp of the accumulated X rotation to [-40, 40]. *)
Definition clamp40 (x : F32.t) : F32.t :=
  if (x > f40)%f32 then f40 else if (x < fm40)%f32 then fm40 else x.

Definition f25 : F32.t := Eval vm_compute in F32.of_int 25.
Definition f15 : F32.t := Eval vm_compute in F32.of_int 15.


(** One complete drag from (100,100) to (150,130), released at time 700. *)
Definition after_first_drag : App :=
  handleInputs [ (SDL_MOUSEBUTTONDOWN SDL_BUTTON_LEFT 100 100, 500);
                 (SDL_MOUSEMOTION 150 130, 600);
                 (SDL_MOUSEBUTTONUP SDL_BUTTON_LEFT 150 130, 700) ]
               (main_app demo_planet).

(** ** The user X rotation in half degrees *)

(** The values a drag can leave in [userRotationX]: [handleInput] moves the
    accumulator by [dy * 0.5f] from 0 and clamps it to [-40, 40], so it
    holds one of the 161 multiples [k/2] of one half, [k] from -80 to 80. *)
Definition half (k : Z) : F32.t := (F32.of_int k * f0_5)%f32.

(** Half degrees clamped to [-40, 40] degrees. *)
Definition clampZ (k : Z) : Z := Z.max (-80) (Z.min 80 k).

(** The 161 numbers [half k], computed once. *)
Definition half_table : list F32.t := Eval vm_compute in map half (zrange (-80) 161).

Definition half_of_table (k : Z) : F32.t :=
  nth (Z.to_nat (k + 80)) half_table S754_nan.

(** A vertical mouse movement of [d] pixels on each of the 161 values. *)
Definition drag_row_ok (d : Z) : bool :=
  let y := (F32.of_int d * f0_5)%f32 in
  forallb (fun k => F32.same (clamp40 (half_of_table k - y)%f32)
                             (half_of_table (clampZ (k - d))))
          (zrange (-80) 161).

(** An event that carries a mouse position carries one inside the window. *)
Definition in_window (event : SDL_Event) : Prop :=
  match event with
  | SDL_MOUSEMOTION x y | SDL_MOUSEBUTTONDOWN _ x y | SDL_MOUSEBUTTONUP _ x y =>
      0 <= y < SCREEN_HEIGHT
  | _ => True
  end.

(** The accumulated X rotation and the planet's user X rotation are one and
    the same multiple of half a degree, and the anchor is inside the
    window. *)
Definition drag_invariant (a : App) : Prop :=
  0 <= lastMouseY a < SCREEN_HEIGHT /\
  exists k, -80 <= k <= 80 /\ sphereRotationX a = half k /\
            Planet.userRotationX (planet a) = half k.

(** Where [k] half degrees have gone after [n] steps of one half degree
    towards 0. *)
Definition approach (k : Z) (n : nat) : Z :=
  if 0 <=? k then Z.max 0 (k - Z.of_nat n) else Z.min 0 (k + Z.of_nat n).

(** One idle tick on the value of [userRotationX]. *)
Definition relax (x : F32.t) : F32.t :=
  if (x != f0)%f32 then Planet.spring_back x else x.

(** What one idle tick does to [k/2]: the magnitude drops by one half (to 0
    from 0), it does not grow and the sign is not crossed. *)
Definition relax_step_ok (k : Z) : bool :=
  let x := half k in
  let x' := relax x in
  F32.same x' (half (approach k 1))
  && ((k =? 0) || F32.same (F32.fabs x') (F32.fabs x - f0_5)%f32)
  && F32.leb (F32.fabs x') (F32.fabs x)
  && (negb (F32.geb x f0) || F32.geb x' f0)
  && (negb (F32.leb x f0) || F32.leb x' f0).

(** ** The numbers the spring back settles from *)

(** 2^23 = 8388608 and 2^-26. *)
Definition f2_23 : F32.t := Eval vm_compute in F32.of_int 8388608.
Definition f2_m26 : F32.t := Eval vm_compute in F32.lit 1 67108864.

(** The binary32 numbers of magnitude at most 2^23 degrees, but for the
    negative ones of magnitude at most 2^-26 degrees.  The comparisons are
    those of the code, so a NaN and the infinities are left out. *)
Definition settles (x : F32.t) : Prop :=
  valid_binary F32.prec F32.emax x = true /\
  F32.leb (F32.fabs x) f2_23 = true /\
  (F32.ltb x f0 = true -> F32.ltb f2_m26 (F32.fabs x) = true).

(** The magnitude of a binary32 number in units of 2^-149, and the number
    with its sign. *)
Definition weight (x : F32.t) : Z :=
  match x with
  | S754_finite _ m e => V m e
  | _ => 0
  end.


(** 2^149, the number of units in 1. *)
Definition units : positive := Eval vm_compute in Z.to_pos (2 ^ 149).

(** ** The position on the orbit *)





(** ** Where the planet's spheres are drawn *)

(** The frame after the translation to the orbital position and the two user
    rotations. *)
Definition user_frame (p : Planet.t) (g : GL) : list xform :=
  matrix g ++ [ Translate (Planet.positionX p) f0 (Planet.positionZ p);
                Rotate (Planet.userRotationX p) f1 f0 f0;
                Rotate (Planet.userRotationY p) f0 f1 f0 ].

(** The rotation [Planet.renderSphere] puts in front of every sphere. *)
Definition sphere_orientation : xform := Rotate f90 f1 f0 f0.

(** A rotation about the vertical axis. *)
Definition vertical (angle : F32.t) : xform := Rotate angle f0 f1 f0.

(** The [n]-th sphere a [Planet.render] call adds to the frame. *)
Definition planet_sphere (n : nat) (p : Planet.t) (g : GL) : option sphere :=
  nth_error (drawn (snd (Planet.render p g))) (length (drawn g) + n).

(** The matrix a sphere was handed to [renderSphere] under, in the user
    frame: what follows the user frame, without the sphere orientation. *)
Definition in_user_frame (p : Planet.t) (g : GL) (s : sphere) : list xform :=
  removelast (skipn (length (user_frame p g)) (at_matrix s)).

(** The body is the first sphere of a planet render, the atmosphere shell
    the second. *)
Definition body_transform (p : Planet.t) (g : GL) : option (list xform) :=
  option_map (in_user_frame p g) (planet_sphere 0 p g).

Definition atmosphere_transform (p : Planet.t) (g : GL) : option (list xform) :=
  option_map (in_user_frame p g) (planet_sphere 1 p g).

(** The angle of a rotation about the vertical axis, [None] for any other
    transform. *)
Definition about_vertical (x : xform) : option F32.t :=
  match x with
  | Rotate angle ax ay az =>
      if SFeqb ax f0 && SFeqb ay f1 && SFeqb az f0 then Some angle else None
  | Translate _ _ _ => None
  end.

(** The angle, in degrees, of a run of rotations about the vertical axis:
    rotations about one axis add up. *)
Fixpoint yaw (l : list xform) : option Q :=
  match l with
  | [] => Some (0 # 1)
  | x :: l' =>
      match about_vertical x with
      | Some angle =>
          match F32.to_Q angle, yaw l' with
          | Some q, Some q' => Some (q + q')%Q
          | _, _ => None
          end
      | None => None
      end
  end.

(** The planet of [main] after its first update tick: the passive spin is
    0.1 degrees. *)
Definition planet_after_one_tick : Planet.t :=
  Planet.update series_libm 16 0 demo_planet.

(** A GL state with the identity on the modelview stack and nothing drawn. *)
Definition blank_GL : GL :=
  {| matrix := []; stack := []; texture := 0; color := (f1, f1, f1, f1); drawn := [] |}.

(** ** Kinds of events *)

Definition is_quit (event : SDL_Event) : bool :=
  match event with SDL_QUIT => true | _ => false end.

Definition is_motion (event : SDL_Event) : bool :=
  match event with SDL_MOUSEMOTION _ _ => true | _ => false end.

Definition is_wheel (event : SDL_Event) : bool :=
  match event with SDL_MOUSEWHEEL _ => true | _ => false end.

Definition is_left_press (event : SDL_Event) : bool :=
  match event with
  | SDL_MOUSEBUTTONDOWN button _ _ => button =? SDL_BUTTON_LEFT
  | _ => false
  end.

(** Neither a quit, nor a wheel event, nor a press of the left button. *)
Definition passive (event : SDL_Event) : bool :=
  negb (is_quit event) && negb (is_wheel event) && negb (is_left_press event).

(** A motion event with its horizontal position inside the window. *)
Definition motion_in_width (event : SDL_Event) : Prop :=
  match event with
  | SDL_MOUSEMOTION x _ => 0 <= x < SCREEN_WIDTH
  | _ => False
  end.

(** ** The moon's half degrees *)

(** One moon tick on [j/2] degrees, and the value of [half j]. *)
Definition moon_step_ok (j : Z) : bool :=
  F32.same (advance f0_5 (half j)) (half ((j + 1) mod 720))
  && match F32.to_Q (half j) with
     | Some q => Qeq_bool q (j # 2)
     | None => false
     end.

(** ** The spheres of a frame *)

Definition white : rgba := (f1, f1, f1, f1).
Definition translucent : rgba := (f1, f1, f1, f0_5).

(** A sphere of [n] slices and [n] stacks. *)
Definition ball (m : list xform) (tex : Z) (col : rgba) (radius : F32.t) (n : Z) : sphere :=
  {| at_matrix := m; with_texture := tex; with_color := col;
     sphere_radius := radius; sphere_slices := n; sphere_stacks := n |}.

(** The two spheres of a moon rendered under matrix [m] and colour [col]:
    the body on its orbit, then the shell, turned half the orbit angle
    further, translucent and 0.05 larger.  Neither gets the orientation
    [Planet.renderSphere] gives. *)
Definition moon_spheres (m : list xform) (col : rgba) (mn : Moon.t) : list sphere :=
  let at_moon := m ++ [vertical (Moon.orbitAngle mn); Translate (Moon.distance mn) f0 f0] in
  [ ball at_moon (Moon.textureID mn) col (Moon.size mn) 30;
    ball (at_moon ++ [vertical (Moon.orbitAngle mn * f0_5)%f32])
         (Moon.atmosphereTextureID mn) translucent (Moon.size mn + f0_05)%f32 30 ].

(** The spheres of a planet rendered under matrix [m] and colour [col]: the
    body in the spun frame (orbital position, user rotations, passive spin),
    the translucent shell, and the moon's two spheres inside the spun frame
    when there is a moon. *)
Definition planet_spheres (m : list xform) (col : rgba) (p : Planet.t) : list sphere :=
  let spun := m ++ [ Translate (Planet.positionX p) f0 (Planet.positionZ p);
                     Rotate (Planet.userRotationX p) f1 f0 f0;
                     Rotate (Planet.userRotationY p) f0 f1 f0;
                     vertical (Planet.rotationY p) ] in
  [ ball (spun ++ [sphere_orientation]) (Planet.textureID p) col (Planet.radius p) 40;
    ball (spun ++ [vertical (Planet.rotationY p + f5)%f32; sphere_orientation])
         (Planet.atmosphereTextureID p) translucent (Planet.atmosphereRadius p) 40 ]
  ++ match Planet.moon p with
     | Some mn => moon_spheres spun white mn
     | None => []
     end.

Definition sun_spheres (m : list xform) (col : rgba) (s : Sun.t) : list sphere :=
  [ ball (m ++ [sphere_orientation]) (Sun.textureID s) col (Sun.radius s) 40 ].

(** ** The passes of the main loop *)

(** The planet a pass of the loop leaves: the events of the poll handled,
    then one update tick. *)
Definition planet_after (lm : Libm) (i : Poll) (a : App) : Planet.t :=
  let a' := handleInputs (polled i) a in
  Planet.update lm (update_ticks i) (lastInteractionTime a') (planet a').

(** The camera [gluLookAt] is given for a planet: on the planet's orbital
    position, from [zoom] further along Z, head up. *)
Definition camera (p : Planet.t) : view_xform :=
  LookAt (Planet.positionX p, f0, (Planet.positionZ p + Planet.getZoom p)%f32)
         (Planet.positionX p, f0, Planet.positionZ p)
         (f0, f1, f0).

(** The frame of a sun and a planet drawn with current colour [col]: the
    camera alone under the spheres, the light given at the origin while the
    modelview matrix was the identity. *)
Definition scene (col : rgba) (s : Sun.t) (p : Planet.t) : shot :=
  {| shot_base := [camera p];
     shot_light := ((f0, f0, f0, f1), []);
     shot_spheres := sun_spheres [] col s ++ planet_spheres [] col p |}.

(** The frames a run of the main loop shows, one for each pass made: the
    scene of the planet as the pass leaves it. *)
Fixpoint shots (lm : Libm) (polls : list Poll) (st : Loop) : list shot :=
  match polls with
  | [] => []
  | i :: rest =>
      if running (prog st)
      then scene white (sun st) (planet_after lm i (prog st)) :: shots lm rest (frame lm i st)
      else []
  end.

(** Some poll of the run holds a quit event. *)
Definition quits (polls : list Poll) : bool :=
  existsb (fun i => existsb (fun ev => is_quit (fst ev)) (polled i)) polls.

(** A user X rotation on the half-degree grid, between -40 and 40 degrees. *)
Definition rotation_ok (x : F32.t) : Prop := exists k, -80 <= k <= 80 /\ x = half k.

Definition half_in_range (k : Z) : bool :=
  F32.leb fm40 (half k) && F32.leb (half k) f40.

(** The ranges the program keeps its numbers in. *)
Definition loop_ok (st : Loop) : Prop :=
  let p := planet (prog st) in
  zoom_ok (Planet.getZoom p) /\
  angle_ok (Planet.rotationY p) /\
  angle_ok (Planet.orbitAngle p) /\
  (forall m, Planet.moon p = Some m -> angle_ok (Moon.orbitAngle m)) /\
  rotation_ok (Planet.userRotationX p) /\
  rotation_ok (sphereRotationX (prog st)) /\
  0 <= lastMouseY (prog st) < SCREEN_HEIGHT /\
  speed_ok (Planet.passiveRotationSpeed p) /\
  speed_ok (Planet.orbitSpeed p).

(** The start of the main loop with texture names 1 to 5. *)
Definition demo_start : Loop := main_start 1 2 3 4 5 (initOpenGL new_context).

(** The same scene with the left button held since a drag from (100,100) to
    (100,90), which has left 5 degrees in the user X rotation. *)
Definition held_drag : Loop :=
  {| prog := handleInputs [ (SDL_MOUSEBUTTONDOWN SDL_BUTTON_LEFT 100 100, 500);
                            (SDL_MOUSEMOTION 100 90, 600) ]
                          (prog demo_start);
     sun := sun demo_start;
     screen := screen demo_start |}.

(** ** The outcome of [main] *)

(** [SDL_Init], the window and the GL context are there. *)
Definition startup_ok (pf : Platform) : bool :=
  negb (SDL_Init_result pf <? 0)
  && SDL_CreateWindow_result pf && SDL_GL_CreateContext_result pf.

(** The [n]-th image loads and has three or four bytes per pixel. *)
Definition texture_ok (pf : Platform) (n : nat) (file : string) : bool :=
  match IMG_Load_result pf n file with
  | Some surface => (BytesPerPixel surface =? 3) || (BytesPerPixel surface =? 4)
  | None => false
  end.

Definition textures_ok (pf : Platform) : bool :=
  texture_ok pf 0 "map2.png" && texture_ok pf 1 "clouds.png"
  && texture_ok pf 2 "moon.jpg" && texture_ok pf 3 "clouds.png"
  && texture_ok pf 4 "map2.png".

(** The calls of a log that release something other than a surface. *)
Definition is_release (c : call) : bool :=
  match c with
  | delete_moon | IMG_Quit | SDL_GL_DeleteContext | SDL_DestroyWindow | SDL_Quit => true
  | _ => false
  end.

Definition releases (l : list call) : list call := filter is_release l.

(** Surfaces loaded and not freed, over a log. *)
Fixpoint surfaces (l : list call) : Z :=
  match l with
  | [] => 0
  | IMG_Load _ true :: l' => surfaces l' + 1
  | SDL_FreeSurface _ :: l' => surfaces l' - 1
  | _ :: l' => surfaces l'
  end.

(** What a stretch of the program leaves of a process state [s]: [n] more
    loads, the calls [rel] released, no surface more or less. *)
Definition leaves (s s' : Process) (n : nat) (rel : list call) : Prop :=
  loads s' = (loads s + n)%nat /\
  releases (log s') = releases (log s) ++ rel /\
  surfaces (log s') = surfaces (log s).

(** * Properties *)

(** ** Machine numbers *)

Lemma same_eq (x y : F32.t) : F32.same x y = true <-> x = y.
Proof.
  split.
  - destruct x as [s|s| |s m e], y as [s'|s'| |s' m' e']; cbn; try discriminate.
    + intros H. apply Bool.eqb_prop in H. congruence.
    + intros H. apply Bool.eqb_prop in H. congruence.
    + reflexivity.
    + intros H. apply andb_prop in H as [H He]. apply andb_prop in H as [Hs Hm].
      apply Bool.eqb_prop in Hs. apply Pos.eqb_eq in Hm. apply Z.eqb_eq in He.
      congruence.
  - intros <-. destruct x as [s|s| |s m e]; cbn.
    + apply Bool.eqb_reflx.
    + apply Bool.eqb_reflx.
    + reflexivity.
    + rewrite Bool.eqb_reflx, Pos.eqb_refl, Z.eqb_refl. reflexivity.
Qed.

(** ** Projections of [handleInput] and [update] *)

Lemma updates_app (lm : Libm) (c1 c2 : list Z) (last : Z) (p : Planet.t) :
  updates lm (c1 ++ c2) last p = updates lm c2 last (updates lm c1 last p).
Proof. unfold updates. apply fold_left_app. Qed.

Lemma handleInputs_app (e1 e2 : list (SDL_Event * Z)) (a : App) :
  handleInputs (e1 ++ e2) a = handleInputs e2 (handleInputs e1 a).
Proof. unfold handleInputs. apply fold_left_app. Qed.

(** ** Mouse motion *)

(** C10: a mouse-motion event handled while [dragging] is false changes
    nothing: the whole program state, and with it the planet's user
    rotation, [sphereRotationX], [sphereRotationY], the last mouse position
    and [lastInteractionTime], is the state before the event. *)
Theorem motion_without_drag_changes_nothing (a : App) (x y ticks : Z) :
  dragging a = false ->
  handleInput (SDL_MOUSEMOTION x y) ticks a = a.
Proof.
  intros Hdrag. unfold handleInput. rewrite Hdrag. reflexivity.
Qed.

Lemma motion_without_drag_witness :
  dragging (main_app demo_planet) = false /\
  handleInput (SDL_MOUSEMOTION 150 130) 777 (main_app demo_planet) = main_app demo_planet.
Proof.
  split; [reflexivity | apply motion_without_drag_changes_nothing; reflexivity].
Defined.

Lemma clamp40_sequential (x : F32.t) :
  (let x1 := if (x > f40)%f32 then f40 else x in
   if (x1 < fm40)%f32 then fm40 else x1) = clamp40 x.
Proof.
  unfold clamp40. cbv zeta. destruct (x > f40)%f32; reflexivity.
Qed.

(** C7: in a drag anchored at (100,100), the motion event to (150,130) adds
    25.0 to [sphereRotationY], subtracts 15.0 from [sphereRotationX] and
    clamps the latter to [-40, 40]; both values are what [setRotation]
    stores in the planet.  From an untouched accumulator the result is
    (Y, X) = (25.0, -15.0). *)
Theorem drag_from_100_100_to_150_130 (a : App) (ticks : Z) :
  dragging a = true -> lastMouseX a = 100 -> lastMouseY a = 100 ->
  let a' := handleInput (SDL_MOUSEMOTION 150 130) ticks a in
  sphereRotationY a' = (sphereRotationY a + f25)%f32 /\
  sphereRotationX a' = clamp40 (sphereRotationX a - f15)%f32 /\
  Planet.userRotationX (planet a') = sphereRotationX a' /\
  Planet.userRotationY (planet a') = sphereRotationY a' /\
  (sphereRotationY a = f0 -> sphereRotationX a = f0 ->
   sphereRotationY a' = f25 /\ sphereRotationX a' = F32.of_int (-15)).
Proof.
  intros Hdrag Hx Hy a'. subst a'. unfold handleInput.
  rewrite Hdrag, Hx, Hy.
  change (F32.of_int (sint32 (150 - 100)) * f0_5)%f32 with f25.
  change (F32.of_int (sint32 (130 - 100)) * f0_5)%f32 with f15.
  cbn [sphereRotationY sphereRotationX planet Planet.setRotation
       Planet.userRotationX Planet.userRotationY].
  rewrite clamp40_sequential.
  split; [reflexivity|]. split; [reflexivity|].
  split; [reflexivity|]. split; [reflexivity|].
  intros HY HX. rewrite HY, HX. split; reflexivity.
Qed.

Lemma drag_from_100_100_witness :
  let a := handleInput (SDL_MOUSEBUTTONDOWN SDL_BUTTON_LEFT 100 100) 500 (main_app demo_planet) in
  let a' := handleInput (SDL_MOUSEMOTION 150 130) 600 a in
  (dragging a = true /\ lastMouseX a = 100 /\ lastMouseY a = 100) /\
  Planet.userRotationY (planet a') = f25 /\
  Planet.userRotationX (planet a') = F32.of_int (-15).
Proof.
  cbv zeta. split; [repeat split|].
  pose proof (drag_from_100_100_to_150_130
    (handleInput (SDL_MOUSEBUTTONDOWN SDL_BUTTON_LEFT 100 100) 500 (main_app demo_planet))
    600 eq_refl eq_refl eq_refl) as H.
  cbv zeta in H. destruct H as (_ & _ & HX & HY & H0).
  destruct (H0 eq_refl eq_refl) as [HY' HX'].
  rewrite HX, HY. split; assumption.
Defined.

(** ** Drag sessions *)



(** ** Rendering *)

Lemma moon_render_keeps_moon (m : Moon.t) (g : GL) : fst (Moon.render m g) = m.
Proof. reflexivity. Qed.

Lemma render_moon_keeps_moon (m : option Moon.t) (g : GL) :
  fst (Planet.render_moon m g) = m.
Proof.
  destruct m as [mn|]; [|reflexivity].
  unfold Planet.render_moon.
  pose proof (moon_render_keeps_moon mn g) as Hk.
  destruct (Moon.render mn g) as [mn' g']. cbn [fst] in Hk |- *.
  rewrite Hk. reflexivity.
Qed.

Lemma planet_render_keeps_planet (p : Planet.t) (g : GL) : fst (Planet.render p g) = p.
Proof.
  unfold Planet.render.
  set (g1 := block _ g).
  pose proof (render_moon_keeps_moon (Planet.moon p) g1) as Hk.
  destruct (Planet.render_moon (Planet.moon p) g1) as [m' g2].
  cbn [fst] in Hk |- *. subst m'. destruct p; reflexivity.
Qed.

(** C9: for each of the three bodies and every state of the body and of the
    GL context, the body that [render] leaves behind is the body it was
    called on: every field (angles, position, zoom, rotation, the planet's
    moon) keeps its value. *)
Theorem render_leaves_body_unchanged :
  (forall (s : Sun.t) (g : GL), fst (render s g) = s) /\
  (forall (p : Planet.t) (g : GL), fst (render p g) = p) /\
  (forall (m : Moon.t) (g : GL), fst (render m g) = m).
Proof.
  split; [|split].
  - intros s g. reflexivity.
  - intros p g. apply planet_render_keeps_planet.
  - intros m g. apply moon_render_keeps_moon.
Qed.

(** *** Where the planet's spheres are drawn *)

Lemma skipn_length_app {A : Type} (l1 l2 : list A) :
  skipn (length l1) (l1 ++ l2) = l2.
Proof. induction l1 as [|x l1 IH]; [reflexivity | exact IH]. Qed.

Lemma nth_error_length_app {A : Type} (l1 l2 : list A) (n : nat) :
  nth_error (l1 ++ l2) (length l1 + n) = nth_error l2 n.
Proof. induction l1 as [|x l1 IH]; [reflexivity | exact IH]. Qed.

(** The first two spheres of a planet render: the body under the passive
    spin, then the shell under the passive spin and a further turn of
    [rotationY + 5]. *)
Lemma planet_render_spheres (p : Planet.t) (g : GL) :
  exists body shell rest,
    drawn (snd (Planet.render p g)) = drawn g ++ body :: shell :: rest /\
    at_matrix body =
      user_frame p g ++ [vertical (Planet.rotationY p); sphere_orientation] /\
    at_matrix shell =
      user_frame p g ++ [vertical (Planet.rotationY p);
                         vertical (Planet.rotationY p + f5)%f32;
                         sphere_orientation] /\
    with_texture body = Planet.textureID p /\
    with_texture shell = Planet.atmosphereTextureID p /\
    sphere_radius body = Planet.radius p /\
    sphere_radius shell = Planet.atmosphereRadius p /\
    with_color shell = (f1, f1, f1, f0_5).
Proof.
  unfold Planet.render, user_frame.
  destruct (Planet.moon p) as [mn|]; cbn.
  all: repeat rewrite <- app_assoc; cbn.
  all: do 3 eexists; split; [reflexivity|]; cbn; repeat split.
Qed.

Lemma planet_transforms (p : Planet.t) (g : GL) :
  body_transform p g = Some [vertical (Planet.rotationY p)] /\
  atmosphere_transform p g =
    Some [vertical (Planet.rotationY p); vertical (Planet.rotationY p + f5)%f32].
Proof.
  destruct (planet_render_spheres p g)
    as (body & shell & rest & Hd & Hb & Hs & _).
  unfold body_transform, atmosphere_transform, planet_sphere, in_user_frame.
  rewrite Hd, !nth_error_length_app. cbn [nth_error option_map].
  rewrite Hb, Hs, !skipn_length_app. split; reflexivity.
Qed.

(** C6, as stated, fails: one tick after start the shell is not drawn under
    the single turn [rotationY + 5] of the user frame; its turn about the
    vertical axis is the spin and then [rotationY + 5], more than 5.1
    degrees where the claim has less than 5.1. *)
Lemma atmosphere_is_not_spin_plus_5_in_user_frame :
  let p := planet_after_one_tick in
  atmosphere_transform p blank_GL <> Some [vertical (Planet.rotationY p + f5)%f32] /\
  exists claimed actual,
    yaw [vertical (Planet.rotationY p + f5)%f32] = Some claimed /\
    option_map yaw (atmosphere_transform p blank_GL) = Some (Some actual) /\
    (0 < claimed)%Q /\ (claimed < 51 # 10)%Q /\ (51 # 10 < actual)%Q /\ (actual < 360)%Q.
Proof.
  cbv zeta. split.
  - destruct (planet_transforms planet_after_one_tick blank_GL) as [_ ->].
    intros H. inversion H.
  - destruct (planet_transforms planet_after_one_tick blank_GL) as [_ ->].
    do 2 eexists. split; [vm_compute; reflexivity|].
    split; [vm_compute; reflexivity|].
    repeat split.
Qed.

(** C6, amended: in the user-rotated frame the atmosphere shell is drawn
    under two turns about the vertical axis, the passive spin [rotationY]
    that the body is drawn under and then a further [rotationY + 5]; the
    shell is turned by the spin plus 5 degrees against the body, not against
    the user frame. *)
Theorem atmosphere_turned_spin_plus_5_against_body (p : Planet.t) (g : GL) :
  body_transform p g = Some [vertical (Planet.rotationY p)] /\
  atmosphere_transform p g =
    option_map (fun body => body ++ [vertical (Planet.rotationY p + f5)%f32])
               (body_transform p g) /\
  atmosphere_transform p g =
    Some [vertical (Planet.rotationY p); vertical (Planet.rotationY p + f5)%f32].
Proof.
  destruct (planet_transforms p g) as [Hb Ha].
  rewrite Hb, Ha. repeat split.
Qed.

(** ** Angles under [update] *)

Lemma update_orbitAngle (lm : Libm) (now last : Z) (p : Planet.t) :
  Planet.orbitAngle (Planet.update lm now last p)
  = advance (Planet.orbitSpeed p) (Planet.orbitAngle p).
Proof. reflexivity. Qed.

Lemma update_rotationY (lm : Libm) (now last : Z) (p : Planet.t) :
  Planet.rotationY (Planet.update lm now last p)
  = advance (Planet.passiveRotationSpeed p) (Planet.rotationY p).
Proof. reflexivity. Qed.

Lemma update_moon (lm : Libm) (now last : Z) (p : Planet.t) :
  Planet.moon (Planet.update lm now last p) = option_map Moon.update (Planet.moon p).
Proof. reflexivity. Qed.

Lemma moon_update_orbitAngle (m : Moon.t) :
  Moon.orbitAngle (Moon.update m) = advance f0_5 (Moon.orbitAngle m).
Proof. reflexivity. Qed.

Lemma updates_cons (lm : Libm) (now : Z) (clock : list Z) (last : Z) (p : Planet.t) :
  updates lm (now :: clock) last p = updates lm clock last (Planet.update lm now last p).
Proof. reflexivity. Qed.

Lemma updates_orbitSpeed (lm : Libm) (clock : list Z) (last : Z) (p : Planet.t) :
  Planet.orbitSpeed (updates lm clock last p) = Planet.orbitSpeed p /\
  Planet.passiveRotationSpeed (updates lm clock last p) = Planet.passiveRotationSpeed p.
Proof.
  revert p. induction clock as [|now clock IH]; intros p; [split; reflexivity|].
  rewrite updates_cons. destruct (IH (Planet.update lm now last p)) as [-> ->].
  split; reflexivity.
Qed.

Lemma updates_orbitAngle (lm : Libm) (clock : list Z) (last : Z) (p : Planet.t) :
  Planet.orbitAngle (updates lm clock last p)
  = Nat.iter (length clock) (advance (Planet.orbitSpeed p)) (Planet.orbitAngle p).
Proof.
  revert p. induction clock as [|now clock IH]; intros p; [reflexivity|].
  rewrite updates_cons, IH. cbn [length]. rewrite Nat.iter_succ_r. reflexivity.
Qed.

Lemma updates_rotationY (lm : Libm) (clock : list Z) (last : Z) (p : Planet.t) :
  Planet.rotationY (updates lm clock last p)
  = Nat.iter (length clock) (advance (Planet.passiveRotationSpeed p)) (Planet.rotationY p).
Proof.
  revert p. induction clock as [|now clock IH]; intros p; [reflexivity|].
  rewrite updates_cons, IH. cbn [length]. rewrite Nat.iter_succ_r. reflexivity.
Qed.

Lemma updates_moon (lm : Libm) (clock : list Z) (last : Z) (p : Planet.t) :
  Planet.moon (updates lm clock last p)
  = option_map (Nat.iter (length clock) Moon.update) (Planet.moon p).
Proof.
  revert p. induction clock as [|now clock IH]; intros p.
  - change (updates lm [] last p) with p. destruct (Planet.moon p); reflexivity.
  - rewrite updates_cons, IH, update_moon. cbn [length].
    destruct (Planet.moon p) as [m|]; [|reflexivity].
    cbn [option_map]. rewrite Nat.iter_succ_r. reflexivity.
Qed.

Lemma moon_updates_orbitAngle (n : nat) (m : Moon.t) :
  Moon.orbitAngle (Nat.iter n Moon.update m) = Nat.iter n (advance f0_5) (Moon.orbitAngle m).
Proof.
  induction n as [|n IH]; [reflexivity|].
  cbn [Nat.iter nat_rect]. rewrite moon_update_orbitAngle.
  change (nat_rect _ m (fun _ => Moon.update) n) with (Nat.iter n Moon.update m).
  rewrite IH. reflexivity.
Qed.

(** *** The position after a tick *)

(** The position is recomputed from the orbit angle the same tick has just
    advanced, converted to radians; the cosine and the sine are the C
    library's. *)
Lemma update_position (lm : Libm) (now last : Z) (p : Planet.t) :
  let q := Planet.update lm now last p in
  Planet.positionX q
  = (Planet.orbitRadius p * cosf lm (Planet.radians (Planet.orbitAngle q)))%f32 /\
  Planet.positionZ q
  = (Planet.orbitRadius p * sinf lm (Planet.radians (Planet.orbitAngle q)))%f32.
Proof. split; reflexivity. Qed.


Example radians_of_90 : Planet.radians f90 = F32.lit 13176795 8388608.
Proof. reflexivity. Qed.

(** *** The full turn of the scenario *)

Lemma orbit_3599_ticks :
  Nat.iter 3599 (advance f0_1) f0 = angle_after_3599.
Proof. vm_compute. reflexivity. Qed.

Lemma orbit_3600_ticks :
  Nat.iter 3600 (advance f0_1) f0 = angle_after_3600.
Proof. vm_compute. reflexivity. Qed.

(** C8, as stated, fails: after 3600 ticks the orbit angle of the planet of
    [main] is not the angle it started from. *)
Lemma orbit_angle_does_not_return_after_3600 :
  ~ (forall (lm : Libm) (clock : list Z) (last : Z),
       length clock = 3600%nat ->
       Planet.orbitAngle (updates lm clock last demo_planet)
       = Planet.orbitAngle demo_planet).
Proof.
  intros H.
  specialize (H series_libm (repeat 0 3600) 0 (repeat_length 0 3600)).
  rewrite updates_orbitAngle, repeat_length in H.
  change (Planet.orbitSpeed demo_planet) with f0_1 in H.
  change (Planet.orbitAngle demo_planet) with f0 in H.
  rewrite orbit_3600_ticks in H. discriminate H.
Qed.

(** C8, amended: with [orbitRadius] 20 and [orbitSpeed] 0.1f the binary32
    increments do not add up to 360 exactly.  After 3599 ticks the angle is
    359.912750244140625; the 3600th increment gives 360.01275634765625, which
    is at least 360, so the angle wraps on that tick and after exactly 3600
    ticks it is 0.01275634765625 (209/16384), not the starting value 0. *)
Theorem orbit_angle_after_3600_ticks
    (lm : Libm) (clock : list Z) (last t1 t2 : Z) (m : Moon.t) :
  length clock = 3600%nat ->
  let p := main_planet t1 t2 m in
  Planet.orbitAngle p = f0 /\
  Planet.orbitAngle (updates lm clock last p) = angle_after_3600 /\
  F32.to_Q angle_after_3600 = Some (13697024 # 1073741824) /\
  (13697024 # 1073741824 == 209 # 16384)%Q /\
  Planet.orbitAngle (updates lm (removelast clock) last p) = angle_after_3599 /\
  (angle_after_3599 < f360)%f32 = true /\
  (angle_after_3599 + f0_1 >= f360)%f32 = true /\
  (angle_after_3599 + f0_1 - f360)%f32 = angle_after_3600.
Proof.
  intros Hlen p. subst p.
  split; [reflexivity|].
  split.
  { rewrite updates_orbitAngle, Hlen. exact orbit_3600_ticks. }
  split; [reflexivity|]. split; [reflexivity|].
  split.
  { rewrite updates_orbitAngle.
    assert (length (removelast clock) = 3599%nat) as ->.
    { rewrite removelast_firstn_len, length_firstn, Hlen. reflexivity. }
    exact orbit_3599_ticks. }
  repeat split.
Qed.

Lemma orbit_angle_after_3600_ticks_witness :
  length (repeat 16 3600) = 3600%nat /\
  Planet.orbitAngle (updates series_libm (repeat 16 3600) 0 demo_planet) = angle_after_3600.
Proof.
  split; [apply repeat_length|].
  exact (proj1 (proj2 (orbit_angle_after_3600_ticks series_libm (repeat 16 3600) 0 1 2
                         (main_moon 3 4) (repeat_length 16 3600)))).
Defined.

(** ** The idle spring back of the user X rotation *)

Lemma update_userRotationX (lm : Libm) (now last : Z) (p : Planet.t) :
  Planet.idle now last = true ->
  Planet.userRotationX (Planet.update lm now last p) = relax (Planet.userRotationX p).
Proof.
  intros Hidle. unfold Planet.update, relax. cbn [Planet.userRotationX].
  rewrite Hidle. reflexivity.
Qed.

Lemma update_userRotationX_busy (lm : Libm) (now last : Z) (p : Planet.t) :
  Planet.idle now last = false ->
  Planet.userRotationX (Planet.update lm now last p) = Planet.userRotationX p.
Proof.
  intros Hidle. unfold Planet.update. cbn [Planet.userRotationX].
  rewrite Hidle. reflexivity.
Qed.

Lemma zrange_forallb (P : Z -> bool) (lo : Z) (n : nat) :
  forallb P (zrange lo n) = true ->
  forall k, lo <= k < lo + Z.of_nat n -> P k = true.
Proof.
  intros Hall k Hk. rewrite forallb_forall in Hall. apply Hall.
  unfold zrange. apply in_map_iff. exists (Z.to_nat (k - lo)).
  split; [lia|]. apply in_seq. lia.
Qed.

Lemma relax_steps_checked : forallb relax_step_ok (zrange (-80) 161) = true.
Proof. vm_compute. reflexivity. Qed.

Lemma relax_half (k : Z) :
  -80 <= k <= 80 ->
  let x := half k in
  relax x = half (approach k 1) /\
  (k <> 0 -> F32.fabs (relax x) = (F32.fabs x - f0_5)%f32) /\
  F32.leb (F32.fabs (relax x)) (F32.fabs x) = true /\
  (F32.geb x f0 = true -> F32.geb (relax x) f0 = true) /\
  (F32.leb x f0 = true -> F32.leb (relax x) f0 = true).
Proof.
  intros Hk x. subst x.
  pose proof (zrange_forallb _ _ _ relax_steps_checked k ltac:(lia)) as H.
  unfold relax_step_ok in H. cbv zeta in H.
  repeat (apply andb_prop in H; destruct H as [H ?]).
  split; [apply same_eq; assumption|].
  split.
  { intros Hk0. apply same_eq.
    match goal with
    | Hor : (k =? 0) || _ = true |- _ =>
        apply orb_prop in Hor; destruct Hor as [Hz|Hor]; [|exact Hor]
    end.
    apply Z.eqb_eq in Hz. contradiction. }
  split; [assumption|].
  split.
  - intros Hpos.
    match goal with
    | Hor : negb (F32.geb (half k) f0) || _ = true |- _ =>
        rewrite Hpos in Hor; exact Hor
    end.
  - intros Hneg.
    match goal with
    | Hor : negb (F32.leb (half k) f0) || _ = true |- _ =>
        rewrite Hneg in Hor; exact Hor
    end.
Qed.

Lemma approach_range (k : Z) (n : nat) : -80 <= k <= 80 -> -80 <= approach k n <= 80.
Proof. unfold approach. destruct (0 <=? k) eqn:E; lia. Qed.

Lemma approach_succ (k : Z) (n : nat) : approach k (S n) = approach (approach k n) 1.
Proof.
  unfold approach.
  destruct (Z.leb_spec 0 k) as [E|E].
  - destruct (Z.leb_spec 0 (Z.max 0 (k - Z.of_nat n))); lia.
  - destruct (Z.leb_spec 0 (Z.min 0 (k + Z.of_nat n))); lia.
Qed.

Lemma approach_done (k : Z) (n : nat) : Z.abs k <= Z.of_nat n -> approach k n = 0.
Proof. unfold approach. destruct (Z.leb_spec 0 k); lia. Qed.

Lemma updates_snoc (lm : Libm) (clock : list Z) (now last : Z) (p : Planet.t) :
  updates lm (clock ++ [now]) last p = Planet.update lm now last (updates lm clock last p).
Proof. rewrite updates_app. reflexivity. Qed.

Lemma idle_run (lm : Libm) (last : Z) (clock : list Z) (p : Planet.t) (k : Z) :
  -80 <= k <= 80 ->
  Planet.userRotationX p = half k ->
  Forall (fun now => Planet.idle now last = true) clock ->
  Planet.userRotationX (updates lm clock last p) = half (approach k (length clock)).
Proof.
  intros Hk Hx. induction clock as [|now clock IH] using rev_ind; intros Hidle.
  - change (updates lm [] last p) with p. rewrite Hx. unfold approach.
    destruct (Z.leb_spec 0 k); f_equal; cbn [length]; lia.
  - apply Forall_app in Hidle as [Hc Hnow]. inversion Hnow as [|? ? Hn _]; subst.
    rewrite updates_snoc, update_userRotationX by exact Hn.
    rewrite IH by exact Hc.
    rewrite length_app. cbn [length]. rewrite Nat.add_1_r, approach_succ.
    apply relax_half, approach_range, Hk.
Qed.

(** Off the half-degree grid the last step is the snap: 0.3 and -0.7 both go
    to 0 in one idle tick, 1.25 goes to 0.75 and then to 0. *)
Example spring_back_snaps :
  Planet.spring_back (F32.lit 3 10) = f0 /\
  Planet.spring_back (SFopp (F32.lit 7 10)) = f0 /\
  Planet.spring_back (F32.lit 5 4) = F32.lit 3 4 /\
  Planet.spring_back (F32.lit 3 4) = f0.
Proof. repeat split. Qed.

(** ** Rounding to binary32

    What the angle and zoom invariants need to know about the rounding of
    [SpecFloat]: the mantissa a shift leaves, the exponent the result gets
    and a relative bound on its value. *)

(** *** Digits and shifts *)

(** The exponent binary32 gives a number of magnitude [2^x]. *)
Lemma fexp32 (x : Z) : fexp 24 128 x = Z.max (x - 24) (-149).
Proof. reflexivity. Qed.

(** [digits2_pos] counts binary digits. *)
Lemma digits2_pos_size (m : positive) : digits2_pos m = Pos.size m.
Proof. induction m as [m IH|m IH|]; cbn; [rewrite IH | rewrite IH |]; reflexivity. Qed.

Lemma digits_log2 (m : positive) : Z.pos (digits2_pos m) = Z.log2 (Z.pos m) + 1.
Proof.
  rewrite digits2_pos_size.
  destruct m as [m|m|]; cbn [Z.log2 Pos.size]; try reflexivity; lia.
Qed.

Lemma digits_bounds (m : positive) :
  2 ^ (Z.pos (digits2_pos m) - 1) <= Z.pos m < 2 ^ Z.pos (digits2_pos m).
Proof.
  rewrite digits_log2.
  replace (Z.log2 (Z.pos m) + 1 - 1) with (Z.log2 (Z.pos m)) by lia.
  apply Z.log2_spec. lia.
Qed.

Lemma digits_unique (m : positive) (k : Z) :
  2 ^ (k - 1) <= Z.pos m < 2 ^ k -> Z.pos (digits2_pos m) = k.
Proof.
  intros H. rewrite digits_log2.
  assert (0 < k).
  { destruct (Z.lt_trichotomy k 0) as [Hk|[Hk|Hk]]; [| |exact Hk].
    - rewrite (Z.pow_neg_r 2 k) in H by lia. lia.
    - subst k. cbn in H. lia. }
  enough (Z.log2 (Z.pos m) = k - 1) by lia.
  apply Z.log2_unique; [lia|].
  replace (Z.succ (k - 1)) with k by lia. exact H.
Qed.

(** Shifting a mantissa left and right. *)
Lemma iter_xO (m d : positive) : Z.pos (Pos.iter xO m d) = Z.pos m * 2 ^ Z.pos d.
Proof.
  induction d as [|d IH] using Pos.peano_ind.
  - cbn. lia.
  - rewrite Pos.iter_succ, Pos2Z.inj_succ, Z.pow_succ_r by lia.
    rewrite Pos2Z.inj_xO, IH. lia.
Qed.

Lemma shr_1_m (r : shr_record) :
  0 <= shr_m r -> shr_m (shr_1 r) = shr_m r / 2.
Proof.
  destruct r as [m rb sb]. cbn [shr_m]. intros Hm.
  destruct m as [|p|p]; [reflexivity| |lia].
  destruct p as [p|p|]; cbn [shr_1 shr_m].
  - rewrite Pos2Z.inj_xI. apply Z.div_unique with 1; lia.
  - rewrite Pos2Z.inj_xO. apply Z.div_unique with 0; lia.
  - reflexivity.
Qed.

Lemma iter_shr_1_m (n : positive) (r : shr_record) :
  0 <= shr_m r -> shr_m (iter_pos shr_1 n r) = shr_m r / 2 ^ Z.pos n.
Proof.
  revert r. induction n as [n IH|n IH|]; intros r Hr; cbn [iter_pos].
  - assert (Hp : 0 < 2 ^ Z.pos n) by (apply Z.pow_pos_nonneg; lia).
    assert (H1 : 0 <= shr_m (shr_1 r)) by (rewrite shr_1_m by lia; apply Z.div_pos; lia).
    assert (H2 : 0 <= shr_m (iter_pos shr_1 n (shr_1 r)))
      by (rewrite IH by lia; apply Z.div_pos; lia).
    rewrite IH by exact H2. rewrite IH by exact H1. rewrite shr_1_m by exact Hr.
    rewrite !Z.div_div by lia.
    f_equal. rewrite (Pos2Z.inj_xI n).
    replace (2 * Z.pos n + 1) with (1 + Z.pos n + Z.pos n) by lia.
    rewrite !Z.pow_add_r by lia. lia.
  - assert (Hp : 0 < 2 ^ Z.pos n) by (apply Z.pow_pos_nonneg; lia).
    assert (H2 : 0 <= shr_m (iter_pos shr_1 n r))
      by (rewrite IH by lia; apply Z.div_pos; lia).
    rewrite IH by exact H2. rewrite IH by exact Hr.
    rewrite !Z.div_div by lia.
    f_equal. rewrite (Pos2Z.inj_xO n).
    replace (2 * Z.pos n) with (Z.pos n + Z.pos n) by lia.
    rewrite !Z.pow_add_r by lia. lia.
  - rewrite shr_1_m by lia. reflexivity.
Qed.

(** Rounding to nearest even moves a truncated mantissa up by at most one. *)
Lemma round_nearest_even_bounds (m : Z) (l : location) :
  m <= round_nearest_even m l <= m + 1.
Proof.
  destruct l as [|[| |]]; cbn; [lia | | lia | lia].
  destruct (Z.even m); lia.
Qed.

(** *** The result of one rounding *)

(** A mantissa that already sits at its exponent is left alone. *)
Lemma binary_round_aux_canonical (s : bool) (M : positive) (e : Z) :
  fexp 24 128 (Z.pos (digits2_pos M) + e) = e -> e <= 104 ->
  binary_round_aux 24 128 s (Z.pos M) e loc_Exact = S754_finite s M e.
Proof.
  intros Hc He. unfold binary_round_aux, shr_fexp. cbn [Zdigits2].
  rewrite Hc, Z.sub_diag.
  cbn [shr shr_record_of_loc shr_m loc_of_shr_record round_nearest_even Zdigits2].
  rewrite Hc, Z.sub_diag. cbn [shr shr_record_of_loc shr_m].
  replace (e <=? 128 - 24) with true by (symmetry; apply Z.leb_le; lia).
  reflexivity.
Qed.

(** A mantissa of [24 + n] digits is cut to 24 digits; the cut mantissa is at
    most the truncated one plus one, one exponent higher when that carries. *)
Lemma binary_round_aux_shift (s : bool) (M : positive) (e : Z) (n : positive) :
  Z.pos (digits2_pos M) = 24 + Z.pos n -> -149 <= e -> e + Z.pos n <= 103 ->
  exists m' e',
    binary_round_aux 24 128 s (Z.pos M) e loc_Exact = S754_finite s m' e' /\
    Z.pos (digits2_pos m') = 24 /\
    e + Z.pos n <= e' <= 104 /\
    Z.pos m' * 2 ^ (e' - (e + Z.pos n)) <= Z.pos M / 2 ^ Z.pos n + 1.
Proof.
  intros Hd He Hmax.
  pose proof (digits_bounds M) as HM. rewrite Hd in HM.
  assert (Hp : 0 < 2 ^ Z.pos n) by (apply Z.pow_pos_nonneg; lia).
  assert (Hm1 : 2 ^ 23 <= Z.pos M / 2 ^ Z.pos n < 2 ^ 24).
  { replace (24 + Z.pos n - 1) with (23 + Z.pos n) in HM by lia.
    rewrite !Z.pow_add_r in HM by lia. split.
    - apply Z.div_le_lower_bound; lia.
    - apply Z.div_lt_upper_bound; lia. }
  unfold binary_round_aux, shr_fexp. cbn [Zdigits2].
  replace (fexp 24 128 (Z.pos (digits2_pos M) + e) - e) with (Z.pos n)
    by (rewrite fexp32; lia).
  cbn [shr shr_record_of_loc].
  set (r1 := iter_pos shr_1 n {| shr_m := Z.pos M; shr_r := false; shr_s := false |}).
  assert (Hr1 : shr_m r1 = Z.pos M / 2 ^ Z.pos n).
  { unfold r1. rewrite iter_shr_1_m; cbn [shr_m]; [reflexivity | lia]. }
  pose proof (round_nearest_even_bounds (shr_m r1) (loc_of_shr_record r1)) as Hr2.
  rewrite Hr1 in Hr2 |- *.
  destruct (round_nearest_even (Z.pos M / 2 ^ Z.pos n) (loc_of_shr_record r1))
    as [|q|q]; [lia| |lia].
  cbn [Zdigits2].
  destruct (Z.eq_dec (Z.pos q) (2 ^ 24)) as [Hq|Hq].
  - assert (q = 16777216%positive) as -> by (apply Pos2Z.inj; exact Hq).
    replace (fexp 24 128 (Z.pos (digits2_pos 16777216) + (e + Z.pos n)) - (e + Z.pos n))
      with 1 by (rewrite fexp32; change (Z.pos (digits2_pos 16777216)) with 25; lia).
    cbn [shr shr_record_of_loc iter_pos shr_1 shr_m].
    replace (e + Z.pos n + 1 <=? 128 - 24) with true by (symmetry; apply Z.leb_le; lia).
    exists 8388608%positive, (e + Z.pos n + 1). split; [reflexivity|].
    split; [reflexivity|]. split; [lia|].
    replace (e + Z.pos n + 1 - (e + Z.pos n)) with 1 by lia.
    change (Z.pos 8388608 * 2 ^ 1) with (2 ^ 24). lia.
  - assert (Hdq : Z.pos (digits2_pos q) = 24) by (apply digits_unique; cbn; cbn in Hm1; lia).
    replace (fexp 24 128 (Z.pos (digits2_pos q) + (e + Z.pos n)) - (e + Z.pos n))
      with 0 by (rewrite fexp32, Hdq; lia).
    cbn [shr shr_record_of_loc shr_m].
    replace (e + Z.pos n <=? 128 - 24) with true by (symmetry; apply Z.leb_le; lia).
    exists q, (e + Z.pos n). split; [reflexivity|].
    split; [exact Hdq|]. split; [lia|].
    rewrite Z.sub_diag. cbn [Z.pow]. lia.
Qed.

(** Values are positive. *)
Lemma V_pos (m : positive) (e : Z) : -149 <= e -> 0 < V m e.
Proof.
  intros He. unfold V. apply Z.mul_pos_pos; [lia|]. apply Z.pow_pos_nonneg; lia.
Qed.

(** Rounding a mantissa gives a finite, bounded binary32 number whose value
    is at most [1 + 2^-23] times the exact one. *)
Lemma binary_round_bounds (s : bool) (M : positive) (e : Z) :
  -149 <= e -> Z.pos (digits2_pos M) + e <= 127 ->
  exists m' e',
    binary_round 24 128 s M e = S754_finite s m' e' /\
    bounded 24 128 m' e' = true /\
    2 ^ 23 * V m' e' <= (2 ^ 23 + 1) * V M e.
Proof.
  intros He Hmax.
  pose proof (V_pos M e He) as HV.
  unfold binary_round, shl_align. rewrite fexp32.
  destruct (Z.max (Z.pos (digits2_pos M) + e - 24) (-149) - e) as [|n|k] eqn:En.
  - rewrite binary_round_aux_canonical by (rewrite ?fexp32; lia).
    exists M, e. split; [reflexivity|]. split; [|lia].
    unfold bounded, canonical_mantissa. rewrite fexp32.
    apply andb_true_intro. split; [apply Z.eqb_eq | apply Z.leb_le]; lia.
  - assert (Hd : Z.pos (digits2_pos M) = 24 + Z.pos n) by lia.
    destruct (binary_round_aux_shift s M e n Hd He ltac:(lia))
      as (m' & e' & Hr & Hd' & He' & Hv).
    exists m', e'. split; [exact Hr|]. split.
    { unfold bounded, canonical_mantissa. rewrite fexp32, Hd'.
      apply andb_true_intro. split; [apply Z.eqb_eq | apply Z.leb_le]; lia. }
    pose proof (digits_bounds M) as HM. rewrite Hd in HM.
    replace (24 + Z.pos n - 1) with (23 + Z.pos n) in HM by lia.
    rewrite Z.pow_add_r in HM by lia.
    assert (Hp : 0 < 2 ^ Z.pos n) by (apply Z.pow_pos_nonneg; lia).
    assert (HA : 0 < 2 ^ (e + 149)) by (apply Z.pow_pos_nonneg; lia).
    pose proof (Z.mul_div_le (Z.pos M) (2 ^ Z.pos n) Hp) as Hq.
    unfold V.
    replace (e' + 149) with ((e' - (e + Z.pos n)) + Z.pos n + (e + 149)) by lia.
    rewrite !Z.pow_add_r by lia.
    set (t := 2 ^ (e' - (e + Z.pos n))) in *.
    set (B := 2 ^ Z.pos n) in *. set (A := 2 ^ (e + 149)) in *.
    set (q := Z.pos M / B) in *.
    assert (H1 : Z.pos m' * t * B <= (q + 1) * B)
      by (apply Z.mul_le_mono_nonneg_r; lia).
    assert (H2 : 2 ^ 23 * (Z.pos m' * t * B) <= (2 ^ 23 + 1) * Z.pos M) by lia.
    replace (2 ^ 23 * (Z.pos m' * (t * B * A))) with (2 ^ 23 * (Z.pos m' * t * B) * A) by ring.
    replace ((2 ^ 23 + 1) * (Z.pos M * A)) with ((2 ^ 23 + 1) * Z.pos M * A) by ring.
    apply Z.mul_le_mono_nonneg_r; lia.
  - assert (Hk : 0 < 2 ^ Z.pos k) by (apply Z.pow_pos_nonneg; lia).
    assert (Hdk : Z.pos (digits2_pos (Pos.iter xO M k)) = Z.pos (digits2_pos M) + Z.pos k).
    { apply digits_unique. rewrite iter_xO.
      pose proof (digits_bounds M) as HM.
      replace (Z.pos (digits2_pos M) + Z.pos k - 1)
        with ((Z.pos (digits2_pos M) - 1) + Z.pos k) by lia.
      rewrite !Z.pow_add_r by lia. split.
      - apply Z.mul_le_mono_nonneg_r; lia.
      - apply Z.mul_lt_mono_pos_r; lia. }
    rewrite binary_round_aux_canonical by (rewrite ?fexp32, ?Hdk; lia).
    eexists _, _. split; [reflexivity|]. split.
    { unfold bounded, canonical_mantissa. rewrite fexp32, Hdk.
      apply andb_true_intro. split; [apply Z.eqb_eq | apply Z.leb_le]; lia. }
    enough (V (Pos.iter xO M k)
              (Z.max (Z.pos (digits2_pos M) + e - 24) (-149)) = V M e) as -> by lia.
    unfold V. rewrite iter_xO.
    replace (e + 149) with (Z.pos k + (Z.max (Z.pos (digits2_pos M) + e - 24) (-149) + 149)) by lia.
    rewrite (Z.pow_add_r 2 (Z.pos k)) by lia. ring.
Qed.

(** *** Comparisons and values *)

(** Swapping the operands of a comparison mirrors its result. *)
Lemma SFcompare_antisym (x y : spec_float) :
  SFcompare y x = option_map CompOpp (SFcompare x y).
Proof.
  destruct x as [sx|sx| |sx mx ex], y as [sy|sy| |sy my ey]; cbn;
    try reflexivity;
    try (destruct sx; reflexivity); try (destruct sy; reflexivity);
    try (destruct sx, sy; reflexivity).
  pose proof (Pos.compare_cont_antisym mx my Eq) as Hm. cbn [CompOpp] in Hm.
  destruct sx, sy; cbn; try reflexivity.
  - rewrite (Z.compare_antisym ex ey), <- Hm.
    destruct (ex ?= ey); cbn; try reflexivity.
    all: try (destruct (Pos.compare_cont Eq mx my); reflexivity).
  - rewrite (Z.compare_antisym ex ey), <- Hm.
    destruct (ex ?= ey); reflexivity.
Qed.

(** What [bounded] says of a mantissa and its exponent. *)
Lemma bounded_facts (m : positive) (e : Z) :
  bounded 24 128 m e = true ->
  -149 <= e <= 104 /\ Z.pos (digits2_pos m) <= 24 /\
  (-149 < e -> Z.pos (digits2_pos m) = 24).
Proof.
  unfold bounded, canonical_mantissa. rewrite fexp32. intros H.
  apply andb_prop in H as [Hc He]. apply Z.eqb_eq in Hc. apply Z.leb_le in He.
  change (128 - 24) with 104 in He. lia.
Qed.

Lemma V_lt_pow (m : positive) (e : Z) :
  Z.pos (digits2_pos m) <= 24 -> -149 <= e -> V m e < 2 ^ (e + 173).
Proof.
  intros Hd He. unfold V.
  pose proof (digits_bounds m) as [_ Hm].
  assert (Z.pos m < 2 ^ 24).
  { eapply Z.lt_le_trans; [exact Hm|]. apply Z.pow_le_mono_r; lia. }
  replace (e + 173) with (24 + (e + 149)) by lia.
  rewrite (Z.pow_add_r 2 24 (e + 149)) by lia.
  apply Z.mul_lt_mono_pos_r; [apply Z.pow_pos_nonneg; lia | assumption].
Qed.

Lemma V_ge_pow (m : positive) (e : Z) :
  Z.pos (digits2_pos m) = 24 -> -149 <= e -> 2 ^ (e + 172) <= V m e.
Proof.
  intros Hd He. unfold V.
  pose proof (digits_bounds m) as [Hm _]. rewrite Hd in Hm.
  replace (e + 172) with (23 + (e + 149)) by lia.
  rewrite (Z.pow_add_r 2 23 (e + 149)) by lia.
  apply Z.mul_le_mono_nonneg_r; [apply Z.pow_nonneg; lia | exact Hm].
Qed.

(** A bounded number below 2^k has its exponent below [k - 23]. *)
Lemma bounded_exponent (m : positive) (e k : Z) :
  bounded 24 128 m e = true -> -149 < k -> V m e < 2 ^ (k + 172) -> e < k.
Proof.
  intros Hb Hk Hv.
  destruct (bounded_facts m e Hb) as (He & Hd & Hn).
  destruct (Z.lt_ge_cases e k) as [|Hge]; [assumption|].
  pose proof (V_ge_pow m e (Hn ltac:(lia)) ltac:(lia)) as Hlow.
  assert (2 ^ (k + 172) <= 2 ^ (e + 172)) by (apply Z.pow_le_mono_r; lia).
  lia.
Qed.

(** The digits of a mantissa from a bound on its value. *)
Lemma V_digits (M : positive) (e k : Z) :
  -149 <= e -> 0 <= k -> V M e < 2 ^ k -> Z.pos (digits2_pos M) + e + 149 <= k.
Proof.
  intros He Hk Hv. unfold V in Hv.
  pose proof (digits_bounds M) as [Hlow _].
  assert (Hd : 0 < Z.pos (digits2_pos M)) by lia.
  assert (Hp : 2 ^ (Z.pos (digits2_pos M) - 1 + (e + 149)) < 2 ^ k).
  { rewrite Z.pow_add_r by lia.
    eapply Z.le_lt_trans; [|exact Hv].
    apply Z.mul_le_mono_nonneg_r; [apply Z.pow_nonneg; lia | exact Hlow]. }
  apply Z.pow_lt_mono_r_iff in Hp; lia.
Qed.

(** *** Sums *)

(** Aligning two operands keeps their values. *)
Lemma shl_align_value (m : positive) (e ez : Z) :
  ez <= e -> Z.pos (fst (shl_align m e ez)) = Z.pos m * 2 ^ (e - ez).
Proof.
  intros Hle. unfold shl_align.
  destruct (ez - e) as [|k|k] eqn:Ek; cbn [fst].
  - replace (e - ez) with 0 by lia. cbn. lia.
  - lia.
  - rewrite iter_xO. f_equal. f_equal. lia.
Qed.

Lemma V_shift (m : positive) (e ez : Z) :
  -149 <= ez <= e -> Z.pos m * 2 ^ (e - ez) * 2 ^ (ez + 149) = V m e.
Proof.
  intros H. unfold V. rewrite <- Z.mul_assoc, <- Z.pow_add_r by lia.
  f_equal. f_equal. lia.
Qed.

(** The sum of two positive binary32 numbers, when it is below 512. *)
Lemma add_pos_bounds (m : positive) (e : Z) (ms : positive) (es : Z) :
  bounded 24 128 m e = true -> bounded 24 128 ms es = true ->
  V m e + V ms es < 2 ^ 158 ->
  exists mb eb,
    SFadd 24 128 (S754_finite false m e) (S754_finite false ms es)
    = S754_finite false mb eb /\
    bounded 24 128 mb eb = true /\
    2 ^ 23 * V mb eb <= (2 ^ 23 + 1) * (V m e + V ms es).
Proof.
  intros Hb Hbs Hsum.
  destruct (bounded_facts m e Hb) as (He & _).
  destruct (bounded_facts ms es Hbs) as (Hes & _).
  unfold SFadd, cond_Zopp.
  set (ez := Z.min e es).
  assert (Hez : -149 <= ez <= e /\ ez <= es) by (unfold ez; lia).
  change (Z.pos (fst (shl_align m e ez)) + Z.pos (fst (shl_align ms es ez)))
    with (Z.pos (fst (shl_align m e ez) + fst (shl_align ms es ez))).
  cbn [binary_normalize].
  set (P := (fst (shl_align m e ez) + fst (shl_align ms es ez))%positive).
  assert (HP : V P ez = V m e + V ms es).
  { unfold V at 1. unfold P. rewrite Pos2Z.inj_add, !shl_align_value by lia.
    rewrite Z.mul_add_distr_r, !V_shift by lia. reflexivity. }
  rewrite <- HP in *.
  apply binary_round_bounds; [lia|].
  pose proof (V_digits P ez 158 ltac:(lia) ltac:(lia) Hsum). lia.
Qed.

(** *** Against 360 and 128 *)
Lemma compare_cont_lt (p q : positive) :
  Pos.compare_cont Eq p q = Lt <-> Z.pos p < Z.pos q.
Proof.
  rewrite Pos.compare_cont_spec, Pos2Z.inj_compare. unfold Z.lt.
  destruct (Z.pos p ?= Z.pos q); reflexivity.
Qed.

Lemma compare_cont_le (p q : positive) :
  Pos.compare_cont Eq p q <> Gt <-> Z.pos p <= Z.pos q.
Proof.
  rewrite Pos.compare_cont_spec, Pos2Z.inj_compare. unfold Z.le.
  destruct (Z.pos p ?= Z.pos q); reflexivity.
Qed.

Lemma lt360_value (m : positive) (e : Z) :
  bounded 24 128 m e = true ->
  SFltb (S754_finite false m e) f360 = true -> V m e < V360.
Proof.
  intros Hb Hlt. destruct (bounded_facts m e Hb) as (He & Hd & _).
  unfold SFltb, f360 in Hlt. cbn [SFcompare] in Hlt.
  destruct (e ?= -15) eqn:Ec; [| |discriminate Hlt].
  - apply Z.compare_eq in Ec. subst e.
    assert (Hm : Pos.compare_cont Eq m 11796480 = Lt)
      by (destruct (Pos.compare_cont Eq m 11796480);
          [discriminate Hlt | reflexivity | discriminate Hlt]).
    apply (proj1 (compare_cont_lt m 11796480)) in Hm.
    change V360 with (V 11796480 (-15)). unfold V.
    apply Z.mul_lt_mono_pos_r; [reflexivity | exact Hm].
  - rewrite Z.compare_lt_iff in Ec.
    pose proof (V_lt_pow m e Hd ltac:(lia)) as Hv.
    assert (2 ^ (e + 173) <= 2 ^ 157) by (apply Z.pow_le_mono_r; lia).
    assert (2 ^ 157 < V360) by reflexivity. lia.
Qed.

Lemma value_lt360 (m : positive) (e : Z) :
  bounded 24 128 m e = true ->
  V m e < V360 -> SFltb (S754_finite false m e) f360 = true.
Proof.
  intros Hb Hv.
  assert (He : e < -14).
  { apply (bounded_exponent m e (-14) Hb); [lia|].
    assert (V360 < 2 ^ (-14 + 172)) by reflexivity. lia. }
  unfold SFltb, f360. cbn [SFcompare].
  destruct (e ?= -15) eqn:Ec.
  - apply Z.compare_eq in Ec. subst e.
    change V360 with (V 11796480 (-15)) in Hv. unfold V in Hv.
    assert (Hm : Z.pos m < 11796480)
      by (apply (Z.mul_lt_mono_pos_r (2 ^ (-15 + 149))); [reflexivity | exact Hv]).
    apply (proj2 (compare_cont_lt m 11796480)) in Hm.
    rewrite Hm. reflexivity.
  - reflexivity.
  - rewrite Z.compare_gt_iff in Ec. lia.
Qed.

Lemma le128_value (m : positive) (e : Z) :
  bounded 24 128 m e = true ->
  SFleb (S754_finite false m e) f128 = true -> V m e <= 2 ^ 156.
Proof.
  intros Hb Hle. destruct (bounded_facts m e Hb) as (He & Hd & _).
  unfold SFleb, f128 in Hle. cbn [SFcompare] in Hle.
  destruct (e ?= -16) eqn:Ec; [| |discriminate Hle].
  - apply Z.compare_eq in Ec. subst e.
    assert (Hm : Pos.compare_cont Eq m 8388608 <> Gt)
      by (destruct (Pos.compare_cont Eq m 8388608);
          [discriminate | discriminate | discriminate Hle]).
    apply (proj1 (compare_cont_le m 8388608)) in Hm.
    change (2 ^ 156) with (V 8388608 (-16)). unfold V.
    apply Z.mul_le_mono_nonneg_r; [discriminate | exact Hm].
  - rewrite Z.compare_lt_iff in Ec.
    pose proof (V_lt_pow m e Hd ltac:(lia)) as Hv.
    assert (2 ^ (e + 173) <= 2 ^ 156) by (apply Z.pow_le_mono_r; lia).
    lia.
Qed.

(** *** The wrap *)
Lemma below_360_of_not_above (b : spec_float) :
  b <> S754_nan -> SFleb f360 b = false -> SFltb b f360 = true.
Proof.
  intros Hn Hle. unfold SFltb. rewrite (SFcompare_antisym f360 b).
  unfold SFleb in Hle.
  destruct (SFcompare f360 b) as [[| |]|] eqn:Ec; try discriminate Hle; [reflexivity|].
  destruct b; try discriminate Ec. contradiction.
Qed.

(** A binary32 number in [360, 512) minus 360. *)
Lemma sub_360_ok (mb : positive) :
  Z.pos (digits2_pos mb) <= 24 -> 11796480 <= Z.pos mb ->
  angle_ok (F32.sub (S754_finite false mb (-15)) f360).
Proof.
  intros Hd Hle.
  unfold F32.sub, f360, SFsub, cond_Zopp.
  change (Z.min (-15) (-15)) with (-15).
  change (fst (shl_align mb (-15) (-15))) with mb.
  change (fst (shl_align 11796480 (-15) (-15))) with 11796480%positive.
  destruct (Pos.eq_dec mb 11796480) as [->|Hne].
  - repeat split.
  - assert (Hlt : (11796480 < mb)%positive) by lia.
    rewrite <- (Pos2Z.inj_sub 11796480 mb Hlt). cbn [binary_normalize].
    set (P := (mb - 11796480)%positive).
    pose proof (digits_bounds mb) as [_ Hmb].
    assert (Hmb24 : Z.pos mb < 2 ^ 24)
      by (eapply Z.lt_le_trans; [exact Hmb | apply Z.pow_le_mono_r; lia]).
    assert (HP : Z.pos P = Z.pos mb - 11796480) by (unfold P; lia).
    assert (HVP : V P (-15) = Z.pos P * 2 ^ 134) by reflexivity.
    assert (HdP : Z.pos (digits2_pos P) + -15 <= 127).
    { assert (V P (-15) < 2 ^ 158).
      { rewrite HVP. change (2 ^ 158) with (2 ^ 24 * 2 ^ 134).
        apply Z.mul_lt_mono_pos_r; [reflexivity | lia]. }
      pose proof (V_digits P (-15) 158 ltac:(lia) ltac:(lia) H). lia. }
    change F32.prec with 24. change F32.emax with 128.
    destruct (binary_round_bounds false P (-15) ltac:(lia) HdP)
      as (m' & e' & -> & Hb' & Hv').
    split; [exact Hb'|]. split; [reflexivity|].
    apply value_lt360; [exact Hb'|].
    rewrite HVP in Hv'.
    assert (Hc : Z.pos P * 2 ^ 134 <= 4980735 * 2 ^ 134)
      by (apply Z.mul_le_mono_nonneg_r; [apply Z.pow_nonneg | change (2 ^ 24) with 16777216 in Hmb24]; lia).
    assert (Hn : (2 ^ 23 + 1) * (4980735 * 2 ^ 134) < 2 ^ 23 * V360) by reflexivity.
    assert (Hs : 0 < 2 ^ 23) by reflexivity.
    assert (Hs1 : 0 <= 2 ^ 23 + 1) by (vm_compute; discriminate).
    pose proof (Z.mul_le_mono_nonneg_l _ _ _ Hs1 Hc) as Hc'.
    apply (Z.mul_lt_mono_pos_l (2 ^ 23)); [exact Hs|].
    eapply Z.le_lt_trans; [exact Hv'|]. eapply Z.le_lt_trans; [exact Hc'|exact Hn].
Qed.

(** Wrapping a non-negative binary32 number below 512. *)
Lemma wrap360_ok (mb : positive) (eb : Z) :
  bounded 24 128 mb eb = true -> V mb eb < 2 ^ 158 ->
  angle_ok (wrap360 (S754_finite false mb eb)).
Proof.
  intros Hb Hv.
  destruct (bounded_facts mb eb Hb) as (He & Hd & _).
  assert (Heb : eb < -14) by (apply (bounded_exponent mb eb (-14) Hb); [lia | exact Hv]).
  unfold wrap360, F32.geb.
  destruct (SFleb f360 (S754_finite false mb eb)) eqn:Hge.
  - unfold SFleb, f360 in Hge. cbn [SFcompare] in Hge.
    destruct (-15 ?= eb) eqn:Ec.
    + apply Z.compare_eq in Ec. subst eb.
      apply sub_360_ok; [exact Hd|].
      apply (proj1 (compare_cont_le 11796480 mb)).
      destruct (Pos.compare_cont Eq 11796480 mb); [discriminate|discriminate|discriminate Hge].
    + rewrite Z.compare_lt_iff in Ec. lia.
    + discriminate Hge.
  - split; [exact Hb|]. split; [reflexivity|].
    apply below_360_of_not_above; [discriminate | exact Hge].
Qed.

(** A positive amount below 488 in units of 2^-149 rounds below 512. *)
Lemma rounded_below_512 (x y : Z) :
  2 ^ 23 * x <= (2 ^ 23 + 1) * y -> y < V360 + 2 ^ 156 -> x < 2 ^ 158.
Proof.
  intros Hr Hy.
  assert (Hn : (2 ^ 23 + 1) * (V360 + 2 ^ 156) < 2 ^ 23 * 2 ^ 158) by reflexivity.
  assert (Hs1 : 0 < 2 ^ 23 + 1) by reflexivity.
  apply (Z.mul_lt_mono_pos_l (2 ^ 23)); [reflexivity|].
  eapply Z.le_lt_trans; [exact Hr|]. eapply Z.lt_trans; [|exact Hn].
  apply Z.mul_lt_mono_pos_l; assumption.
Qed.

(** An angle in range is a zero or a positive bounded number below 360; a
    speed in range is a zero or a positive bounded number up to 128. *)
Lemma angle_ok_cases (a : F32.t) :
  angle_ok a ->
  (exists s, a = S754_zero s) \/
  (exists m e, a = S754_finite false m e /\ bounded 24 128 m e = true /\ V m e < V360).
Proof.
  intros (Hv & Hge & Hlt).
  destruct a as [s|s| |s m e].
  - left. exists s. reflexivity.
  - destruct s; discriminate.
  - discriminate.
  - destruct s; [discriminate|].
    right. exists m, e. split; [reflexivity|]. split; [exact Hv|].
    apply lt360_value; assumption.
Qed.

Lemma speed_ok_cases (s : F32.t) :
  speed_ok s ->
  (exists sg, s = S754_zero sg) \/
  (exists m e, s = S754_finite false m e /\ bounded 24 128 m e = true /\ V m e <= 2 ^ 156).
Proof.
  intros (Hv & Hge & Hle).
  destruct s as [sg|sg| |sg m e].
  - left. exists sg. reflexivity.
  - destruct sg; discriminate.
  - discriminate.
  - destruct sg; [discriminate|].
    right. exists m, e. split; [reflexivity|]. split; [exact Hv|].
    apply le128_value; assumption.
Qed.

(** One tick keeps a wrap-around angle in [0, 360), for every speed from 0
    to 128 degrees per tick. *)
Lemma advance_ok (s a : F32.t) :
  speed_ok s -> angle_ok a -> angle_ok (advance s a).
Proof.
  intros Hs Ha. unfold advance, F32.add.
  destruct (angle_ok_cases a Ha) as [[sa ->]|(m & e & -> & Hb & Hv)];
    destruct (speed_ok_cases s Hs) as [[ss ->]|(ms & es & -> & Hbs & Hvs)].
  - destruct sa, ss; repeat split.
  - cbn [SFadd]. apply wrap360_ok; [exact Hbs|].
    assert (2 ^ 156 < 2 ^ 158) by reflexivity. lia.
  - cbn [SFadd]. apply wrap360_ok; [exact Hb|].
    assert (V360 < 2 ^ 158) by reflexivity. lia.
  - assert (Hsum : V m e + V ms es < 2 ^ 158).
    { assert (V360 + 2 ^ 156 < 2 ^ 158) by reflexivity. lia. }
    change F32.prec with 24. change F32.emax with 128.
    destruct (add_pos_bounds m e ms es Hb Hbs Hsum) as (mb & eb & -> & Hbb & Hvb).
    apply wrap360_ok; [exact Hbb|].
    apply (rounded_below_512 _ (V m e + V ms es)); [exact Hvb | lia].
Qed.

(** *** No NaN out of a rounding *)

(** A shift keeps a mantissa non-negative, so the last match of
    [binary_round_aux] never takes its NaN branch. *)
Lemma shr_record_of_loc_m (m : Z) (l : location) : shr_m (shr_record_of_loc m l) = m.
Proof. destruct l as [|[| |]]; reflexivity. Qed.

Lemma shr_fexp_nonneg (prec emax m e : Z) (l : location) :
  0 <= m -> 0 <= shr_m (fst (shr_fexp prec emax m e l)).
Proof.
  intros Hm. unfold shr_fexp, shr.
  destruct (fexp prec emax (Zdigits2 m + e) - e) as [|n|n]; cbn [fst].
  - rewrite shr_record_of_loc_m. exact Hm.
  - rewrite iter_shr_1_m by (rewrite shr_record_of_loc_m; exact Hm).
    rewrite shr_record_of_loc_m. apply Z.div_pos; [exact Hm|].
    apply Z.pow_pos_nonneg; lia.
  - rewrite shr_record_of_loc_m. exact Hm.
Qed.

Lemma binary_round_aux_not_nan (prec emax : Z) (s : bool) (mx ex : Z) (lx : location) :
  0 <= mx -> binary_round_aux prec emax s mx ex lx <> S754_nan.
Proof.
  intros Hm. unfold binary_round_aux.
  pose proof (shr_fexp_nonneg prec emax mx ex lx Hm) as H1.
  destruct (shr_fexp prec emax mx ex lx) as [mrs' e']. cbn [fst] in H1.
  pose proof (round_nearest_even_bounds (shr_m mrs') (loc_of_shr_record mrs')) as Hr.
  pose proof (shr_fexp_nonneg prec emax
                (round_nearest_even (shr_m mrs') (loc_of_shr_record mrs')) e' loc_Exact
                ltac:(lia)) as H2.
  destruct (shr_fexp prec emax _ e' loc_Exact) as [mrs'' e'']. cbn [fst] in H2.
  destruct (shr_m mrs'') as [|q|q]; [discriminate| |lia].
  destruct (e'' <=? emax - prec); discriminate.
Qed.

Lemma binary_normalize_not_nan (prec emax m e : Z) (szero : bool) :
  binary_normalize prec emax m e szero <> S754_nan.
Proof.
  unfold binary_normalize, binary_round.
  destruct m as [|p|p]; [discriminate| |].
  - destruct (shl_align p e _) as [mz ez]. apply binary_round_aux_not_nan. lia.
  - destruct (shl_align p e _) as [mz ez]. apply binary_round_aux_not_nan. lia.
Qed.

(** Adding or subtracting a finite number never makes a NaN out of a
    number. *)
Lemma add_finite_not_nan (x : F32.t) (s : bool) (m : positive) (e : Z) :
  x <> S754_nan -> (x + S754_finite s m e)%f32 <> S754_nan.
Proof.
  intros Hx. unfold F32.add, SFadd.
  destruct x as [sx|sx| |sx mx ex]; try discriminate; [contradiction|].
  apply binary_normalize_not_nan.
Qed.

Lemma sub_finite_not_nan (x : F32.t) (s : bool) (m : positive) (e : Z) :
  x <> S754_nan -> (x - S754_finite s m e)%f32 <> S754_nan.
Proof.
  intros Hx. unfold F32.sub, SFsub.
  destruct x as [sx|sx| |sx mx ex]; try discriminate; [contradiction|].
  apply binary_normalize_not_nan.
Qed.

(** Two numbers are ordered one way or the other. *)
Lemma not_lt_le (x y : spec_float) :
  x <> S754_nan -> y <> S754_nan -> SFltb x y = false -> SFleb y x = true.
Proof.
  intros Hx Hy Hlt. unfold SFleb. rewrite (SFcompare_antisym x y).
  unfold SFltb in Hlt.
  destruct (SFcompare x y) as [[| |]|] eqn:Ec; try reflexivity; try discriminate Hlt.
  destruct x, y; try discriminate Ec; contradiction.
Qed.

(** ** Zoom *)

(** The clamp puts any number within the limits, and a notch makes a number
    of a number. *)
Lemma zoom_ok_not_nan (z : F32.t) : zoom_ok z -> z <> S754_nan.
Proof. intros [H _] ->. discriminate H. Qed.

Lemma clamp_zoom_ok (z : F32.t) : z <> S754_nan -> zoom_ok (clamp_zoom z).
Proof.
  intros Hz. unfold clamp_zoom, F32.ltb, F32.gtb. cbv zeta.
  destruct (SFltb z MIN_ZOOM) eqn:Hlo.
  - split; reflexivity.
  - destruct (SFltb MAX_ZOOM z) eqn:Hhi.
    + split; reflexivity.
    + split; unfold F32.leb; apply not_lt_le; try assumption; discriminate.
Qed.

Lemma wheel_zoom_ok (y : Z) (z : F32.t) : zoom_ok z -> zoom_ok (wheel_zoom y z).
Proof.
  intros Hz. apply clamp_zoom_ok.
  pose proof (zoom_ok_not_nan z Hz) as Hn.
  destruct (0 <? y); [apply sub_finite_not_nan; exact Hn|].
  destruct (y <? 0); [apply add_finite_not_nan; exact Hn | exact Hn].
Qed.

(** The zoom the handler leaves: only the wheel branch writes it. *)
Lemma getZoom_if (c : bool) (v : F32.t) (p : Planet.t) :
  Planet.getZoom (if c then Planet.setZoom v p else p)
  = if c then v else Planet.getZoom p.
Proof. destruct c; reflexivity. Qed.

Lemma handleInput_zoom (event : SDL_Event) (ticks : Z) (a : App) :
  Planet.getZoom (planet (handleInput event ticks a))
  = match event with
    | SDL_MOUSEWHEEL y => wheel_zoom y (Planet.getZoom (planet a))
    | _ => Planet.getZoom (planet a)
    end.
Proof.
  destruct event as [|x y|b x y|b x y|y|ty]; cbn [handleInput]; try reflexivity.
  - destruct (dragging a); reflexivity.
  - destruct (b =? SDL_BUTTON_LEFT); reflexivity.
  - destruct (b =? SDL_BUTTON_LEFT); reflexivity.
  - cbn [planet]. cbv zeta. unfold wheel_zoom.
    destruct (0 <? y); [|destruct (y <? 0)]; rewrite !getZoom_if; reflexivity.
Qed.

Lemma handleInputs_zoom_ok (events : list (SDL_Event * Z)) (a : App) :
  zoom_ok (Planet.getZoom (planet a)) ->
  zoom_ok (Planet.getZoom (planet (handleInputs events a))).
Proof.
  revert a. induction events as [|[ev t] events IH]; intros a Ha; [exact Ha|].
  change (handleInputs ((ev, t) :: events) a)
    with (handleInputs events (handleInput ev t a)).
  apply IH. rewrite handleInput_zoom.
  destruct ev; try exact Ha. apply wheel_zoom_ok, Ha.
Qed.

(** C1: whatever events [handleInput] is given, wheel events or others, in
    whatever order, the zoom of a planet that starts at the constructor's
    5.0 is within [MIN_ZOOM, MAX_ZOOM] = [2.1f, 20.0f] after each of them;
    a wheel event moves the zoom by 0.5 in the direction of the wheel and
    clamps it, every other event leaves it alone. *)
Theorem zoom_stays_within_limits
    (events : list (SDL_Event * Z))
    (r atmosphereR : F32.t) (texture atmosphereTexture : Z) (m : option Moon.t)
    (orbitR orbitS : F32.t) :
  let a0 := main_app (Planet.new r atmosphereR texture atmosphereTexture m orbitR orbitS) in
  Planet.getZoom (planet a0) = f5 /\
  zoom_ok (Planet.getZoom (planet (handleInputs events a0))) /\
  (forall (y ticks : Z),
     let a := handleInputs events a0 in
     Planet.getZoom (planet (handleInput (SDL_MOUSEWHEEL y) ticks a))
     = clamp_zoom (if 0 <? y then (Planet.getZoom (planet a) - f0_5)%f32
                   else if y <? 0 then (Planet.getZoom (planet a) + f0_5)%f32
                   else Planet.getZoom (planet a))).
Proof.
  cbv zeta. split; [reflexivity|]. split.
  - apply handleInputs_zoom_ok. split; reflexivity.
  - intros y ticks. rewrite handleInput_zoom. reflexivity.
Qed.

(** The lower limit is the binary32 number 2.1f =
    8808038/4194304 = 2.099999904632568359375. *)
Example MIN_ZOOM_value : F32.to_Q MIN_ZOOM = Some (8808038 # 4194304).
Proof. reflexivity. Qed.

(** Wheel-up events from the initial zoom: 4.5, 4.0, 3.5, 3.0, 2.5 and, from
    the sixth event on, the lower limit. *)
Example wheel_up_from_5 :
  let zoom_after n :=
    Planet.getZoom (planet (handleInputs (repeat (SDL_MOUSEWHEEL 1, 0) n)
                                         (main_app demo_planet))) in
  map zoom_after [1; 2; 3; 4; 5; 6; 10]%nat
  = [F32.lit 9 2; F32.of_int 4; F32.lit 7 2; F32.of_int 3; F32.lit 5 2;
     MIN_ZOOM; MIN_ZOOM].
Proof. vm_compute. reflexivity. Qed.

(** ** Wrap-around angles stay in [0, 360) *)

(** The three speeds of the scene and the starting angle are in range. *)
Lemma iter_advance_ok (s a : F32.t) (n : nat) :
  speed_ok s -> angle_ok a -> angle_ok (Nat.iter n (advance s) a).
Proof.
  intros Hs Ha. induction n as [|n IH]; [exact Ha|].
  cbn [Nat.iter nat_rect]. apply advance_ok; [exact Hs | exact IH].
Qed.

Lemma zero_angle_ok : angle_ok f0.
Proof. repeat split. Qed.

Lemma moon_speed_ok : speed_ok f0_5.
Proof. repeat split. Qed.

Lemma passive_speed_ok : speed_ok f0_1.
Proof. repeat split. Qed.

(** The invariant of a run of update ticks, from any state that has it. *)
Lemma updates_keep_angles (lm : Libm) (clock : list Z) (last : Z) (p : Planet.t) :
  speed_ok (Planet.passiveRotationSpeed p) -> speed_ok (Planet.orbitSpeed p) ->
  angle_ok (Planet.rotationY p) -> angle_ok (Planet.orbitAngle p) ->
  (forall m, Planet.moon p = Some m -> angle_ok (Moon.orbitAngle m)) ->
  let q := updates lm clock last p in
  angle_ok (Planet.rotationY q) /\ angle_ok (Planet.orbitAngle q) /\
  (forall m, Planet.moon q = Some m -> angle_ok (Moon.orbitAngle m)).
Proof.
  intros Hps Hos Hr Ho Hm q. subst q.
  rewrite updates_rotationY, updates_orbitAngle, updates_moon.
  split; [apply iter_advance_ok; assumption|].
  split; [apply iter_advance_ok; assumption|].
  intros m Hq. destruct (Planet.moon p) as [m0|]; [|discriminate Hq].
  cbn [option_map] in Hq. injection Hq as <-.
  rewrite moon_updates_orbitAngle.
  apply iter_advance_ok; [exact moon_speed_ok | apply Hm; reflexivity].
Qed.

(** C2: take a planet as its constructor leaves it (spin and orbit angle 0,
    passive speed 0.1f), with a moon, if any, as its constructor leaves it
    (orbit angle 0), and an orbit speed between 0 and 128 degrees per tick
    ([main] has 0.1f).  After every run of update ticks the passive spin
    angle, the planet's orbit angle and the moon's orbit angle are binary32
    numbers [a] with [0 <= a] and [a < 360]. *)
Theorem angles_stay_within_0_360
    (lm : Libm) (clock : list Z) (last : Z)
    (r atmosphereR : F32.t) (texture atmosphereTexture : Z)
    (moon : option Moon.t) (orbitR orbitS : F32.t) :
  speed_ok orbitS ->
  (forall m, moon = Some m -> Moon.orbitAngle m = f0) ->
  let p := Planet.new r atmosphereR texture atmosphereTexture moon orbitR orbitS in
  let q := updates lm clock last p in
  (Planet.rotationY p = f0 /\ Planet.orbitAngle p = f0) /\
  angle_ok (Planet.rotationY q) /\
  angle_ok (Planet.orbitAngle q) /\
  (forall m, Planet.moon q = Some m -> angle_ok (Moon.orbitAngle m)) /\
  (moon <> None -> Planet.moon q <> None).
Proof.
  intros Hs Hm p q. split; [split; reflexivity|].
  destruct (updates_keep_angles lm clock last p) as (Hr & Ho & Hmn).
  - exact passive_speed_ok.
  - exact Hs.
  - exact zero_angle_ok.
  - exact zero_angle_ok.
  - intros m Hp. rewrite (Hm m Hp). exact zero_angle_ok.
  - split; [exact Hr|]. split; [exact Ho|]. split; [exact Hmn|].
    intros Hn. subst q. rewrite updates_moon.
    subst p. cbn [Planet.new Planet.moon]. destruct moon; [discriminate | contradiction].
Qed.

Lemma angles_stay_within_0_360_witness :
  let q := updates series_libm (repeat 16 5000) 0 demo_planet in
  (speed_ok f0_1 /\
   (forall m, Some (main_moon 3 4) = Some m -> Moon.orbitAngle m = f0)) /\
  angle_ok (Planet.rotationY q) /\ angle_ok (Planet.orbitAngle q).
Proof.
  cbv zeta.
  assert (Hm : forall m, Some (main_moon 3 4) = Some m -> Moon.orbitAngle m = f0)
    by (intros m Hs; injection Hs as <-; reflexivity).
  assert (Hs : speed_ok f0_1) by (repeat split).
  split; [split; [exact Hs | exact Hm]|].
  pose proof (angles_stay_within_0_360 series_libm (repeat 16 5000) 0
                f1 (F32.lit 105 100) 1 2 (Some (main_moon 3 4)) (F32.of_int 20) f0_1
                Hs Hm) as H.
  cbv zeta in H. destruct H as (_ & Hr & Ho & _).
  split; [exact Hr | exact Ho].
Defined.

(** ** What a drag leaves in the user X rotation *)

(** All 161 values against all vertical movements inside the window, by
    evaluation. *)
Lemma half_table_checked :
  forallb (fun k => F32.same (half_of_table k) (half k)) (zrange (-80) 161) = true.
Proof. vm_compute. reflexivity. Qed.

Lemma half_of_table_eq (k : Z) : -80 <= k <= 80 -> half_of_table k = half k.
Proof.
  intros Hk. apply same_eq.
  exact (zrange_forallb _ _ _ half_table_checked k ltac:(lia)).
Qed.

Lemma drag_rows_checked : forallb drag_row_ok (zrange (-1029) 2059) = true.
Proof. vm_compute. reflexivity. Qed.

Lemma drag_step (k d : Z) :
  -80 <= k <= 80 -> -1029 <= d <= 1029 ->
  clamp40 (half k - F32.of_int d * f0_5)%f32 = half (clampZ (k - d)).
Proof.
  intros Hk Hd.
  pose proof (zrange_forallb _ _ _ drag_rows_checked d ltac:(lia)) as Hrow.
  unfold drag_row_ok in Hrow. cbv zeta in Hrow.
  pose proof (zrange_forallb _ _ _ Hrow k ltac:(lia)) as H.
  apply same_eq in H.
  rewrite !half_of_table_eq in H by (unfold clampZ; lia). exact H.
Qed.

(** Differences of window coordinates do not wrap. *)
Lemma sint32_small (z : Z) : -2147483648 <= z < 2147483648 -> sint32 z = z.
Proof. intros Hz. unfold sint32. rewrite Z.mod_small; lia. Qed.

Lemma motion_keeps_drag_invariant (a : App) (x y ticks : Z) :
  0 <= y < SCREEN_HEIGHT -> drag_invariant a ->
  drag_invariant (handleInput (SDL_MOUSEMOTION x y) ticks a).
Proof.
  intros Hy (Hl & k & Hk & Hs & Hu). unfold SCREEN_HEIGHT in *.
  unfold handleInput. destruct (dragging a).
  - cbv zeta. rewrite clamp40_sequential.
    rewrite (sint32_small (y - lastMouseY a)) by lia.
    rewrite Hs, drag_step by lia.
    split; [exact Hy|]. exists (clampZ (k - (y - lastMouseY a))).
    split; [unfold clampZ; lia|]. split; reflexivity.
  - split; [exact Hl|]. exists k. split; [exact Hk | split; assumption].
Qed.

Lemma handleInput_keeps_drag_invariant (event : SDL_Event) (ticks : Z) (a : App) :
  in_window event -> drag_invariant a -> drag_invariant (handleInput event ticks a).
Proof.
  intros Hw Ha. destruct event as [|x y|b x y|b x y|y|ty]; cbn [in_window] in Hw.
  - exact Ha.
  - apply motion_keeps_drag_invariant; assumption.
  - destruct Ha as (Hl & k & Hk & Hs & Hu). cbn [handleInput].
    destruct (b =? SDL_BUTTON_LEFT).
    + split; [exact Hw|]. exists k. split; [exact Hk | split; assumption].
    + split; [exact Hl|]. exists k. split; [exact Hk | split; assumption].
  - destruct Ha as (Hl & k & Hk & Hs & Hu). cbn [handleInput].
    destruct (b =? SDL_BUTTON_LEFT); (split; [exact Hl|]; exists k; split; [exact Hk | split; assumption]).
  - destruct Ha as (Hl & k & Hk & Hs & Hu).
    split; [exact Hl|]. exists k. split; [exact Hk|]. split; [exact Hs|].
    cbn [handleInput planet]. cbv zeta.
    repeat match goal with
           | |- context [if ?c then _ else _] => destruct c
           end; exact Hu.
  - exact Ha.
Qed.

(** Every value the input handler leaves in [userRotationX], over any run of
    events whose mouse positions are inside the window, is [k/2] for a [k]
    from -80 to 80: the domain of the spring back. *)
Lemma drags_leave_half_degrees
    (events : list (SDL_Event * Z))
    (r atmosphereR : F32.t) (texture atmosphereTexture : Z) (m : option Moon.t)
    (orbitR orbitS : F32.t) :
  Forall (fun ev => in_window (fst ev)) events ->
  let a0 := main_app (Planet.new r atmosphereR texture atmosphereTexture m orbitR orbitS) in
  exists k, -80 <= k <= 80 /\
            Planet.userRotationX (planet (handleInputs events a0)) = half k.
Proof.
  intros Hw a0.
  assert (H0 : drag_invariant a0).
  { split; [unfold SCREEN_HEIGHT; cbn; lia|]. exists 0. repeat split; lia. }
  assert (H : drag_invariant (handleInputs events a0)).
  { clearbody a0. revert a0 H0.
    induction Hw as [|[ev t] events Hev _ IH]; intros a0 H0; [exact H0|].
    change (handleInputs ((ev, t) :: events) a0)
      with (handleInputs events (handleInput ev t a0)).
    apply IH, handleInput_keeps_drag_invariant; assumption. }
  destruct H as (_ & k & Hk & _ & Hu). exists k. split; assumption.
Qed.

(** ** The input handler, event by event *)

Lemma handleInputs_cons (ev : SDL_Event * Z) (events : list (SDL_Event * Z)) (a : App) :
  handleInputs (ev :: events) a = handleInputs events (handleInput (fst ev) (snd ev) a).
Proof. reflexivity. Qed.

Lemma handleInput_running (event : SDL_Event) (ticks : Z) (a : App) :
  running (handleInput event ticks a) = running a && negb (is_quit event).
Proof.
  destruct event as [|x y|b x y|b x y|y|ty]; cbn [handleInput is_quit negb].
  - cbn. rewrite andb_false_r. reflexivity.
  - destruct (dragging a); cbn; rewrite andb_true_r; reflexivity.
  - destruct (b =? SDL_BUTTON_LEFT); cbn; rewrite andb_true_r; reflexivity.
  - destruct (b =? SDL_BUTTON_LEFT); cbn; rewrite andb_true_r; reflexivity.
  - cbn. rewrite andb_true_r. reflexivity.
  - rewrite andb_true_r. reflexivity.
Qed.

Lemma handleInputs_running (events : list (SDL_Event * Z)) (a : App) :
  running (handleInputs events a)
  = running a && negb (existsb (fun ev => is_quit (fst ev)) events).
Proof.
  revert a. induction events as [|ev events IH]; intros a.
  - cbn. rewrite andb_true_r. reflexivity.
  - rewrite handleInputs_cons, IH, handleInput_running. cbn [existsb].
    rewrite negb_orb, andb_assoc. reflexivity.
Qed.

Lemma in_quit (events : list (SDL_Event * Z)) :
  In SDL_QUIT (map fst events) <-> existsb (fun ev => is_quit (fst ev)) events = true.
Proof.
  rewrite in_map_iff, existsb_exists. split.
  - intros (ev & Hq & Hin). exists ev. split; [exact Hin|]. rewrite Hq. reflexivity.
  - intros (ev & Hin & Hq). exists ev. split; [|exact Hin].
    destruct (fst ev); try discriminate Hq. reflexivity.
Qed.

(** X1: [running] only ever goes from true to false.  Over any run of
    events the handler leaves it false when it was false or when one of the
    events is a quit, whatever comes after the quit; without a quit it
    leaves it as it was. *)
Theorem quit_is_final (events : list (SDL_Event * Z)) (a : App) :
  (running a = false -> running (handleInputs events a) = false) /\
  (In SDL_QUIT (map fst events) -> running (handleInputs events a) = false) /\
  (~ In SDL_QUIT (map fst events) -> running (handleInputs events a) = running a).
Proof.
  rewrite handleInputs_running. split; [|split].
  - intros ->. reflexivity.
  - intros Hq. apply in_quit in Hq. rewrite Hq. apply andb_false_r.
  - intros Hq. rewrite in_quit in Hq. apply not_true_is_false in Hq.
    rewrite Hq. apply andb_true_r.
Qed.

Lemma handleInput_without_motion (event : SDL_Event) (ticks : Z) (a : App) :
  is_motion event = false ->
  let a' := handleInput event ticks a in
  sphereRotationX a' = sphereRotationX a /\
  sphereRotationY a' = sphereRotationY a /\
  lastInteractionTime a' = lastInteractionTime a /\
  Planet.userRotationX (planet a') = Planet.userRotationX (planet a) /\
  Planet.userRotationY (planet a') = Planet.userRotationY (planet a).
Proof.
  intros Hm. destruct event as [|x y|b x y|b x y|y|ty]; try discriminate Hm;
    cbn [handleInput]; cbv zeta.
  - repeat split.
  - destruct (b =? SDL_BUTTON_LEFT); repeat split.
  - destruct (b =? SDL_BUTTON_LEFT); repeat split.
  - cbn [sphereRotationX sphereRotationY lastInteractionTime planet].
    split; [reflexivity|]. split; [reflexivity|]. split; [reflexivity|].
    repeat match goal with
           | |- context [if ?c then _ else _] => destruct c
           end; split; reflexivity.
  - repeat split.
Qed.

(** X2: the rotation and the time of the last interaction are written by
    mouse motion only.  Over any run of events without a motion event
    (presses, releases, wheel notches, quits, other events) the accumulated
    rotation, the planet's user rotation and [lastInteractionTime] are what
    they were: zooming and clicking do not put off the spring back. *)
Theorem only_motion_rotates (events : list (SDL_Event * Z)) (a : App) :
  forallb (fun ev => negb (is_motion (fst ev))) events = true ->
  let a' := handleInputs events a in
  sphereRotationX a' = sphereRotationX a /\
  sphereRotationY a' = sphereRotationY a /\
  lastInteractionTime a' = lastInteractionTime a /\
  Planet.userRotationX (planet a') = Planet.userRotationX (planet a) /\
  Planet.userRotationY (planet a') = Planet.userRotationY (planet a).
Proof.
  revert a. induction events as [|ev events IH]; intros a Hev; cbv zeta.
  - repeat split.
  - cbn [forallb] in Hev. apply andb_prop in Hev as [Hm Hev].
    apply negb_true_iff in Hm.
    rewrite handleInputs_cons.
    destruct (IH (handleInput (fst ev) (snd ev) a) Hev) as (H1 & H2 & H3 & H4 & H5).
    destruct (handleInput_without_motion (fst ev) (snd ev) a Hm) as (G1 & G2 & G3 & G4 & G5).
    cbv zeta in *.
    rewrite H1, H2, H3, H4, H5. repeat split; assumption.
Qed.

Lemma only_motion_rotates_witness :
  let events := [ (SDL_MOUSEBUTTONDOWN SDL_BUTTON_LEFT 300 300, 9000);
                  (SDL_MOUSEWHEEL 1, 9100);
                  (SDL_MOUSEBUTTONUP SDL_BUTTON_LEFT 310 320, 9200) ] in
  forallb (fun ev => negb (is_motion (fst ev))) events = true /\
  lastInteractionTime (handleInputs events after_first_drag) = 600 /\
  sphereRotationX (handleInputs events after_first_drag) = F32.of_int (-15).
Proof.
  cbv zeta. split; [reflexivity|].
  pose proof (only_motion_rotates
    [ (SDL_MOUSEBUTTONDOWN SDL_BUTTON_LEFT 300 300, 9000);
      (SDL_MOUSEWHEEL 1, 9100);
      (SDL_MOUSEBUTTONUP SDL_BUTTON_LEFT 310 320, 9200) ] after_first_drag eq_refl) as H.
  cbv zeta in H. destruct H as (H1 & _ & H3 & _).
  rewrite H1, H3. split; reflexivity.
Defined.

Lemma handleInput_passive (event : SDL_Event) (ticks : Z) (a : App) :
  dragging a = false -> passive event = true -> handleInput event ticks a = a.
Proof.
  intros Hd Hp. destruct event as [|x y|b x y|b x y|y|ty]; try discriminate Hp;
    cbn [handleInput].
  - rewrite Hd. reflexivity.
  - unfold passive in Hp. cbn in Hp. apply negb_true_iff in Hp. rewrite Hp. reflexivity.
  - destruct (b =? SDL_BUTTON_LEFT); [|reflexivity].
    destruct a; cbn in *. subst. reflexivity.
  - reflexivity.
Qed.

(** X3: before the left button goes down nothing but the wheel and a quit
    changes anything.  From a state with [dragging] false, a run of events
    with no left press, no wheel event and no quit (motion, presses and
    releases of other buttons, releases of the left button, events of other
    types) leaves the whole program state as it was; dragging with another
    button does not rotate the planet. *)
Theorem nothing_moves_without_left_press (events : list (SDL_Event * Z)) (a : App) :
  dragging a = false ->
  forallb (fun ev => passive (fst ev)) events = true ->
  handleInputs events a = a.
Proof.
  intros Hd. induction events as [|ev events IH]; intros Hev; [reflexivity|].
  cbn [forallb] in Hev. apply andb_prop in Hev as [Hp Hev].
  rewrite handleInputs_cons, handleInput_passive by assumption.
  apply IH, Hev.
Qed.

Lemma nothing_moves_without_left_press_witness :
  let events := [ (SDL_MOUSEBUTTONDOWN 3 100 100, 500);
                  (SDL_MOUSEMOTION 150 130, 600);
                  (SDL_MOUSEBUTTONUP 3 150 130, 700);
                  (SDL_MOUSEBUTTONUP SDL_BUTTON_LEFT 150 130, 800);
                  (SDL_OTHER 768, 900) ] in
  (dragging (main_app demo_planet) = false /\
   forallb (fun ev => passive (fst ev)) events = true) /\
  handleInputs events (main_app demo_planet) = main_app demo_planet.
Proof.
  cbv zeta. split; [split; reflexivity|].
  apply nothing_moves_without_left_press; reflexivity.
Defined.

(** X5: one wheel event brings any zoom that is a number into the limits.
    [setZoom] stores what it is given; whatever it was given, infinities
    included, the next wheel event, even one with no vertical amount,
    leaves a zoom within [MIN_ZOOM, MAX_ZOOM]. *)
Theorem wheel_brings_zoom_into_limits (a : App) (y ticks : Z) :
  Planet.getZoom (planet a) <> S754_nan ->
  zoom_ok (Planet.getZoom (planet (handleInput (SDL_MOUSEWHEEL y) ticks a))).
Proof.
  intros Hn. rewrite handleInput_zoom. apply clamp_zoom_ok.
  destruct (0 <? y); [apply sub_finite_not_nan; exact Hn|].
  destruct (y <? 0); [apply add_finite_not_nan; exact Hn | exact Hn].
Qed.

Lemma wheel_brings_zoom_into_limits_witness :
  let a := main_app (Planet.setZoom (S754_infinity false) demo_planet) in
  Planet.getZoom (planet a) <> S754_nan /\
  zoom_ok (Planet.getZoom (planet (handleInput (SDL_MOUSEWHEEL 0) 0 a))).
Proof.
  cbv zeta. split; [discriminate|].
  apply wheel_brings_zoom_into_limits. discriminate.
Defined.

(** X21: only the direction of a wheel event counts.  Two wheel events
    whose vertical amounts have the same sign leave the same program state,
    whatever the amounts and the times: a notch of 1 and a fast spin of 120
    both move the zoom by 0.5. *)
Theorem wheel_amount_is_ignored (a : App) (y1 y2 t1 t2 : Z) :
  Z.sgn y1 = Z.sgn y2 ->
  handleInput (SDL_MOUSEWHEEL y1) t1 a = handleInput (SDL_MOUSEWHEEL y2) t2 a.
Proof.
  intros Hs. cbn [handleInput].
  assert (H1 : (0 <? y1) = (0 <? y2)) by (destruct y1, y2; try discriminate Hs; reflexivity).
  assert (H2 : (y1 <? 0) = (y2 <? 0)) by (destruct y1, y2; try discriminate Hs; reflexivity).
  rewrite H1, H2. reflexivity.
Qed.

Lemma wheel_amount_is_ignored_witness :
  Z.sgn 1 = Z.sgn 120 /\
  Planet.getZoom (planet (handleInput (SDL_MOUSEWHEEL 120) 7 (main_app demo_planet)))
  = F32.lit 9 2.
Proof.
  split; [reflexivity|].
  rewrite <- (wheel_amount_is_ignored (main_app demo_planet) 1 120 0 7 eq_refl).
  reflexivity.
Defined.

(** ** The clock and the delay *)

(** X6: the idle test survives the wrap of the millisecond clock.  With the
    last interaction at [last] and [elapsed] milliseconds gone since, both
    below 2^32, the test on the wrapped clock reading is the test
    [2000 <= elapsed]. *)
Theorem idle_survives_clock_wrap (last elapsed : Z) :
  0 <= last < 4294967296 -> 0 <= elapsed < 4294967296 ->
  Planet.idle (uint32 (last + elapsed)) last = (RETURN_TO_ORIGINAL_DELAY <=? elapsed).
Proof.
  intros Hl He. unfold Planet.idle, uint32.
  rewrite Zminus_mod_idemp_l.
  replace (last + elapsed - last) with elapsed by lia.
  rewrite Z.mod_small by lia. reflexivity.
Qed.

Lemma idle_survives_clock_wrap_witness :
  (0 <= 4294967000 < 4294967296 /\ 0 <= 2500 < 4294967296) /\
  uint32 (4294967000 + 2500) = 2204 /\
  Planet.idle 2204 4294967000 = true.
Proof.
  split; [lia|]. split; [reflexivity|].
  exact (idle_survives_clock_wrap 4294967000 2500 ltac:(lia) ltac:(lia)).
Defined.

Lemma updates_kept_fields (lm : Libm) (clock : list Z) (last : Z) (p : Planet.t) :
  let q := updates lm clock last p in
  Planet.userRotationY q = Planet.userRotationY p /\
  Planet.zoom q = Planet.zoom p /\
  Planet.rotationX q = Planet.rotationX p.
Proof.
  revert p. induction clock as [|now clock IH]; intros p; cbv zeta.
  - repeat split.
  - rewrite updates_cons.
    destruct (IH (Planet.update lm now last p)) as (H1 & H2 & H3).
    cbv zeta in *. rewrite H1, H2, H3. repeat split.
Qed.

(** X7: the user rotation holds during the delay.  The user Y rotation
    stays as it is over any run of update ticks; over a run of ticks that
    all come less than 2000 ms after the last interaction the user X
    rotation stays as the drag left it too. *)
Theorem rotation_holds_during_delay (lm : Libm) (clock : list Z) (last : Z) (p : Planet.t) :
  let q := updates lm clock last p in
  Planet.userRotationY q = Planet.userRotationY p /\
  (Forall (fun now => Planet.idle now last = false) clock ->
   Planet.userRotationX q = Planet.userRotationX p).
Proof.
  cbv zeta. split; [apply updates_kept_fields|].
  intros Hbusy. revert p.
  induction Hbusy as [|now clock Hnow Hbusy IH]; intros p; [reflexivity|].
  rewrite updates_cons, IH. apply update_userRotationX_busy, Hnow.
Qed.

Lemma rotation_holds_during_delay_witness :
  let p := Planet.setRotation (half (-30)) f25 demo_planet in
  let clock := [616; 632; 1000; 2599] in
  Forall (fun now => Planet.idle now 600 = false) clock /\
  Planet.userRotationX (updates series_libm clock 600 p) = half (-30) /\
  Planet.userRotationY (updates series_libm (clock ++ [2600; 9000]) 600 p) = f25.
Proof.
  cbv zeta.
  assert (H : Forall (fun now => Planet.idle now 600 = false) [616; 632; 1000; 2599])
    by (repeat constructor).
  split; [exact H|]. split.
  - exact (proj2 (rotation_holds_during_delay series_libm [616; 632; 1000; 2599] 600
                    (Planet.setRotation (half (-30)) f25 demo_planet)) H).
  - exact (proj1 (rotation_holds_during_delay series_libm
                    ([616; 632; 1000; 2599] ++ [2600; 9000]) 600
                    (Planet.setRotation (half (-30)) f25 demo_planet))).
Defined.

(** ** The moon's orbit and the planet's spin *)

(** All 720 half degrees, by evaluation. *)
Lemma moon_steps_checked : forallb moon_step_ok (zrange 0 720) = true.
Proof. vm_compute. reflexivity. Qed.

Lemma moon_step (j : Z) :
  0 <= j < 720 -> advance f0_5 (half j) = half ((j + 1) mod 720).
Proof.
  intros Hj.
  pose proof (zrange_forallb _ _ _ moon_steps_checked j ltac:(lia)) as H.
  apply andb_prop in H as [H _]. apply same_eq, H.
Qed.

Lemma half_value (j : Z) :
  0 <= j < 720 -> exists q, F32.to_Q (half j) = Some q /\ (q == j # 2)%Q.
Proof.
  intros Hj.
  pose proof (zrange_forallb _ _ _ moon_steps_checked j ltac:(lia)) as H.
  apply andb_prop in H as [_ H].
  destruct (F32.to_Q (half j)) as [q|]; [|discriminate H].
  exists q. split; [reflexivity | apply Qeq_bool_iff, H].
Qed.

Lemma moon_steps (n : nat) (j : Z) :
  0 <= j < 720 ->
  Nat.iter n (advance f0_5) (half j) = half ((j + Z.of_nat n) mod 720).
Proof.
  intros Hj. induction n as [|n IH].
  - cbn [Nat.iter nat_rect]. rewrite Z.add_0_r, Z.mod_small by lia. reflexivity.
  - cbn [Nat.iter nat_rect].
    change (nat_rect _ (half j) (fun _ => advance f0_5) n)
      with (Nat.iter n (advance f0_5) (half j)).
    rewrite IH, moon_step by (apply Z.mod_pos_bound; lia).
    rewrite Zplus_mod_idemp_l. f_equal. f_equal. lia.
Qed.

(** X8: the moon's orbit is exact and has period 720.  Its step of 0.5
    degrees is a binary32 number, so from an orbit angle of [j/2] degrees
    ([j] from 0 to 719, 0 at construction) the angle after [n] update ticks
    of the planet is exactly [((j + n) mod 720) / 2] degrees, and after 720
    ticks it is the angle it started from. *)
Theorem moon_orbit_has_period_720
    (lm : Libm) (clock : list Z) (last : Z) (p : Planet.t) (m : Moon.t) (j : Z) :
  Planet.moon p = Some m ->
  0 <= j < 720 ->
  Moon.orbitAngle m = half j ->
  exists m' q,
    Planet.moon (updates lm clock last p) = Some m' /\
    Moon.orbitAngle m' = half ((j + Z.of_nat (length clock)) mod 720) /\
    F32.to_Q (Moon.orbitAngle m') = Some q /\
    (q == ((j + Z.of_nat (length clock)) mod 720) # 2)%Q /\
    (length clock = 720%nat -> Moon.orbitAngle m' = Moon.orbitAngle m).
Proof.
  intros Hm Hj Ha.
  exists (Nat.iter (length clock) Moon.update m).
  assert (Hang : Moon.orbitAngle (Nat.iter (length clock) Moon.update m)
                 = half ((j + Z.of_nat (length clock)) mod 720)).
  { rewrite moon_updates_orbitAngle, Ha. apply moon_steps, Hj. }
  destruct (half_value ((j + Z.of_nat (length clock)) mod 720)) as (q & Hq & Hv).
  { apply Z.mod_pos_bound. lia. }
  exists q.
  split; [rewrite updates_moon, Hm; reflexivity|].
  split; [exact Hang|].
  split; [rewrite Hang; exact Hq|].
  split; [exact Hv|].
  intros Hlen. rewrite Hang, Ha, Hlen. f_equal.
  change (Z.of_nat 720) with (1 * 720).
  rewrite Z.mod_add by lia. apply Z.mod_small, Hj.
Qed.

Lemma moon_orbit_has_period_720_witness :
  (Planet.moon demo_planet = Some (main_moon 3 4) /\ 0 <= 0 < 720 /\
   Moon.orbitAngle (main_moon 3 4) = half 0) /\
  exists m', Planet.moon (updates series_libm (repeat 16 720) 0 demo_planet) = Some m' /\
             Moon.orbitAngle m' = f0.
Proof.
  split; [split; [reflexivity | split; [lia | reflexivity]]|].
  destruct (moon_orbit_has_period_720 series_libm (repeat 16 720) 0 demo_planet
              (main_moon 3 4) 0 eq_refl ltac:(lia) eq_refl)
    as (m' & q & Hm & _ & _ & _ & Hback).
  exists m'. split; [exact Hm|].
  exact (Hback (repeat_length 16 720)).
Defined.

(** X9: spin and orbit keep step.  A planet whose passive speed is its
    orbit speed, as in [main] where both are 0.1f, and whose spin angle is
    its orbit angle, as after construction, has the two equal after every
    run of update ticks: the planet turns once about its axis per orbit. *)
Theorem spin_keeps_step_with_orbit (lm : Libm) (clock : list Z) (last : Z) (p : Planet.t) :
  Planet.passiveRotationSpeed p = Planet.orbitSpeed p ->
  Planet.rotationY p = Planet.orbitAngle p ->
  Planet.rotationY (updates lm clock last p) = Planet.orbitAngle (updates lm clock last p).
Proof.
  intros Hs Ha. rewrite updates_rotationY, updates_orbitAngle, Hs, Ha. reflexivity.
Qed.

Lemma spin_keeps_step_with_orbit_witness :
  (Planet.passiveRotationSpeed demo_planet = Planet.orbitSpeed demo_planet /\
   Planet.rotationY demo_planet = Planet.orbitAngle demo_planet) /\
  Planet.rotationY (updates series_libm (repeat 16 3600) 0 demo_planet) = angle_after_3600.
Proof.
  split; [split; reflexivity|].
  rewrite (spin_keeps_step_with_orbit series_libm (repeat 16 3600) 0 demo_planet
             eq_refl eq_refl).
  rewrite updates_orbitAngle, repeat_length. exact orbit_3600_ticks.
Defined.

(** ** The spring back off the half-degree grid *)

(** The round bit a right shift leaves is the last bit shifted out. *)
Lemma shr_1_r (r : shr_record) :
  0 <= shr_m r -> shr_r (shr_1 r) = Z.testbit (shr_m r) 0.
Proof.
  destruct r as [m rb sb]. cbn [shr_m]. intros Hm.
  destruct m as [|p|p]; [reflexivity| |lia].
  destruct p as [p|p|]; reflexivity.
Qed.

Lemma iter_shr_1_r (n : positive) (r : shr_record) :
  0 <= shr_m r ->
  shr_r (iter_pos shr_1 n r) = Z.testbit (shr_m r) (Z.pos n - 1).
Proof.
  revert r. induction n as [n IH|n IH|]; intros r Hr; cbn [iter_pos].
  - assert (Hp : 0 < 2 ^ Z.pos n) by (apply Z.pow_pos_nonneg; lia).
    assert (H1 : 0 <= shr_m (shr_1 r)) by (rewrite shr_1_m by lia; apply Z.div_pos; lia).
    assert (H2 : 0 <= shr_m (iter_pos shr_1 n (shr_1 r)))
      by (rewrite iter_shr_1_m by lia; apply Z.div_pos; lia).
    rewrite IH by exact H2. rewrite iter_shr_1_m by exact H1. rewrite shr_1_m by exact Hr.
    rewrite Z.div_pow2_bits by lia.
    change (shr_m r / 2) with (shr_m r / 2 ^ 1).
    rewrite Z.div_pow2_bits by lia.
    f_equal. lia.
  - assert (H2 : 0 <= shr_m (iter_pos shr_1 n r)).
    { rewrite iter_shr_1_m by lia. apply Z.div_pos; [lia|].
      apply Z.pow_pos_nonneg; lia. }
    rewrite IH by exact H2. rewrite iter_shr_1_m by exact Hr.
    rewrite Z.div_pow2_bits by lia. f_equal. lia.
  - apply shr_1_r, Hr.
Qed.

(** A mantissa in the upper half of the gap below [2^(24+n)] rounds up to
    the power of two. *)
Lemma binary_round_up_to_power (M : positive) (e : Z) (n : positive) :
  -149 <= e -> e + Z.pos n <= 102 ->
  (2 ^ 24 - 1) * 2 ^ Z.pos n + 2 ^ (Z.pos n - 1) <= Z.pos M < 2 ^ 24 * 2 ^ Z.pos n ->
  binary_round 24 128 false M e = S754_finite false 8388608 (e + Z.pos n + 1).
Proof.
  intros He Hmax HM.
  assert (Hp : 0 < 2 ^ Z.pos n) by (apply Z.pow_pos_nonneg; lia).
  assert (Hh : 0 < 2 ^ (Z.pos n - 1)) by (apply Z.pow_pos_nonneg; lia).
  assert (Hn : 2 ^ Z.pos n = 2 * 2 ^ (Z.pos n - 1)).
  { rewrite <- Z.pow_succ_r by lia. f_equal. lia. }
  assert (Hd : Z.pos (digits2_pos M) = 24 + Z.pos n).
  { apply digits_unique.
    replace (24 + Z.pos n - 1) with (23 + Z.pos n) by lia.
    rewrite !Z.pow_add_r by lia. change (2 ^ 24) with (2 * 2 ^ 23) in HM. nia. }
  assert (Hq : Z.pos M / 2 ^ Z.pos n = 2 ^ 24 - 1).
  { symmetry. apply Z.div_unique with (Z.pos M - (2 ^ 24 - 1) * 2 ^ Z.pos n); lia. }
  assert (Hbit : Z.testbit (Z.pos M) (Z.pos n - 1) = true).
  { apply Z.testbit_true; [lia|].
    replace (Z.pos M / 2 ^ (Z.pos n - 1))
      with (1 + (2 ^ 24 - 1) * 2)
      by (apply Z.div_unique with (Z.pos M - (2 ^ 24 - 1) * 2 ^ Z.pos n - 2 ^ (Z.pos n - 1)); lia).
    reflexivity. }
  unfold binary_round, shl_align. rewrite fexp32.
  replace (Z.max (Z.pos (digits2_pos M) + e - 24) (-149) - e) with (Z.pos n) by lia.
  unfold binary_round_aux, shr_fexp. cbn [Zdigits2].
  replace (fexp 24 128 (Z.pos (digits2_pos M) + e) - e) with (Z.pos n)
    by (rewrite fexp32; lia).
  cbn [shr shr_record_of_loc].
  set (r1 := iter_pos shr_1 n {| shr_m := Z.pos M; shr_r := false; shr_s := false |}).
  assert (Hr1 : shr_m r1 = 2 ^ 24 - 1).
  { unfold r1. rewrite iter_shr_1_m; cbn [shr_m]; [exact Hq | lia]. }
  assert (Hr2 : shr_r r1 = true).
  { unfold r1. rewrite iter_shr_1_r; cbn [shr_m]; [exact Hbit | lia]. }
  assert (Hup : round_nearest_even (shr_m r1) (loc_of_shr_record r1) = 2 ^ 24).
  { rewrite Hr1. destruct r1 as [m1 rb sb]. cbn [shr_r] in Hr2. subst rb.
    destruct sb; reflexivity. }
  rewrite Hup. change (2 ^ 24) with (Z.pos 16777216). cbn [Zdigits2].
  replace (fexp 24 128 (Z.pos (digits2_pos 16777216) + (e + Z.pos n)) - (e + Z.pos n))
    with 1 by (rewrite fexp32; change (Z.pos (digits2_pos 16777216)) with 25; lia).
  cbn [shr shr_record_of_loc iter_pos shr_1 shr_m].
  replace (e + Z.pos n + 1 <=? 128 - 24) with true by (symmetry; apply Z.leb_le; lia).
  reflexivity.
Qed.

(** Half a degree added to a negative number of magnitude at most 2^-26 is
    half a degree. *)
Lemma tiny_plus_half (m : positive) (e : Z) :
  bounded 24 128 m e = true -> V m e <= 2 ^ 123 ->
  (S754_finite true m e + f0_5)%f32 = f0_5.
Proof.
  intros Hb Hv.
  destruct (bounded_facts m e Hb) as (He & Hd & _).
  assert (He26 : e <= -26).
  { destruct (Z.le_gt_cases e (-26)) as [|Hgt]; [assumption|].
    unfold V in Hv.
    assert (2 ^ 124 <= 2 ^ (e + 149)) by (apply Z.pow_le_mono_r; lia).
    assert (2 ^ 123 < 2 ^ 124) by reflexivity.
    assert (2 ^ (e + 149) <= Z.pos m * 2 ^ (e + 149)).
    { rewrite <- (Z.mul_1_l (2 ^ (e + 149))) at 1.
      apply Z.mul_le_mono_nonneg_r; [apply Z.pow_nonneg|]; lia. }
    lia. }
  assert (Hm : Z.pos m <= 2 ^ (-26 - e)).
  { unfold V in Hv.
    assert (Hpow : 2 ^ 123 = 2 ^ (-26 - e) * 2 ^ (e + 149)).
    { rewrite <- Z.pow_add_r by lia. f_equal. lia. }
    rewrite Hpow in Hv.
    apply Z.mul_le_mono_pos_r in Hv; [exact Hv|]. apply Z.pow_pos_nonneg; lia. }
  unfold F32.add, SFadd, f0_5, cond_Zopp.
  change F32.prec with 24. change F32.emax with 128.
  replace (Z.min e (-24)) with e by lia.
  assert (Hx : Z.pos (fst (shl_align m e e)) = Z.pos m).
  { rewrite shl_align_value by lia. rewrite Z.sub_diag. cbn. lia. }
  assert (Hy : Z.pos (fst (shl_align 8388608 (-24) e)) = 2 ^ (-1 - e)).
  { rewrite shl_align_value by lia.
    change (Z.pos 8388608) with (2 ^ 23). rewrite <- Z.pow_add_r by lia. f_equal. lia. }
  destruct (-25 - e) as [|n|n] eqn:En; try lia.
  assert (Hsplit : 2 ^ (-1 - e) = 2 ^ 24 * 2 ^ Z.pos n).
  { rewrite <- Z.pow_add_r by lia. f_equal. lia. }
  assert (Hhalf : 2 ^ (-26 - e) = 2 ^ (Z.pos n - 1)) by (f_equal; lia).
  assert (Hn : 2 ^ Z.pos n = 2 * 2 ^ (Z.pos n - 1)).
  { rewrite <- Z.pow_succ_r by lia. f_equal. lia. }
  assert (Hh : 0 < 2 ^ (Z.pos n - 1)) by (apply Z.pow_pos_nonneg; lia).
  destruct (Z.opp (Z.pos (fst (shl_align m e e)))
            + Z.pos (fst (shl_align 8388608 (-24) e))) as [|P|P] eqn:EP;
    try lia.
  cbn [binary_normalize].
  rewrite (binary_round_up_to_power P e n) by lia.
  f_equal. lia.
Qed.

(** X10: off the half-degree grid the spring back can overshoot.  From any
    negative user X rotation of magnitude at most 2^-26 degrees ([V m e]
    counts units of 2^-149), one idle tick leaves +0.5 degrees: the sum
    [x + 0.5f] rounds to 0.5, which the snap test [fabs(x) < 0.5f] lets
    pass.  The sign is crossed, the magnitude grows, and the next idle tick
    gives 0. *)
Theorem tiny_negative_rotation_overshoots
    (lm : Libm) (now last : Z) (p : Planet.t) (m : positive) (e : Z) :
  Planet.idle now last = true ->
  Planet.userRotationX p = S754_finite true m e ->
  bounded 24 128 m e = true ->
  V m e <= 2 ^ 123 ->
  let x := Planet.userRotationX p in
  let x' := Planet.userRotationX (Planet.update lm now last p) in
  x' = f0_5 /\
  F32.ltb x f0 = true /\ F32.gtb x' f0 = true /\
  F32.ltb (F32.fabs x) (F32.fabs x') = true /\
  Planet.userRotationX (Planet.update lm now last (Planet.update lm now last p)) = f0.
Proof.
  intros Hidle Hx Hb Hv. cbv zeta.
  destruct (bounded_facts m e Hb) as (He & _).
  assert (Hstep : Planet.userRotationX (Planet.update lm now last p) = f0_5).
  { rewrite update_userRotationX by exact Hidle. rewrite Hx.
    unfold relax, Planet.spring_back.
    change (S754_finite true m e != f0)%f32 with true.
    change (S754_finite true m e > f0)%f32 with false.
    change (S754_finite true m e < f0)%f32 with true.
    cbv iota zeta. rewrite (tiny_plus_half m e Hb Hv). reflexivity. }
  split; [exact Hstep|].
  split; [rewrite Hx; reflexivity|].
  split; [rewrite Hstep; reflexivity|].
  split.
  - rewrite Hstep, Hx. unfold F32.ltb, F32.fabs, SFltb, f0_5. cbn [SFabs SFcompare].
    assert (He24 : e < -24).
    { apply (bounded_exponent m e (-24) Hb); [lia|].
      assert (2 ^ 123 < 2 ^ (-24 + 172)) by reflexivity. lia. }
    apply Z.compare_lt_iff in He24. rewrite He24. reflexivity.
  - rewrite update_userRotationX by exact Hidle. rewrite Hstep. reflexivity.
Qed.

Lemma tiny_negative_rotation_overshoots_witness :
  let p := Planet.setRotation (S754_finite true 8388608 (-53)) f0 demo_planet in
  (Planet.idle 2600 600 = true /\
   Planet.userRotationX p = S754_finite true 8388608 (-53) /\
   bounded 24 128 8388608 (-53) = true /\
   V 8388608 (-53) <= 2 ^ 123) /\
  Planet.userRotationX (Planet.update series_libm 2600 600 p) = f0_5.
Proof.
  cbv zeta.
  assert (Hv : V 8388608 (-53) <= 2 ^ 123) by (vm_compute; discriminate).
  split.
  { split; [reflexivity|]. split; [reflexivity|]. split; [reflexivity|].
    exact Hv. }
  exact (proj1 (tiny_negative_rotation_overshoots series_libm 2600 600
                  (Planet.setRotation (S754_finite true 8388608 (-53)) f0 demo_planet)
                  8388608 (-53) eq_refl eq_refl eq_refl Hv)).
Defined.

(** ** What the bodies draw *)

Lemma moon_render_gl (mn : Moon.t) (g : GL) :
  snd (Moon.render mn g)
  = {| matrix := matrix g; stack := stack g;
       texture := Moon.atmosphereTextureID mn; color := white;
       drawn := drawn g ++ moon_spheres (matrix g) (color g) mn |}.
Proof.
  unfold Moon.render, moon_spheres, ball. cbn.
  rewrite <- !app_assoc. reflexivity.
Qed.

Lemma sun_render_gl (s : Sun.t) (g : GL) :
  snd (Sun.render s g)
  = {| matrix := matrix g; stack := stack g;
       texture := Sun.textureID s; color := color g;
       drawn := drawn g ++ sun_spheres (matrix g) (color g) s |}.
Proof. reflexivity. Qed.

Lemma planet_render_gl (p : Planet.t) (g : GL) :
  snd (Planet.render p g)
  = {| matrix := matrix g; stack := stack g;
       texture := match Planet.moon p with
                  | Some mn => Moon.atmosphereTextureID mn
                  | None => Planet.atmosphereTextureID p
                  end;
       color := white;
       drawn := drawn g ++ planet_spheres (matrix g) (color g) p |}.
Proof.
  unfold Planet.render, planet_spheres, moon_spheres, ball.
  destruct (Planet.moon p) as [mn|]; cbn; rewrite <- !app_assoc; reflexivity.
Qed.

(** X11: rendering leaves the modelview matrix and its stack as it found
    them, whatever they were: every push has its pop, in all three bodies,
    with or without a moon.  The planet and the moon leave the current
    colour opaque white; the sun leaves the colour it found. *)
Theorem render_restores_the_matrix :
  (forall (s : Sun.t) (g : GL),
     let g' := snd (Sun.render s g) in
     matrix g' = matrix g /\ stack g' = stack g /\ color g' = color g) /\
  (forall (p : Planet.t) (g : GL),
     let g' := snd (Planet.render p g) in
     matrix g' = matrix g /\ stack g' = stack g /\ color g' = white) /\
  (forall (m : Moon.t) (g : GL),
     let g' := snd (Moon.render m g) in
     matrix g' = matrix g /\ stack g' = stack g /\ color g' = white).
Proof.
  split; [|split].
  - intros s g. cbv zeta. rewrite sun_render_gl. repeat split.
  - intros p g. cbv zeta. rewrite planet_render_gl. repeat split.
  - intros m g. cbv zeta. rewrite moon_render_gl. repeat split.
Qed.

(** X12: what each body draws.  The sun draws one sphere, the moon two, the
    planet two and then its moon's two, four in all.  The moon's spheres
    stand in the planet's spun frame, so the user rotation and the passive
    spin carry the moon along; the moon's body is drawn opaque white, the
    colour the planet's shell has just reset, and the planet's and the
    sun's bodies in the colour current at the call; the shells are drawn at
    alpha 0.5.  The moon's spheres do not get the 90 degree orientation the
    planet's and the sun's get. *)
Theorem render_draws :
  (forall (s : Sun.t) (g : GL),
     drawn (snd (Sun.render s g)) = drawn g ++ sun_spheres (matrix g) (color g) s) /\
  (forall (p : Planet.t) (g : GL),
     drawn (snd (Planet.render p g)) = drawn g ++ planet_spheres (matrix g) (color g) p /\
     length (planet_spheres (matrix g) (color g) p)
     = match Planet.moon p with Some _ => 4%nat | None => 2%nat end) /\
  (forall (m : Moon.t) (g : GL),
     drawn (snd (Moon.render m g)) = drawn g ++ moon_spheres (matrix g) (color g) m).
Proof.
  split; [|split].
  - intros s g. rewrite sun_render_gl. reflexivity.
  - intros p g. rewrite planet_render_gl. split; [reflexivity|].
    unfold planet_spheres. destruct (Planet.moon p); reflexivity.
  - intros m g. rewrite moon_render_gl. reflexivity.
Qed.

(** ** Half degrees add up exactly

    A number binary32 has is the result of rounding it; sums of multiples of
    one half below 2^23 are such numbers. *)

(** Shifting out zeros leaves no round bit and no sticky bit. *)
Lemma iter_shr_1_exact (n m : positive) :
  iter_pos shr_1 n {| shr_m := Z.pos (Pos.iter xO m n); shr_r := false; shr_s := false |}
  = {| shr_m := Z.pos m; shr_r := false; shr_s := false |}.
Proof.
  revert m. induction n as [n IH|n IH|]; intros m; cbn [iter_pos Pos.iter].
  - cbn [shr_1 orb]. rewrite IH, IH. reflexivity.
  - rewrite IH, IH. reflexivity.
  - reflexivity.
Qed.

(** A bounded mantissa with [n] zeros behind it rounds to itself. *)
Lemma binary_round_aux_exact (s : bool) (m : positive) (e : Z) (n : positive) :
  bounded 24 128 m e = true ->
  binary_round_aux 24 128 s (Z.pos (Pos.iter xO m n)) (e - Z.pos n) loc_Exact
  = S754_finite s m e.
Proof.
  intros Hb.
  assert (Hc : fexp 24 128 (Z.pos (digits2_pos m) + e) = e).
  { unfold bounded, canonical_mantissa in Hb. apply andb_prop in Hb as [Hc _].
    apply Z.eqb_eq, Hc. }
  assert (He : e <= 104).
  { unfold bounded in Hb. apply andb_prop in Hb as [_ He]. apply Z.leb_le in He. exact He. }
  assert (Hd : Z.pos (digits2_pos (Pos.iter xO m n)) = Z.pos (digits2_pos m) + Z.pos n).
  { apply digits_unique. rewrite iter_xO.
    pose proof (digits_bounds m) as HM.
    assert (Hp : 0 < 2 ^ Z.pos n) by (apply Z.pow_pos_nonneg; lia).
    replace (Z.pos (digits2_pos m) + Z.pos n - 1)
      with ((Z.pos (digits2_pos m) - 1) + Z.pos n) by lia.
    rewrite !Z.pow_add_r by lia. split.
    - apply Z.mul_le_mono_nonneg_r; lia.
    - apply Z.mul_lt_mono_pos_r; lia. }
  unfold binary_round_aux, shr_fexp. cbn [Zdigits2].
  replace (fexp 24 128 (Z.pos (digits2_pos (Pos.iter xO m n)) + (e - Z.pos n)) - (e - Z.pos n))
    with (Z.pos n)
    by (rewrite Hd; replace (Z.pos (digits2_pos m) + Z.pos n + (e - Z.pos n))
          with (Z.pos (digits2_pos m) + e) by lia; rewrite Hc; lia).
  cbn [shr shr_record_of_loc]. rewrite iter_shr_1_exact.
  cbn [shr_m loc_of_shr_record round_nearest_even Zdigits2].
  replace (e - Z.pos n + Z.pos n) with e by lia.
  rewrite Hc, Z.sub_diag. cbn [shr shr_record_of_loc shr_m].
  replace (e <=? 128 - 24) with true by (symmetry; apply Z.leb_le; lia).
  reflexivity.
Qed.

(** Mantissa and exponent of a bounded number are determined by its value
    among the numbers of the same binade. *)
Lemma digits_of_value (M m : positive) (e e' : Z) :
  -149 <= e -> -149 <= e' -> V M e = V m e' ->
  Z.pos (digits2_pos M) + e = Z.pos (digits2_pos m) + e'.
Proof.
  intros He He' Hv. unfold V in Hv.
  pose proof (digits_bounds M) as [HM1 HM2].
  pose proof (digits_bounds m) as [Hm1 Hm2].
  set (dM := Z.pos (digits2_pos M)) in *. set (dm := Z.pos (digits2_pos m)) in *.
  assert (HdM : 0 < dM) by (unfold dM; lia).
  assert (Hdm : 0 < dm) by (unfold dm; lia).
  assert (HA : 0 < 2 ^ (e + 149)) by (apply Z.pow_pos_nonneg; lia).
  assert (HB : 0 < 2 ^ (e' + 149)) by (apply Z.pow_pos_nonneg; lia).
  assert (L1 : 2 ^ (dM - 1 + (e + 149)) <= Z.pos M * 2 ^ (e + 149)).
  { rewrite (Z.pow_add_r 2 (dM - 1) (e + 149)) by lia.
    apply Z.mul_le_mono_nonneg_r; lia. }
  assert (U1 : Z.pos M * 2 ^ (e + 149) < 2 ^ (dM + (e + 149))).
  { rewrite (Z.pow_add_r 2 dM (e + 149)) by lia. apply Z.mul_lt_mono_pos_r; lia. }
  assert (L2 : 2 ^ (dm - 1 + (e' + 149)) <= Z.pos m * 2 ^ (e' + 149)).
  { rewrite (Z.pow_add_r 2 (dm - 1) (e' + 149)) by lia.
    apply Z.mul_le_mono_nonneg_r; lia. }
  assert (U2 : Z.pos m * 2 ^ (e' + 149) < 2 ^ (dm + (e' + 149))).
  { rewrite (Z.pow_add_r 2 dm (e' + 149)) by lia. apply Z.mul_lt_mono_pos_r; lia. }
  rewrite Hv in L1, U1.
  assert (P1 : 2 ^ (dM - 1 + (e + 149)) < 2 ^ (dm + (e' + 149))) by lia.
  assert (P2 : 2 ^ (dm - 1 + (e' + 149)) < 2 ^ (dM + (e + 149))) by lia.
  apply Z.pow_lt_mono_r_iff in P1; [|lia|lia].
  apply Z.pow_lt_mono_r_iff in P2; [|lia|lia].
  lia.
Qed.

(** Rounding a number that binary32 has gives that number. *)
Lemma binary_round_exact (s : bool) (M m : positive) (e e' : Z) :
  -149 <= e -> bounded 24 128 m e' = true -> V M e = V m e' ->
  binary_round 24 128 s M e = S754_finite s m e'.
Proof.
  intros He Hb Hv.
  destruct (bounded_facts m e' Hb) as (He' & _).
  assert (Hc : fexp 24 128 (Z.pos (digits2_pos m) + e') = e').
  { unfold bounded, canonical_mantissa in Hb. apply andb_prop in Hb as [Hc _].
    apply Z.eqb_eq, Hc. }
  pose proof (digits_of_value M m e e' He ltac:(lia) Hv) as Hd.
  unfold binary_round. rewrite Hd, Hc. unfold shl_align.
  unfold V in Hv.
  destruct (e' - e) as [|n|n] eqn:En.
  - assert (e' = e) by lia. subst e'.
    apply Z.mul_cancel_r in Hv; [|apply Z.pow_nonzero; lia].
    injection Hv as ->.
    apply binary_round_aux_canonical; [exact Hc | lia].
  - assert (HM : M = Pos.iter xO m n).
    { apply Pos2Z.inj. rewrite iter_xO.
      replace (e' + 149) with (Z.pos n + (e + 149)) in Hv by lia.
      rewrite (Z.pow_add_r 2 (Z.pos n) (e + 149)), Z.mul_assoc in Hv by lia.
      apply Z.mul_cancel_r in Hv; [exact Hv | apply Z.pow_nonzero; lia]. }
    subst M. replace e with (e' - Z.pos n) by lia.
    apply binary_round_aux_exact, Hb.
  - assert (Hm : Pos.iter xO M n = m).
    { apply Pos2Z.inj. rewrite iter_xO.
      replace (e + 149) with (Z.pos n + (e' + 149)) in Hv by lia.
      rewrite (Z.pow_add_r 2 (Z.pos n) (e' + 149)), Z.mul_assoc in Hv by lia.
      apply Z.mul_cancel_r in Hv; [exact Hv | apply Z.pow_nonzero; lia]. }
    rewrite Hm. apply binary_round_aux_canonical; [exact Hc | lia].
Qed.

(** A mantissa of at most 24 digits is there as it is. *)
Lemma binary_round_small (s : bool) (M : positive) (e : Z) :
  -149 <= e -> Z.pos (digits2_pos M) <= 24 -> Z.pos (digits2_pos M) + e <= 128 ->
  exists m' e',
    binary_round 24 128 s M e = S754_finite s m' e' /\
    bounded 24 128 m' e' = true /\
    V m' e' = V M e.
Proof.
  intros He Hd Hmax.
  unfold binary_round, shl_align. rewrite fexp32.
  destruct (Z.max (Z.pos (digits2_pos M) + e - 24) (-149) - e) as [|n|k] eqn:En; [|lia|].
  - rewrite binary_round_aux_canonical by (rewrite ?fexp32; lia).
    exists M, e. split; [reflexivity|]. split; [|reflexivity].
    unfold bounded, canonical_mantissa. rewrite fexp32.
    apply andb_true_intro. split; [apply Z.eqb_eq | apply Z.leb_le]; lia.
  - assert (Hk : 0 < 2 ^ Z.pos k) by (apply Z.pow_pos_nonneg; lia).
    assert (Hdk : Z.pos (digits2_pos (Pos.iter xO M k)) = Z.pos (digits2_pos M) + Z.pos k).
    { apply digits_unique. rewrite iter_xO.
      pose proof (digits_bounds M) as HM.
      replace (Z.pos (digits2_pos M) + Z.pos k - 1)
        with ((Z.pos (digits2_pos M) - 1) + Z.pos k) by lia.
      rewrite !Z.pow_add_r by lia. split.
      - apply Z.mul_le_mono_nonneg_r; lia.
      - apply Z.mul_lt_mono_pos_r; lia. }
    rewrite binary_round_aux_canonical by (rewrite ?fexp32, ?Hdk; lia).
    eexists _, _. split; [reflexivity|]. split.
    { unfold bounded, canonical_mantissa. rewrite fexp32, Hdk.
      apply andb_true_intro. split; [apply Z.eqb_eq | apply Z.leb_le]; lia. }
    unfold V. rewrite iter_xO.
    replace (e + 149) with (Z.pos k + (Z.max (Z.pos (digits2_pos M) + e - 24) (-149) + 149)) by lia.
    rewrite (Z.pow_add_r 2 (Z.pos k)) by lia. ring.
Qed.

(** [k/2] as binary32 has it: the sign of [k] and the value [|k| * 2^148] in
    units of 2^-149. *)
Lemma half_form (k : Z) :
  0 < Z.abs k < 2 ^ 24 ->
  exists m e,
    half k = S754_finite (k <? 0) m e /\
    bounded 24 128 m e = true /\
    V m e = Z.abs k * 2 ^ 148.
Proof.
  intros Hk.
  assert (Hint : exists m0 e0,
            F32.of_int k = S754_finite (k <? 0) m0 e0 /\
            bounded 24 128 m0 e0 = true /\ V m0 e0 = Z.abs k * 2 ^ 149).
  { unfold F32.of_int. change F32.prec with 24. change F32.emax with 128.
    destruct k as [|p|p]; [cbn in Hk; lia| |]; cbn [binary_normalize Z.ltb Z.compare Z.abs].
    - destruct (binary_round_small false p 0) as (m0 & e0 & Hr & Hb & Hv).
      + lia.
      + pose proof (digits_bounds p) as [Hl _]. cbn [Z.abs] in Hk.
        destruct (Z.le_gt_cases (Z.pos (digits2_pos p)) 24) as [|Hgt]; [assumption|].
        assert (2 ^ 24 <= 2 ^ (Z.pos (digits2_pos p) - 1)) by (apply Z.pow_le_mono_r; lia).
        lia.
      + pose proof (digits_bounds p) as [Hl _]. cbn [Z.abs] in Hk.
        destruct (Z.le_gt_cases (Z.pos (digits2_pos p)) 24) as [|Hgt]; [lia|].
        assert (2 ^ 24 <= 2 ^ (Z.pos (digits2_pos p) - 1)) by (apply Z.pow_le_mono_r; lia).
        lia.
      + exists m0, e0. split; [exact Hr|]. split; [exact Hb|]. rewrite Hv. reflexivity.
    - destruct (binary_round_small true p 0) as (m0 & e0 & Hr & Hb & Hv).
      + lia.
      + pose proof (digits_bounds p) as [Hl _]. cbn [Z.abs] in Hk.
        destruct (Z.le_gt_cases (Z.pos (digits2_pos p)) 24) as [|Hgt]; [assumption|].
        assert (2 ^ 24 <= 2 ^ (Z.pos (digits2_pos p) - 1)) by (apply Z.pow_le_mono_r; lia).
        lia.
      + pose proof (digits_bounds p) as [Hl _]. cbn [Z.abs] in Hk.
        destruct (Z.le_gt_cases (Z.pos (digits2_pos p)) 24) as [|Hgt]; [lia|].
        assert (2 ^ 24 <= 2 ^ (Z.pos (digits2_pos p) - 1)) by (apply Z.pow_le_mono_r; lia).
        lia.
      + exists m0, e0. split; [exact Hr|]. split; [exact Hb|]. rewrite Hv. reflexivity. }
  destruct Hint as (m0 & e0 & Hr & Hb & Hv).
  destruct (bounded_facts m0 e0 Hb) as (He0 & Hd0 & Hn0).
  assert (He : -24 < e0).
  { destruct (Z.lt_ge_cases (-24) e0) as [|Hle]; [assumption|].
    pose proof (V_lt_pow m0 e0 Hd0 ltac:(lia)) as Hlt.
    assert (2 ^ (e0 + 173) <= 2 ^ 149) by (apply Z.pow_le_mono_r; lia).
    assert (2 ^ 149 <= Z.abs k * 2 ^ 149).
    { rewrite <- (Z.mul_1_l (2 ^ 149)) at 1. apply Z.mul_le_mono_nonneg_r; lia. }
    lia. }
  assert (Hb' : bounded 24 128 m0 (e0 - 1) = true).
  { unfold bounded, canonical_mantissa. rewrite fexp32, (Hn0 ltac:(lia)).
    apply andb_true_intro. split; [apply Z.eqb_eq | apply Z.leb_le]; lia. }
  exists m0, (e0 - 1). split; [|split; [exact Hb'|]].
  - unfold half, F32.mul. rewrite Hr. unfold f0_5. cbn [SFmul].
    change F32.prec with 24. change F32.emax with 128.
    rewrite xorb_false_r.
    assert (Hm : (m0 * 8388608)%positive = Pos.iter xO m0 23).
    { apply Pos2Z.inj. rewrite iter_xO, Pos2Z.inj_mul. reflexivity. }
    rewrite Hm. replace (e0 + -24) with (e0 - 1 - 23) by lia.
    apply binary_round_aux_exact, Hb'.
  - unfold V in *. replace (e0 + 149) with (1 + (e0 - 1 + 149)) in Hv by lia.
    rewrite (Z.pow_add_r 2 1 (e0 - 1 + 149)) in Hv by lia.
    change (2 ^ 149) with (2 ^ 1 * 2 ^ 148) in Hv.
    change (2 ^ 1) with 2 in Hv. lia.
Qed.

Lemma half_0 : half 0 = S754_zero false.
Proof. reflexivity. Qed.

(** Half degrees add exactly. *)
Lemma half_add (k d : Z) :
  Z.abs k < 2 ^ 24 -> Z.abs d < 2 ^ 24 -> Z.abs (k + d) < 2 ^ 24 ->
  (half k + half d)%f32 = half (k + d).
Proof.
  intros Hk Hd Hkd.
  destruct (Z.eq_dec k 0) as [->|Hk0].
  { rewrite half_0. cbn [Z.add].
    destruct (Z.eq_dec d 0) as [->|Hd0]; [reflexivity|].
    destruct (half_form d ltac:(lia)) as (m & e & -> & _). reflexivity. }
  destruct (half_form k ltac:(lia)) as (m1 & e1 & H1 & Hb1 & Hv1).
  destruct (Z.eq_dec d 0) as [->|Hd0].
  { rewrite half_0, Z.add_0_r, H1. reflexivity. }
  destruct (half_form d ltac:(lia)) as (m2 & e2 & H2 & Hb2 & Hv2).
  destruct (bounded_facts m1 e1 Hb1) as (He1 & _).
  destruct (bounded_facts m2 e2 Hb2) as (He2 & _).
  rewrite H1, H2. unfold F32.add, SFadd.
  change F32.prec with 24. change F32.emax with 128.
  set (ez := Z.min e1 e2).
  assert (Hez : -149 <= ez <= e1 /\ ez <= e2) by (unfold ez; lia).
  assert (HA : 0 < 2 ^ (ez + 149)) by (apply Z.pow_pos_nonneg; lia).
  set (S := cond_Zopp (k <? 0) (Z.pos (fst (shl_align m1 e1 ez)))
            + cond_Zopp (d <? 0) (Z.pos (fst (shl_align m2 e2 ez)))).
  assert (HS : S * 2 ^ (ez + 149) = (k + d) * 2 ^ 148).
  { unfold S. rewrite Z.mul_add_distr_r.
    assert (T1 : cond_Zopp (k <? 0) (Z.pos (fst (shl_align m1 e1 ez))) * 2 ^ (ez + 149)
                 = k * 2 ^ 148).
    { rewrite shl_align_value by lia.
      destruct (Z.ltb_spec k 0); cbn [cond_Zopp].
      - rewrite Z.mul_opp_l, V_shift, Hv1 by lia. lia.
      - rewrite V_shift, Hv1 by lia. lia. }
    assert (T2 : cond_Zopp (d <? 0) (Z.pos (fst (shl_align m2 e2 ez))) * 2 ^ (ez + 149)
                 = d * 2 ^ 148).
    { rewrite shl_align_value by lia.
      destruct (Z.ltb_spec d 0); cbn [cond_Zopp].
      - rewrite Z.mul_opp_l, V_shift, Hv2 by lia. lia.
      - rewrite V_shift, Hv2 by lia. lia. }
    rewrite T1, T2. ring. }
  clearbody S.
  destruct (Z.eq_dec (k + d) 0) as [Hz|Hnz].
  { rewrite Hz in HS |- *. rewrite half_0.
    assert (S = 0) by nia. subst S. reflexivity. }
  destruct (half_form (k + d) ltac:(lia)) as (m3 & e3 & H3 & Hb3 & Hv3).
  rewrite H3.
  destruct S as [|P|P]; [nia| |]; cbn [binary_normalize].
  - assert (Hpos : 0 < k + d) by nia.
    replace (k + d <? 0) with false by (symmetry; apply Z.ltb_ge; lia).
    apply binary_round_exact; [lia | exact Hb3|].
    unfold V at 1. rewrite HS, Hv3. f_equal. lia.
  - assert (Hneg : k + d < 0) by nia.
    replace (k + d <? 0) with true by (symmetry; apply Z.ltb_lt; lia).
    apply binary_round_exact; [lia | exact Hb3|].
    unfold V at 1. rewrite Hv3.
    replace (Z.pos P) with (- Z.neg P) by reflexivity.
    rewrite Z.mul_opp_l, HS. lia.
Qed.

(** Different multiples of one half are different numbers. *)
Lemma half_inj (j k : Z) :
  Z.abs j < 2 ^ 24 -> Z.abs k < 2 ^ 24 -> half j = half k -> j = k.
Proof.
  intros Hj Hk H.
  destruct (Z.eq_dec j 0) as [->|Hj0]; destruct (Z.eq_dec k 0) as [->|Hk0];
    try reflexivity.
  - destruct (half_form k ltac:(lia)) as (m & e & Hf & _).
    rewrite half_0, Hf in H. discriminate H.
  - destruct (half_form j ltac:(lia)) as (m & e & Hf & _).
    rewrite half_0, Hf in H. discriminate H.
  - destruct (half_form j ltac:(lia)) as (m1 & e1 & H1 & _ & Hv1).
    destruct (half_form k ltac:(lia)) as (m2 & e2 & H2 & _ & Hv2).
    rewrite H1, H2 in H. injection H as Hs Hm He. subst m2 e2.
    rewrite Hv1 in Hv2.
    apply Z.mul_cancel_r in Hv2; [|discriminate].
    destruct (Z.ltb_spec j 0), (Z.ltb_spec k 0); try discriminate Hs; lia.
Qed.

(** X4: a drag down by [d] pixels and back restores the X rotation when the
    clamp was not reached on the way, and after a clamp only from the limit
    opposite to the one that was hit.  With the accumulated X rotation at
    [k/2] degrees and both positions inside the window, the two motion
    events leave [clampZ (clampZ (k - d) + d)] half degrees, in the
    accumulator and in the planet.  That is [k/2] again exactly when
    [k - d] is within [-80, 80], or [k] is -80 and [d] at most -160, or [k]
    is 80 and [d] at least 160; after a clamp it is [d] half degrees back
    from the limit that was hit, clamped again. *)
Theorem drag_there_and_back (a : App) (k d x1 x2 t1 t2 : Z) :
  dragging a = true ->
  0 <= lastMouseY a < SCREEN_HEIGHT ->
  0 <= lastMouseY a + d < SCREEN_HEIGHT ->
  -80 <= k <= 80 ->
  sphereRotationX a = half k ->
  let a' := handleInputs [ (SDL_MOUSEMOTION x1 (lastMouseY a + d), t1);
                           (SDL_MOUSEMOTION x2 (lastMouseY a), t2) ] a in
  sphereRotationX a' = half (clampZ (clampZ (k - d) + d)) /\
  Planet.userRotationX (planet a') = sphereRotationX a' /\
  (sphereRotationX a' = sphereRotationX a <->
   -80 <= k - d <= 80 \/ (k = -80 /\ d <= -160) \/ (k = 80 /\ 160 <= d)) /\
  (80 < k - d -> sphereRotationX a' = half (clampZ (80 + d))) /\
  (k - d < -80 -> sphereRotationX a' = half (clampZ (-80 + d))).
Proof.
  intros Hd Hy0 Hy1 Hk Hs a'. unfold SCREEN_HEIGHT in *.
  assert (Ha : sphereRotationX a' = half (clampZ (clampZ (k - d) + d)) /\
               Planet.userRotationX (planet a') = sphereRotationX a').
  { subst a'. unfold handleInputs. cbn [fold_left fst snd].
    unfold handleInput at 2. rewrite Hd. cbv zeta.
    unfold handleInput. cbn [dragging]. rewrite Hd. cbv zeta.
    cbn [sphereRotationX lastMouseY planet Planet.setRotation Planet.userRotationX].
    rewrite !clamp40_sequential.
    rewrite (sint32_small (lastMouseY a + d - lastMouseY a)) by lia.
    rewrite (sint32_small (lastMouseY a - (lastMouseY a + d))) by lia.
    replace (lastMouseY a + d - lastMouseY a) with d by lia.
    replace (lastMouseY a - (lastMouseY a + d)) with (- d) by lia.
    rewrite Hs, drag_step by lia.
    rewrite drag_step by (unfold clampZ; lia).
    split; [f_equal; f_equal; lia | reflexivity]. }
  destruct Ha as [Ha Hu]. split; [exact Ha|]. split; [exact Hu|].
  rewrite Ha, Hs. split; [|split].
  - assert (H24 : 80 < 2 ^ 24) by reflexivity.
    split.
    + intros Heq. apply half_inj in Heq; unfold clampZ in *; lia.
    + intros Hr. f_equal. unfold clampZ. lia.
  - intros Hr. f_equal. unfold clampZ. lia.
  - intros Hr. f_equal. unfold clampZ. lia.
Qed.

Lemma drag_there_and_back_witness :
  let a := handleInputs [ (SDL_MOUSEBUTTONDOWN SDL_BUTTON_LEFT 100 100, 500);
                          (SDL_MOUSEMOTION 100 90, 600) ] (main_app demo_planet) in
  (dragging a = true /\ 0 <= 90 < SCREEN_HEIGHT /\ 0 <= 90 + 300 < SCREEN_HEIGHT /\
   -80 <= 10 <= 80 /\ sphereRotationX a = half 10) /\
  sphereRotationX (handleInputs [ (SDL_MOUSEMOTION 100 390, 700);
                                  (SDL_MOUSEMOTION 100 90, 800) ] a)
  = half 80.
Proof.
  cbv zeta.
  set (a := handleInputs [ (SDL_MOUSEBUTTONDOWN SDL_BUTTON_LEFT 100 100, 500);
                           (SDL_MOUSEMOTION 100 90, 600) ] (main_app demo_planet)).
  assert (H2 : 0 <= 90 < SCREEN_HEIGHT) by (unfold SCREEN_HEIGHT; lia).
  assert (H3 : 0 <= 90 + 300 < SCREEN_HEIGHT) by (unfold SCREEN_HEIGHT; lia).
  assert (H4 : -80 <= 10 <= 80) by lia.
  split; [split; [reflexivity | split; [exact H2 | split; [exact H3 | split; [exact H4 | reflexivity]]]]|].
  destruct (drag_there_and_back a 10 300 100 100 700 800 eq_refl H2 H3 H4 eq_refl)
    as (_ & _ & _ & _ & Hlow).
  exact (Hlow ltac:(lia)).
Defined.

Lemma motion_adds_half_degrees (a : App) (j x y ticks : Z) :
  dragging a = true ->
  Z.abs j < 2 ^ 24 -> Z.abs (x - lastMouseX a) < 2 ^ 24 ->
  Z.abs (j + (x - lastMouseX a)) < 2 ^ 24 ->
  sphereRotationY a = half j ->
  let a' := handleInput (SDL_MOUSEMOTION x y) ticks a in
  sphereRotationY a' = half (j + (x - lastMouseX a)) /\
  Planet.userRotationY (planet a') = sphereRotationY a' /\
  dragging a' = true /\ lastMouseX a' = x.
Proof.
  intros Hd Hj Hdx Hsum Hs. cbv zeta. unfold handleInput. rewrite Hd. cbv zeta.
  cbn [sphereRotationY planet Planet.setRotation Planet.userRotationY dragging lastMouseX].
  rewrite (sint32_small (x - lastMouseX a)).
  2: { assert (2 ^ 24 < 2147483648) by reflexivity. lia. }
  rewrite Hs.
  change (F32.of_int (x - lastMouseX a) * f0_5)%f32 with (half (x - lastMouseX a)).
  rewrite half_add by assumption.
  repeat split.
Qed.

(** X22: the Y rotation a drag leaves depends only on where the drag ends.
    While the button is held, over any path of motion events inside the
    window's width, the accumulated Y rotation moves from [k/2] degrees to
    exactly [(k + x_end - x_start)/2] degrees, in binary32 without rounding
    error (for [|k|] up to 2^23) and without a clamp or a wrap; the planet
    is given the same value, and a path that comes back to the x it started
    from restores the rotation exactly.  The X rotation does not have this
    property: it is clamped on the way. *)
Theorem horizontal_drag_depends_on_its_end_only
    (a : App) (k : Z) (events : list (SDL_Event * Z)) :
  dragging a = true ->
  0 <= lastMouseX a < SCREEN_WIDTH ->
  Z.abs k <= 2 ^ 23 ->
  sphereRotationY a = half k ->
  Planet.userRotationY (planet a) = half k ->
  Forall (fun ev => motion_in_width (fst ev)) events ->
  let a' := handleInputs events a in
  sphereRotationY a' = half (k + (lastMouseX a' - lastMouseX a)) /\
  Planet.userRotationY (planet a') = sphereRotationY a' /\
  (lastMouseX a' = lastMouseX a -> sphereRotationY a' = sphereRotationY a).
Proof.
  intros Hd Hx0 Hk Hs Hu Hev. cbv zeta.
  assert (H23 : 2 ^ 23 + 1915 < 2 ^ 24) by reflexivity.
  assert (H : forall b,
             dragging b = true -> 0 <= lastMouseX b < SCREEN_WIDTH ->
             sphereRotationY b = half (k + (lastMouseX b - lastMouseX a)) ->
             Planet.userRotationY (planet b) = sphereRotationY b ->
             sphereRotationY (handleInputs events b)
             = half (k + (lastMouseX (handleInputs events b) - lastMouseX a)) /\
             Planet.userRotationY (planet (handleInputs events b))
             = sphereRotationY (handleInputs events b)).
  { induction Hev as [|ev events Hm Hev IH]; intros b Hdb Hxb Hsb Hub.
    - split; assumption.
    - rewrite handleInputs_cons.
      destruct ev as [event t]. cbn [fst snd] in *.
      destruct event as [|x y|? ? ?|? ? ?|?|?]; cbn [motion_in_width] in Hm; try contradiction.
      unfold SCREEN_WIDTH in *.
      destruct (motion_adds_half_degrees b (k + (lastMouseX b - lastMouseX a)) x y t)
        as (Hs' & Hu' & Hd' & Hx'); try assumption; try lia.
      apply IH.
      + exact Hd'.
      + rewrite Hx'. exact Hm.
      + rewrite Hs', Hx'. f_equal. lia.
      + exact Hu'. }
  destruct (H a Hd Hx0) as [H1 H2].
  - rewrite Hs. f_equal. lia.
  - rewrite Hu, Hs. reflexivity.
  - split; [exact H1|]. split; [exact H2|].
    intros Hback. rewrite H1, Hback, Hs. f_equal. lia.
Qed.

Lemma horizontal_drag_depends_on_its_end_only_witness :
  let a := handleInput (SDL_MOUSEBUTTONDOWN SDL_BUTTON_LEFT 100 100) 500 (main_app demo_planet) in
  let path1 := [ (SDL_MOUSEMOTION 1900 100, 600); (SDL_MOUSEMOTION 3 100, 700);
                 (SDL_MOUSEMOTION 150 100, 800) ] in
  (dragging a = true /\ 0 <= 100 < SCREEN_WIDTH /\ Z.abs 0 <= 2 ^ 23 /\
   sphereRotationY a = half 0 /\ Planet.userRotationY (planet a) = half 0 /\
   Forall (fun ev => motion_in_width (fst ev)) path1) /\
  sphereRotationY (handleInputs path1 a) = f25.
Proof.
  cbv zeta.
  set (a := handleInput (SDL_MOUSEBUTTONDOWN SDL_BUTTON_LEFT 100 100) 500 (main_app demo_planet)).
  assert (Hx : 0 <= 100 < SCREEN_WIDTH) by (unfold SCREEN_WIDTH; lia).
  assert (Hk : Z.abs 0 <= 2 ^ 23) by (cbn; lia).
  assert (Hp : Forall (fun ev => motion_in_width (fst ev))
                 [ (SDL_MOUSEMOTION 1900 100, 600); (SDL_MOUSEMOTION 3 100, 700);
                   (SDL_MOUSEMOTION 150 100, 800) ]).
  { repeat constructor; cbn; unfold SCREEN_WIDTH; lia. }
  split.
  { split; [reflexivity|]. split; [exact Hx|]. split; [exact Hk|].
    split; [reflexivity|]. split; [reflexivity | exact Hp]. }
  destruct (horizontal_drag_depends_on_its_end_only a 0 _ eq_refl Hx Hk eq_refl eq_refl Hp)
    as (H1 & _).
  rewrite H1. reflexivity.
Defined.

(** ** The spring back on the whole half-degree grid *)

(** A positive number of value at least one half is not below one half. *)
Lemma not_below_half (m : positive) (e : Z) :
  bounded 24 128 m e = true -> 2 ^ 148 <= V m e ->
  SFltb (S754_finite false m e) f0_5 = false.
Proof.
  intros Hb Hv.
  destruct (bounded_facts m e Hb) as (He & Hd & Hn).
  assert (He24 : -24 <= e).
  { destruct (Z.le_gt_cases (-24) e) as [|Hlt]; [assumption|].
    pose proof (V_lt_pow m e Hd ltac:(lia)) as Hlt'.
    assert (2 ^ (e + 173) <= 2 ^ 148) by (apply Z.pow_le_mono_r; lia).
    lia. }
  unfold SFltb, f0_5. cbn [SFcompare].
  destruct (Z.compare_spec e (-24)) as [->|Hlt|Hgt]; [|exfalso; lia|reflexivity].
  destruct (Pos.compare_cont Eq m 8388608) eqn:Ec; try reflexivity.
  apply (proj1 (compare_cont_lt _ _)) in Ec.
  pose proof (digits_bounds m) as [Hl _]. rewrite (Hn ltac:(lia)) in Hl.
  change (2 ^ (24 - 1)) with (Z.pos 8388608) in Hl. exfalso. lia.
Qed.

(** Taking one half off is adding minus one half. *)
Lemma sub_half (s : bool) (m : positive) (e : Z) :
  (S754_finite s m e - f0_5)%f32 = (S754_finite s m e + half (-1))%f32.
Proof. reflexivity. Qed.

Lemma half_1 : half 1 = f0_5.
Proof. reflexivity. Qed.

(** One idle tick on any multiple of one half below 2^23 degrees. *)
Lemma relax_half_any (k : Z) :
  Z.abs k < 2 ^ 24 -> relax (half k) = half (approach k 1).
Proof.
  intros Hk. unfold approach. change (Z.of_nat 1) with 1.
  destruct (Z.lt_trichotomy k 0) as [Hneg|[->|Hpos]].
  - (* negative *)
    replace (0 <=? k) with false by (symmetry; apply Z.leb_gt; lia).
    replace (Z.min 0 (k + 1)) with (k + 1) by lia.
    destruct (half_form k ltac:(lia)) as (m & e & Hf & Hb & Hv).
    replace (k <? 0) with true in Hf by (symmetry; apply Z.ltb_lt; lia).
    assert (Hadd : (half k + f0_5)%f32 = half (k + 1)).
    { rewrite <- half_1. apply half_add; cbn; lia. }
    rewrite Hf in Hadd |- *.
    unfold relax, Planet.spring_back.
    change (S754_finite true m e != f0)%f32 with true.
    change (S754_finite true m e > f0)%f32 with false.
    cbv iota zeta.
    change (S754_finite true m e < f0)%f32 with true.
    cbv iota. rewrite Hadd.
    destruct (Z.eq_dec k (-1)) as [->|Hk1]; [reflexivity|].
    destruct (half_form (k + 1) ltac:(lia)) as (m' & e' & Hf' & Hb' & Hv').
    rewrite Hf'. unfold F32.ltb, F32.fabs. cbn [SFabs].
    rewrite not_below_half; [reflexivity | exact Hb' |].
    rewrite Hv'. rewrite <- (Z.mul_1_l (2 ^ 148)) at 1.
    apply Z.mul_le_mono_nonneg_r; lia.
  - reflexivity.
  - replace (0 <=? k) with true by (symmetry; apply Z.leb_le; lia).
    replace (Z.max 0 (k - 1)) with (k - 1) by lia.
    destruct (half_form k ltac:(lia)) as (m & e & Hf & Hb & Hv).
    replace (k <? 0) with false in Hf by (symmetry; apply Z.ltb_ge; lia).
    assert (Hsub : (half k - f0_5)%f32 = half (k - 1)).
    { rewrite Hf, sub_half, <- Hf. apply half_add; cbn; lia. }
    rewrite Hf in Hsub |- *.
    unfold relax, Planet.spring_back.
    change (S754_finite false m e != f0)%f32 with true.
    change (S754_finite false m e > f0)%f32 with true.
    cbv iota zeta. rewrite Hsub.
    destruct (Z.eq_dec k 1) as [->|Hk1]; [reflexivity|].
    destruct (half_form (k - 1) ltac:(lia)) as (m' & e' & Hf' & Hb' & Hv').
    replace (k - 1 <? 0) with false in Hf' by (symmetry; apply Z.ltb_ge; lia).
    rewrite Hf'.
    change (S754_finite false m' e' < f0)%f32 with false. cbv iota.
    unfold F32.ltb, F32.fabs. cbn [SFabs].
    rewrite not_below_half; [reflexivity | exact Hb' |].
    rewrite Hv'. rewrite <- (Z.mul_1_l (2 ^ 148)) at 1.
    apply Z.mul_le_mono_nonneg_r; lia.
Qed.

Lemma approach_bound (k : Z) (n : nat) : Z.abs (approach k n) <= Z.abs k.
Proof. unfold approach. destruct (Z.leb_spec 0 k); lia. Qed.

(** X23: on the whole half-degree grid the spring back is exact.  From any
    user X rotation of [k/2] degrees with [|k|] below 2^24, also one far
    outside the [-40, 40] of the input handler that [setRotation] has
    stored, a run of idle update ticks leaves [k/2] moved one half degree
    per tick towards 0 and stopped at 0, so the value is exactly 0 after
    [|k|] ticks. *)
Theorem spring_back_from_any_half_degree
    (lm : Libm) (last : Z) (clock : list Z) (p : Planet.t) (k : Z) :
  Z.abs k < 2 ^ 24 ->
  Planet.userRotationX p = half k ->
  Forall (fun now => Planet.idle now last = true) clock ->
  let q := updates lm clock last p in
  Planet.userRotationX q = half (approach k (length clock)) /\
  (Z.abs k <= Z.of_nat (length clock) -> Planet.userRotationX q = f0).
Proof.
  intros Hk Hx Hidle. cbv zeta.
  assert (Hrun : Planet.userRotationX (updates lm clock last p)
                 = half (approach k (length clock))).
  { induction clock as [|now clock IH] using rev_ind.
    - change (updates lm [] last p) with p. rewrite Hx. unfold approach.
      destruct (Z.leb_spec 0 k); f_equal; cbn [length]; lia.
    - apply Forall_app in Hidle as [Hc Hnow]. inversion Hnow as [|? ? Hn _]; subst.
      rewrite updates_snoc, update_userRotationX by exact Hn.
      rewrite IH by exact Hc.
      rewrite length_app. cbn [length]. rewrite Nat.add_1_r, approach_succ.
      apply relax_half_any.
      pose proof (approach_bound k (length clock)). lia. }
  split; [exact Hrun|].
  intros Hn. rewrite Hrun, approach_done by exact Hn. reflexivity.
Qed.

Lemma spring_back_from_any_half_degree_witness :
  let p := Planet.setRotation (F32.of_int (-100)) f0 demo_planet in
  (Z.abs (-200) < 2 ^ 24 /\ Planet.userRotationX p = half (-200) /\
   Forall (fun now => Planet.idle now 600 = true) (repeat 2600 200)) /\
  Planet.userRotationX (updates series_libm (repeat 2600 200) 600 p) = f0.
Proof.
  cbv zeta.
  assert (Hk : Z.abs (-200) < 2 ^ 24) by reflexivity.
  assert (Hidle : Forall (fun now => Planet.idle now 600 = true) (repeat 2600 200)).
  { apply Forall_forall. intros now Hin. apply repeat_spec in Hin. subst now. reflexivity. }
  split; [split; [exact Hk | split; [reflexivity | exact Hidle]]|].
  refine (proj2 (spring_back_from_any_half_degree series_libm 600 (repeat 2600 200)
                   (Planet.setRotation (F32.of_int (-100)) f0 demo_planet) (-200)
                   Hk eq_refl Hidle) _).
  rewrite repeat_length. cbn. lia.
Defined.

(** ** The spring back from any number

    The idle branch on every binary32 number, on the half-degree grid
    or off it: exact sums, and roundings between bounds. *)

(** *** Binary32 numbers by their values *)

(** Two positive numbers compare as their values do. *)
Lemma SFcompare_value (m1 : positive) (e1 : Z) (m2 : positive) (e2 : Z) :
  bounded 24 128 m1 e1 = true -> bounded 24 128 m2 e2 = true ->
  SFcompare (S754_finite false m1 e1) (S754_finite false m2 e2)
  = Some (V m1 e1 ?= V m2 e2).
Proof.
  intros H1 H2.
  destruct (bounded_facts m1 e1 H1) as (He1 & Hd1 & Hn1).
  destruct (bounded_facts m2 e2 H2) as (He2 & Hd2 & Hn2).
  cbn [SFcompare]. f_equal.
  destruct (Z.compare_spec e1 e2) as [->|Hlt|Hgt].
  - unfold V.
    assert (HA : 0 < 2 ^ (e2 + 149)) by (apply Z.pow_pos_nonneg; lia).
    rewrite Pos.compare_cont_spec.
    change (m1 ?= m2)%positive with (Z.pos m1 ?= Z.pos m2).
    destruct (Z.compare_spec (Z.pos m1) (Z.pos m2)) as [Hm|Hm|Hm];
      cbn [Pos.switch_Eq]; symmetry.
    + rewrite Hm. apply Z.compare_refl.
    + apply Z.compare_lt_iff. apply Z.mul_lt_mono_pos_r; assumption.
    + apply Z.compare_gt_iff. apply Z.mul_lt_mono_pos_r; assumption.
  - symmetry. apply Z.compare_lt_iff.
    pose proof (V_lt_pow m1 e1 Hd1 ltac:(lia)) as Hu.
    pose proof (V_ge_pow m2 e2 (Hn2 ltac:(lia)) ltac:(lia)) as Hl.
    assert (2 ^ (e1 + 173) <= 2 ^ (e2 + 172)) by (apply Z.pow_le_mono_r; lia).
    lia.
  - symmetry. apply Z.compare_gt_iff.
    pose proof (V_lt_pow m2 e2 Hd2 ltac:(lia)) as Hu.
    pose proof (V_ge_pow m1 e1 (Hn1 ltac:(lia)) ltac:(lia)) as Hl.
    assert (2 ^ (e2 + 173) <= 2 ^ (e1 + 172)) by (apply Z.pow_le_mono_r; lia).
    lia.
Qed.

Lemma SFltb_value (m1 : positive) (e1 : Z) (m2 : positive) (e2 : Z) :
  bounded 24 128 m1 e1 = true -> bounded 24 128 m2 e2 = true ->
  SFltb (S754_finite false m1 e1) (S754_finite false m2 e2) = (V m1 e1 <? V m2 e2).
Proof.
  intros H1 H2. unfold SFltb, Z.ltb. rewrite (SFcompare_value m1 e1 m2 e2 H1 H2).
  reflexivity.
Qed.

Lemma SFleb_value (m1 : positive) (e1 : Z) (m2 : positive) (e2 : Z) :
  bounded 24 128 m1 e1 = true -> bounded 24 128 m2 e2 = true ->
  SFleb (S754_finite false m1 e1) (S754_finite false m2 e2) = (V m1 e1 <=? V m2 e2).
Proof.
  intros H1 H2. unfold SFleb, Z.leb. rewrite (SFcompare_value m1 e1 m2 e2 H1 H2).
  destruct (V m1 e1 ?= V m2 e2); reflexivity.
Qed.

(** A multiple of [2^k] below [2^(24+k)] is the value of a binary32
    number. *)
Lemma representable (v k : Z) :
  0 <= k <= 253 -> 0 < v < 2 ^ (24 + k) -> (2 ^ k | v) ->
  exists m e, bounded 24 128 m e = true /\ V m e = v.
Proof.
  intros Hk Hv [c Hc].
  assert (Hp : 0 < 2 ^ k) by (apply Z.pow_pos_nonneg; lia).
  rewrite Z.pow_add_r in Hv by lia.
  assert (Hc24 : 0 < c < 2 ^ 24) by nia.
  destruct c as [|c|c]; try lia.
  assert (Hd : Z.pos (digits2_pos c) <= 24).
  { pose proof (digits_bounds c) as [Hl _].
    destruct (Z.le_gt_cases (Z.pos (digits2_pos c)) 24) as [|Hgt]; [assumption|].
    assert (2 ^ 24 <= 2 ^ (Z.pos (digits2_pos c) - 1)) by (apply Z.pow_le_mono_r; lia).
    lia. }
  destruct (binary_round_small false c (k - 149)) as (m & e & _ & Hb & HV); try lia.
  exists m, e. split; [exact Hb|]. rewrite HV. unfold V.
  replace (k - 149 + 149) with k by lia. lia.
Qed.

(** *** Sums by their values *)

(** A sum of two numbers is the rounding of the sum of their values, taken
    at the smaller exponent. *)
Lemma add_aligned (s1 : bool) (m1 : positive) (e1 : Z) (s2 : bool) (m2 : positive) (e2 : Z) :
  -149 <= e1 -> -149 <= e2 ->
  exists S,
    SFadd 24 128 (S754_finite s1 m1 e1) (S754_finite s2 m2 e2)
    = binary_normalize 24 128 S (Z.min e1 e2) false /\
    S * 2 ^ (Z.min e1 e2 + 149) = cond_Zopp s1 (V m1 e1) + cond_Zopp s2 (V m2 e2).
Proof.
  intros He1 He2.
  set (ez := Z.min e1 e2).
  assert (Hez : -149 <= ez <= e1 /\ ez <= e2) by (unfold ez; lia).
  exists (cond_Zopp s1 (Z.pos (fst (shl_align m1 e1 ez)))
          + cond_Zopp s2 (Z.pos (fst (shl_align m2 e2 ez)))).
  split; [reflexivity|].
  rewrite Z.mul_add_distr_r. f_equal.
  - rewrite shl_align_value by lia. destruct s1; cbn [cond_Zopp].
    + rewrite Z.mul_opp_l, V_shift by lia. reflexivity.
    + rewrite V_shift by lia. reflexivity.
  - rewrite shl_align_value by lia. destruct s2; cbn [cond_Zopp].
    + rewrite Z.mul_opp_l, V_shift by lia. reflexivity.
    + rewrite V_shift by lia. reflexivity.
Qed.

(** Normalising a number binary32 has gives that number. *)
Lemma binary_normalize_exact (S ez : Z) (s : bool) (m : positive) (e : Z) :
  -149 <= ez -> bounded 24 128 m e = true ->
  S * 2 ^ (ez + 149) = cond_Zopp s (V m e) ->
  binary_normalize 24 128 S ez false = S754_finite s m e.
Proof.
  intros Hez Hb HS.
  destruct (bounded_facts m e Hb) as (He & _).
  pose proof (V_pos m e ltac:(lia)) as Hv.
  assert (HA : 0 < 2 ^ (ez + 149)) by (apply Z.pow_pos_nonneg; lia).
  destruct S as [|P|P], s; cbn [cond_Zopp] in HS; cbn [binary_normalize]; try nia.
  - apply binary_round_exact; [lia | exact Hb|]. unfold V at 1. exact HS.
  - apply binary_round_exact; [lia | exact Hb|]. unfold V at 1.
    change (Z.neg P) with (- Z.pos P) in HS. rewrite Z.mul_opp_l in HS. lia.
Qed.

(** A sum that binary32 has is exact. *)
Lemma add_exact (s1 : bool) (m1 : positive) (e1 : Z) (s2 : bool) (m2 : positive) (e2 : Z)
    (s : bool) (m : positive) (e : Z) :
  bounded 24 128 m1 e1 = true -> bounded 24 128 m2 e2 = true ->
  bounded 24 128 m e = true ->
  cond_Zopp s1 (V m1 e1) + cond_Zopp s2 (V m2 e2) = cond_Zopp s (V m e) ->
  SFadd 24 128 (S754_finite s1 m1 e1) (S754_finite s2 m2 e2) = S754_finite s m e.
Proof.
  intros H1 H2 Hb Hsum.
  destruct (bounded_facts m1 e1 H1) as (He1 & _).
  destruct (bounded_facts m2 e2 H2) as (He2 & _).
  destruct (add_aligned s1 m1 e1 s2 m2 e2) as (S & -> & HS); try lia.
  apply binary_normalize_exact; [lia | exact Hb|]. rewrite HS. exact Hsum.
Qed.

(** Two numbers of one magnitude and opposite signs add up to [+0]. *)
Lemma add_cancel (s1 : bool) (m1 : positive) (e1 : Z) (s2 : bool) (m2 : positive) (e2 : Z) :
  bounded 24 128 m1 e1 = true -> bounded 24 128 m2 e2 = true ->
  cond_Zopp s1 (V m1 e1) + cond_Zopp s2 (V m2 e2) = 0 ->
  SFadd 24 128 (S754_finite s1 m1 e1) (S754_finite s2 m2 e2) = S754_zero false.
Proof.
  intros H1 H2 Hsum.
  destruct (bounded_facts m1 e1 H1) as (He1 & _).
  destruct (bounded_facts m2 e2 H2) as (He2 & _).
  destruct (add_aligned s1 m1 e1 s2 m2 e2) as (S & -> & HS); try lia.
  assert (HA : 0 < 2 ^ (Z.min e1 e2 + 149)) by (apply Z.pow_pos_nonneg; lia).
  assert (S = 0) by nia. subst S. reflexivity.
Qed.

(** *** Roundings between bounds *)

(** Rounding does not go below a power of two that the exact value has
    reached, and goes above the exact value by one part in 2^23 at most. *)
Lemma binary_round_between (s : bool) (M : positive) (e k : Z) :
  -149 <= e -> Z.pos (digits2_pos M) + e <= 127 -> 0 <= k -> 2 ^ k <= V M e ->
  exists m' e',
    binary_round 24 128 s M e = S754_finite s m' e' /\
    bounded 24 128 m' e' = true /\
    2 ^ k <= V m' e' /\
    2 ^ 23 * V m' e' <= (2 ^ 23 + 1) * V M e.
Proof.
  intros He Hmax Hk Hlow.
  pose proof (V_pos M e He) as HV.
  destruct (Z.le_gt_cases (Z.pos (digits2_pos M)) 24) as [Hd|Hd].
  - destruct (binary_round_small s M e He Hd ltac:(lia)) as (m' & e' & Hr & Hb & Hv).
    exists m', e'. rewrite Hv. repeat split; try assumption. lia.
  - destruct (Z.pos (digits2_pos M) - 24) as [|n|n] eqn:En; try lia.
    assert (Hdn : Z.pos (digits2_pos M) = 24 + Z.pos n) by lia.
    destruct (binary_round_bounds s M e He Hmax) as (m' & e' & Hr & Hb & Hv).
    exists m', e'. split; [exact Hr|]. split; [exact Hb|]. split; [|exact Hv].
    destruct (binary_round_aux_shift s M e n Hdn He ltac:(lia))
      as (m2 & e2 & Hr2 & Hd2 & He2 & _).
    assert (Heq : S754_finite s m' e' = S754_finite s m2 e2).
    { rewrite <- Hr, <- Hr2. unfold binary_round, shl_align. rewrite fexp32.
      replace (Z.max (Z.pos (digits2_pos M) + e - 24) (-149) - e) with (Z.pos n) by lia.
      reflexivity. }
    injection Heq as -> ->.
    pose proof (V_ge_pow m2 e2 Hd2 ltac:(lia)) as Hge.
    assert (Hlt : V M e < 2 ^ (Z.pos (digits2_pos M) + (e + 149))).
    { unfold V. rewrite (Z.pow_add_r 2 (Z.pos (digits2_pos M)) (e + 149)) by lia.
      apply Z.mul_lt_mono_pos_r; [apply Z.pow_pos_nonneg; lia|].
      apply digits_bounds. }
    assert (Hkd : k < Z.pos (digits2_pos M) + (e + 149)).
    { apply (Z.pow_lt_mono_r_iff 2); lia. }
    assert (2 ^ k <= 2 ^ (e2 + 172)) by (apply Z.pow_le_mono_r; lia).
    lia.
Qed.

(** A mantissa in the lower part of the gap below [2^(24+n)] keeps its 24
    digits: the rounding does not reach the power of two. *)
Lemma binary_round_below_power (s : bool) (M : positive) (e : Z) (n : positive) :
  -149 <= e -> e + Z.pos n <= 103 ->
  2 ^ 23 * 2 ^ Z.pos n <= Z.pos M < 2 ^ 24 * 2 ^ Z.pos n - 2 ^ (Z.pos n - 1) ->
  exists m',
    binary_round 24 128 s M e = S754_finite s m' (e + Z.pos n) /\
    bounded 24 128 m' (e + Z.pos n) = true.
Proof.
  intros He Hmax HM.
  assert (Hp : 0 < 2 ^ Z.pos n) by (apply Z.pow_pos_nonneg; lia).
  assert (Hh : 0 < 2 ^ (Z.pos n - 1)) by (apply Z.pow_pos_nonneg; lia).
  assert (Hn : 2 ^ Z.pos n = 2 * 2 ^ (Z.pos n - 1)).
  { rewrite <- Z.pow_succ_r by lia. f_equal. lia. }
  assert (Hd : Z.pos (digits2_pos M) = 24 + Z.pos n).
  { apply digits_unique.
    replace (24 + Z.pos n - 1) with (23 + Z.pos n) by lia.
    rewrite !Z.pow_add_r by lia. lia. }
  set (q := Z.pos M / 2 ^ Z.pos n).
  assert (Hq : 2 ^ 23 <= q <= 2 ^ 24 - 1).
  { unfold q. split.
    - apply Z.div_le_lower_bound; lia.
    - enough (Z.pos M / 2 ^ Z.pos n < 2 ^ 24) by lia.
      apply Z.div_lt_upper_bound; lia. }
  assert (Hbit : q = 2 ^ 24 - 1 -> Z.testbit (Z.pos M) (Z.pos n - 1) = false).
  { intros Hq1. apply Z.testbit_false; [lia|].
    pose proof (Z.div_mod (Z.pos M) (2 ^ Z.pos n) ltac:(lia)) as Hdm.
    pose proof (Z.mod_pos_bound (Z.pos M) (2 ^ Z.pos n) Hp) as Hr.
    fold q in Hdm. set (r := Z.pos M mod 2 ^ Z.pos n) in *.
    replace (Z.pos M / 2 ^ (Z.pos n - 1)) with (2 * q)
      by (apply Z.div_unique with r; lia).
    rewrite Z.mul_comm. apply Z.mod_mul. lia. }
  unfold binary_round, shl_align. rewrite fexp32.
  replace (Z.max (Z.pos (digits2_pos M) + e - 24) (-149) - e) with (Z.pos n) by lia.
  unfold binary_round_aux, shr_fexp. cbn [Zdigits2].
  replace (fexp 24 128 (Z.pos (digits2_pos M) + e) - e) with (Z.pos n)
    by (rewrite fexp32; lia).
  cbn [shr shr_record_of_loc].
  set (r1 := iter_pos shr_1 n {| shr_m := Z.pos M; shr_r := false; shr_s := false |}).
  assert (Hr1 : shr_m r1 = q).
  { unfold r1. rewrite iter_shr_1_m; cbn [shr_m]; [reflexivity | lia]. }
  assert (Hr2 : shr_r r1 = Z.testbit (Z.pos M) (Z.pos n - 1)).
  { unfold r1. rewrite iter_shr_1_r; cbn [shr_m]; [reflexivity | lia]. }
  assert (Hround : 2 ^ 23 <= round_nearest_even (shr_m r1) (loc_of_shr_record r1)
                   <= 2 ^ 24 - 1).
  { pose proof (round_nearest_even_bounds (shr_m r1) (loc_of_shr_record r1)) as Hb.
    rewrite Hr1 in Hb |- *.
    destruct (Z.eq_dec q (2 ^ 24 - 1)) as [Hq1|Hq1]; [|lia].
    rewrite (Hbit Hq1) in Hr2.
    destruct r1 as [m1 rb sb]. cbn [shr_r] in Hr2. subst rb.
    destruct sb; cbn [loc_of_shr_record round_nearest_even]; lia. }
  destruct (round_nearest_even (shr_m r1) (loc_of_shr_record r1)) as [|p|p]; try lia.
  assert (Hdp : Z.pos (digits2_pos p) = 24).
  { apply digits_unique. change (2 ^ (24 - 1)) with (2 ^ 23). lia. }
  cbn [Zdigits2].
  replace (fexp 24 128 (Z.pos (digits2_pos p) + (e + Z.pos n)) - (e + Z.pos n))
    with 0 by (rewrite fexp32, Hdp; lia).
  cbn [shr shr_record_of_loc shr_m].
  replace (e + Z.pos n <=? 128 - 24) with true by (symmetry; apply Z.leb_le; lia).
  exists p. split; [reflexivity|].
  unfold bounded, canonical_mantissa. rewrite fexp32, Hdp.
  apply andb_true_intro. split; [apply Z.eqb_eq | apply Z.leb_le]; lia.
Qed.

(** *** One idle tick on any number *)

Lemma V_half : V 8388608 (-24) = 2 ^ 148.
Proof. reflexivity. Qed.

(** The idle branch on a positive and on a negative number. *)
Lemma spring_back_pos (m : positive) (e : Z) :
  Planet.spring_back (S754_finite false m e)
  = let x1 := (S754_finite false m e - f0_5)%f32 in
    let x2 := if (x1 < f0)%f32 then (x1 + f0_5)%f32 else x1 in
    if (F32.fabs x2 < f0_5)%f32 then f0 else x2.
Proof. reflexivity. Qed.

Lemma spring_back_neg (m : positive) (e : Z) :
  Planet.spring_back (S754_finite true m e)
  = let x2 := (S754_finite true m e + f0_5)%f32 in
    if (F32.fabs x2 < f0_5)%f32 then f0 else x2.
Proof. reflexivity. Qed.

Lemma relax_finite (s : bool) (m : positive) (e : Z) :
  relax (S754_finite s m e) = Planet.spring_back (S754_finite s m e).
Proof. destruct s; reflexivity. Qed.

(** A number of magnitude below one half passes the snap test. *)
Lemma below_half (s : bool) (m : positive) (e : Z) :
  bounded 24 128 m e = true -> V m e < 2 ^ 148 ->
  (F32.fabs (S754_finite s m e) < f0_5)%f32 = true.
Proof.
  intros Hb Hv. unfold F32.ltb, F32.fabs, f0_5. cbn [SFabs].
  rewrite SFltb_value; [|exact Hb|reflexivity].
  rewrite V_half. apply Z.ltb_lt. exact Hv.
Qed.

(** One half off the magnitude of a number of magnitude from 0.5 to 2^23 is
    exact. *)
Lemma half_off (s : bool) (m : positive) (e : Z) :
  bounded 24 128 m e = true -> 2 ^ 148 <= V m e <= 2 ^ 172 ->
  let y := SFadd 24 128 (S754_finite s m e) (S754_finite (negb s) 8388608 (-24)) in
  (V m e = 2 ^ 148 /\ y = S754_zero false) \/
  (exists m' e', y = S754_finite s m' e' /\ bounded 24 128 m' e' = true /\
                 V m' e' = V m e - 2 ^ 148).
Proof.
  intros Hb Hv y. subst y.
  destruct (bounded_facts m e Hb) as (He & Hd & Hn).
  destruct (Z.eq_dec (V m e) (2 ^ 148)) as [Heq|Hne].
  - left. split; [exact Heq|]. apply add_cancel; [exact Hb | reflexivity|].
    rewrite V_half. destruct s; cbn [cond_Zopp negb]; lia.
  - right.
    assert (He24 : -24 <= e).
    { destruct (Z.le_gt_cases (-24) e) as [|Hlt]; [assumption|].
      pose proof (V_lt_pow m e Hd ltac:(lia)) as Hlt'.
      assert (2 ^ (e + 173) <= 2 ^ 148) by (apply Z.pow_le_mono_r; lia).
      lia. }
    assert (Hrep : exists m' e', bounded 24 128 m' e' = true /\ V m' e' = V m e - 2 ^ 148).
    { apply (representable _ (Z.min (e + 149) 148)).
      - lia.
      - split; [lia|].
        destruct (Z.le_gt_cases (e + 149) 148) as [Hle|Hgt].
        + replace (Z.min (e + 149) 148) with (e + 149) by lia.
          pose proof (V_lt_pow m e Hd ltac:(lia)) as Hlt'.
          replace (24 + (e + 149)) with (e + 173) by lia.
          assert (0 < 2 ^ 148) by reflexivity. lia.
        + replace (Z.min (e + 149) 148) with 148 by lia.
          change (2 ^ (24 + 148)) with (2 ^ 172).
          assert (0 < 2 ^ 148) by reflexivity. lia.
      - apply Z.divide_sub_r.
        + unfold V. exists (Z.pos m * 2 ^ (e + 149 - Z.min (e + 149) 148)).
          rewrite <- Z.mul_assoc, <- Z.pow_add_r by lia. f_equal. f_equal. lia.
        + exists (2 ^ (148 - Z.min (e + 149) 148)).
          rewrite <- Z.pow_add_r by lia. f_equal. lia. }
    destruct Hrep as (m' & e' & Hb' & Hv'). exists m', e'.
    split; [|split; assumption].
    apply add_exact; [exact Hb | reflexivity | exact Hb' |].
    rewrite Hv', V_half. destruct s; cbn [cond_Zopp negb]; lia.
Qed.

(** From a magnitude of at least 1 and at most 2^23 an idle tick takes one
    half off, exactly, and keeps the sign. *)
Lemma relax_far (s : bool) (m : positive) (e : Z) :
  bounded 24 128 m e = true -> 2 ^ 149 <= V m e <= 2 ^ 172 ->
  exists m' e',
    relax (S754_finite s m e) = S754_finite s m' e' /\
    bounded 24 128 m' e' = true /\
    V m' e' = V m e - 2 ^ 148.
Proof.
  intros Hb Hv. rewrite relax_finite.
  assert (H149 : 2 ^ 149 = 2 * 2 ^ 148) by reflexivity.
  assert (H148 : 0 < 2 ^ 148) by reflexivity.
  destruct (half_off s m e Hb ltac:(lia)) as [[Heq _]|(m' & e' & Hy & Hb' & Hv')]; [lia|].
  exists m', e'. split; [|split; assumption].
  destruct s.
  - rewrite spring_back_neg. cbv zeta.
    change (S754_finite true m e + f0_5)%f32
      with (SFadd 24 128 (S754_finite true m e) (S754_finite (negb true) 8388608 (-24))).
    rewrite Hy. unfold F32.fabs, F32.ltb. cbn [SFabs].
    rewrite not_below_half; [reflexivity | exact Hb' | lia].
  - rewrite spring_back_pos. cbv zeta. rewrite sub_half.
    change (S754_finite false m e + half (-1))%f32
      with (SFadd 24 128 (S754_finite false m e) (S754_finite (negb false) 8388608 (-24))).
    rewrite Hy. change (S754_finite false m' e' < f0)%f32 with false. cbv iota.
    unfold F32.fabs, F32.ltb. cbn [SFabs].
    rewrite not_below_half; [reflexivity | exact Hb' | lia].
Qed.

(** A binary32 number that is less than the number after one half is at
    most one half. *)
Lemma at_most_half (m : positive) (e : Z) :
  bounded 24 128 m e = true -> 2 ^ 23 * V m e < (2 ^ 23 + 1) * 2 ^ 148 ->
  V m e <= 2 ^ 148.
Proof.
  intros Hb Hv.
  destruct (bounded_facts m e Hb) as (He & Hd & Hn).
  destruct (Z.lt_trichotomy e (-24)) as [Hlt|[->|Hgt]].
  - pose proof (V_lt_pow m e Hd ltac:(lia)) as Hu.
    assert (2 ^ (e + 173) <= 2 ^ 148) by (apply Z.pow_le_mono_r; lia).
    lia.
  - unfold V in *. change (2 ^ (-24 + 149)) with (2 ^ 125) in *.
    change (2 ^ 148) with (2 ^ 23 * 2 ^ 125) in *.
    assert (Hc : 0 < 2 ^ 125) by reflexivity.
    set (c := 2 ^ 125) in *. clearbody c.
    change (2 ^ 23) with 8388608 in *.
    destruct (Z.le_gt_cases (Z.pos m) 8388608) as [Hm|Hm].
    + apply Z.mul_le_mono_nonneg_r; lia.
    + exfalso.
      assert (8388609 * c <= Z.pos m * c) by (apply Z.mul_le_mono_nonneg_r; lia).
      lia.
  - pose proof (V_ge_pow m e (Hn ltac:(lia)) ltac:(lia)) as Hl.
    assert (2 ^ 149 <= 2 ^ (e + 172)) by (apply Z.pow_le_mono_r; lia).
    change (2 ^ 149) with (2 * 2 ^ 148) in *.
    assert (Hc : 0 < 2 ^ 148) by reflexivity.
    set (c := 2 ^ 148) in *. clearbody c.
    change (2 ^ 23) with 8388608 in *. nia.
Qed.

(** One half added to a negative number of magnitude from one quarter to
    one half leaves a number that passes the snap test. *)
Lemma toward_half_snaps (m : positive) (e : Z) :
  bounded 24 128 m e = true -> 2 ^ 147 <= V m e <= 2 ^ 148 ->
  (F32.fabs (S754_finite true m e + f0_5) < f0_5)%f32 = true.
Proof.
  intros Hb Hv.
  destruct (bounded_facts m e Hb) as (He & Hd & Hn).
  unfold F32.add. change f0_5 with (S754_finite false 8388608 (-24)) at 1.
  change F32.prec with 24. change F32.emax with 128.
  destruct (Z.eq_dec (V m e) (2 ^ 148)) as [Heq|Hne].
  - rewrite add_cancel; [reflexivity | exact Hb | reflexivity|].
    rewrite V_half. cbn [cond_Zopp]. lia.
  - destruct (add_aligned true m e false 8388608 (-24)) as (S & -> & HS); try lia.
    cbn [cond_Zopp] in HS. rewrite V_half in HS.
    set (ez := Z.min e (-24)) in *.
    assert (Hez : -149 <= ez) by (unfold ez; lia).
    assert (HA : 0 < 2 ^ (ez + 149)) by (apply Z.pow_pos_nonneg; lia).
    destruct S as [|P|P]; try nia.
    cbn [binary_normalize].
    assert (HVP : V P ez = 2 ^ 148 - V m e) by (unfold V at 1; lia).
    assert (H148 : 2 ^ 148 = 2 * 2 ^ 147) by reflexivity.
    assert (H147 : 0 < 2 ^ 147) by reflexivity.
    destruct (binary_round_bounds false P ez Hez) as (m2 & e2 & -> & Hb2 & Hv2).
    { assert (Hlt : V P ez < 2 ^ 148) by lia.
      pose proof (V_digits P ez 148 Hez ltac:(lia) Hlt). lia. }
    apply below_half; [exact Hb2|].
    rewrite HVP in Hv2. rewrite H148 in *.
    set (c := 2 ^ 147) in *. clearbody c.
    change (2 ^ 23) with 8388608 in *. lia.
Qed.

(** From a magnitude below 1, but not from a negative number of magnitude
    at most 2^-26, an idle tick gives 0. *)
Lemma relax_near (s : bool) (m : positive) (e : Z) :
  bounded 24 128 m e = true -> V m e < 2 ^ 149 ->
  (s = true -> 2 ^ 123 < V m e) ->
  relax (S754_finite s m e) = f0.
Proof.
  intros Hb Hv Hs. rewrite relax_finite.
  destruct (bounded_facts m e Hb) as (He & Hd & Hn).
  pose proof (V_pos m e ltac:(lia)) as Hpos.
  assert (H149 : 2 ^ 149 = 2 * 2 ^ 148) by reflexivity.
  assert (H148 : 2 ^ 148 = 2 * 2 ^ 147) by reflexivity.
  assert (H147 : 0 < 2 ^ 147) by reflexivity.
  destruct (Z.le_gt_cases (2 ^ 148) (V m e)) as [Hge|Hlt].
  { (* from one half up: the step is exact and leaves less than one half *)
    assert (H172 : 2 ^ 149 < 2 ^ 172) by reflexivity.
    destruct (half_off s m e Hb ltac:(lia)) as [[_ Hy]|(m' & e' & Hy & Hb' & Hv')].
    - destruct s.
      + rewrite spring_back_neg. cbv zeta.
        change (S754_finite true m e + f0_5)%f32
          with (SFadd 24 128 (S754_finite true m e) (S754_finite (negb true) 8388608 (-24))).
        rewrite Hy. reflexivity.
      + rewrite spring_back_pos. cbv zeta. rewrite sub_half.
        change (S754_finite false m e + half (-1))%f32
          with (SFadd 24 128 (S754_finite false m e) (S754_finite (negb false) 8388608 (-24))).
        rewrite Hy. reflexivity.
    - destruct s.
      + rewrite spring_back_neg. cbv zeta.
        change (S754_finite true m e + f0_5)%f32
          with (SFadd 24 128 (S754_finite true m e) (S754_finite (negb true) 8388608 (-24))).
        rewrite Hy. rewrite below_half; [reflexivity | exact Hb' | lia].
      + rewrite spring_back_pos. cbv zeta. rewrite sub_half.
        change (S754_finite false m e + half (-1))%f32
          with (SFadd 24 128 (S754_finite false m e) (S754_finite (negb false) 8388608 (-24))).
        rewrite Hy. change (S754_finite false m' e' < f0)%f32 with false. cbv iota.
        rewrite below_half; [reflexivity | exact Hb' | lia]. }
  destruct s.
  { (* negative, above -0.5 *)
    specialize (Hs eq_refl).
    rewrite spring_back_neg. cbv zeta.
    destruct (Z.le_gt_cases (2 ^ 147) (V m e)) as [Hq|Hq].
    { rewrite toward_half_snaps; [reflexivity | exact Hb | lia]. }
    (* magnitude between 2^-26 and one quarter: the sum stays below 0.5 *)
    assert (He26 : e < -25).
    { apply (bounded_exponent m e (-25) Hb); [lia|exact Hq]. }
    assert (Hy : exists m', (S754_finite true m e + f0_5)%f32 = S754_finite false m' (-25) /\
                            bounded 24 128 m' (-25) = true).
    { unfold F32.add. change f0_5 with (S754_finite false 8388608 (-24)).
      change F32.prec with 24. change F32.emax with 128.
      destruct (add_aligned true m e false 8388608 (-24)) as (S & -> & HS); try lia.
      cbn [cond_Zopp] in HS. rewrite V_half in HS.
      replace (Z.min e (-24)) with e in * by lia.
      assert (HA : 0 < 2 ^ (e + 149)) by (apply Z.pow_pos_nonneg; lia).
      destruct S as [|P|P]; try nia.
      cbn [binary_normalize].
      destruct (-25 - e) as [|n|n] eqn:En; try lia.
      assert (Hp147 : 2 ^ 147 = 2 ^ 23 * 2 ^ Z.pos n * 2 ^ (e + 149)).
      { rewrite <- !Z.pow_add_r by lia. f_equal. lia. }
      assert (Hp123 : 2 ^ 123 = 2 ^ (Z.pos n - 1) * 2 ^ (e + 149)).
      { rewrite <- !Z.pow_add_r by lia. f_equal. lia. }
      assert (Hp24 : 2 ^ 24 = 2 * 2 ^ 23) by reflexivity.
      assert (Hpn : 0 < 2 ^ Z.pos n) by (apply Z.pow_pos_nonneg; lia).
      assert (Hph : 0 < 2 ^ (Z.pos n - 1)) by (apply Z.pow_pos_nonneg; lia).
      destruct (binary_round_below_power false P e n) as (m' & -> & Hb'); try lia.
      { rewrite Hp24. rewrite H148, Hp147 in HS. rewrite Hp123 in Hs.
        unfold V in Hq, Hs, HS. rewrite Hp147 in Hq.
        set (A := 2 ^ (e + 149)) in *. set (B := 2 ^ Z.pos n) in *.
        set (C := 2 ^ (Z.pos n - 1)) in *. set (D := 2 ^ 23) in *.
        assert (0 < D) by reflexivity. clearbody A B C D.
        split; nia. }
      replace (e + Z.pos n) with (-25) in * by lia.
      exists m'. split; [reflexivity | exact Hb']. }
    destruct Hy as (m' & -> & Hb').
    rewrite below_half; [reflexivity | exact Hb'|].
    destruct (bounded_facts m' (-25) Hb') as (_ & Hd' & _).
    exact (V_lt_pow m' (-25) Hd' ltac:(lia)). }
  (* positive, below 0.5 *)
  rewrite spring_back_pos. cbv zeta.
  destruct (Z.le_gt_cases (2 ^ 147) (V m e)) as [Hq|Hq].
  - (* from one quarter up both sums are exact, and the snap test is on the
       number itself *)
    assert (He25 : e = -25).
    { assert (e < -24) by (apply (bounded_exponent m e (-24) Hb); [lia|exact Hlt]).
      destruct (Z.le_gt_cases (-25) e) as [|Hl]; [lia|].
      pose proof (V_lt_pow m e Hd ltac:(lia)) as Hu.
      assert (2 ^ (e + 173) <= 2 ^ 147) by (apply Z.pow_le_mono_r; lia).
      lia. }
    subst e.
    destruct (representable (2 ^ 148 - V m (-25)) 124) as (m1 & e1 & Hb1 & Hv1).
    + lia.
    + split; [lia|]. change (2 ^ (24 + 124)) with (2 ^ 148). lia.
    + apply Z.divide_sub_r.
      * exists (2 ^ 24). reflexivity.
      * unfold V. exists (Z.pos m). reflexivity.
    + assert (Hx1 : (S754_finite false m (-25) - f0_5)%f32 = S754_finite true m1 e1).
      { rewrite sub_half. change (half (-1)) with (S754_finite true 8388608 (-24)).
        apply add_exact; [exact Hb | reflexivity | exact Hb1|].
        rewrite Hv1, V_half. cbn [cond_Zopp]. lia. }
      assert (Hx2 : (S754_finite true m1 e1 + f0_5)%f32 = S754_finite false m (-25)).
      { change f0_5 with (S754_finite false 8388608 (-24)).
        apply add_exact; [exact Hb1 | reflexivity | exact Hb|].
        rewrite Hv1, V_half. cbn [cond_Zopp]. lia. }
      rewrite Hx1. change (S754_finite true m1 e1 < f0)%f32 with true. cbv iota.
      rewrite Hx2. rewrite below_half; [reflexivity | exact Hb | exact Hlt].
  - (* below one quarter the difference is between -0.5 and -0.25 *)
    assert (Hx1 : exists m1 e1,
              (S754_finite false m e - f0_5)%f32 = S754_finite true m1 e1 /\
              bounded 24 128 m1 e1 = true /\
              2 ^ 147 <= V m1 e1 <= 2 ^ 148).
    { rewrite sub_half. change (half (-1)) with (S754_finite true 8388608 (-24)).
      unfold F32.add. change F32.prec with 24. change F32.emax with 128.
      destruct (add_aligned false m e true 8388608 (-24)) as (S & -> & HS); try lia.
      cbn [cond_Zopp] in HS. rewrite V_half in HS.
      set (ez := Z.min e (-24)) in *.
      assert (Hez : -149 <= ez) by (unfold ez; lia).
      assert (HA : 0 < 2 ^ (ez + 149)) by (apply Z.pow_pos_nonneg; lia).
      destruct S as [|P|P]; try nia.
      cbn [binary_normalize].
      assert (HVP : V P ez = 2 ^ 148 - V m e).
      { unfold V at 1. change (Z.neg P) with (- Z.pos P) in HS.
        rewrite Z.mul_opp_l in HS. lia. }
      destruct (binary_round_between true P ez 147 Hez) as (m1 & e1 & -> & Hb1 & Hl1 & Hu1).
      { assert (Hlt' : V P ez < 2 ^ 148) by lia.
        pose proof (V_digits P ez 148 Hez ltac:(lia) Hlt'). lia. }
      { lia. }
      { lia. }
      exists m1, e1. split; [reflexivity|]. split; [exact Hb1|].
      split; [exact Hl1|]. apply at_most_half; [exact Hb1|].
      rewrite HVP in Hu1. rewrite H148 in *.
      set (c := 2 ^ 147) in *. clearbody c.
      change (2 ^ 23) with 8388608 in *. lia. }
    destruct Hx1 as (m1 & e1 & -> & Hb1 & Hv1).
    change (S754_finite true m1 e1 < f0)%f32 with true. cbv iota.
    rewrite toward_half_snaps; [reflexivity | exact Hb1 | exact Hv1].
Qed.

(** *** A run of idle ticks *)

Lemma settles_cases (x : F32.t) :
  settles x <->
  (exists s, x = S754_zero s) \/
  (exists s m e, x = S754_finite s m e /\ bounded 24 128 m e = true /\
                 V m e <= 2 ^ 172 /\ (s = true -> 2 ^ 123 < V m e)).
Proof.
  unfold settles. split.
  - intros (Hv & Hle & Hneg). destruct x as [s|s| |s m e].
    + left. exists s. reflexivity.
    + discriminate Hle.
    + discriminate Hle.
    + right. exists s, m, e. cbn [valid_binary] in Hv.
      change F32.prec with 24 in Hv. change F32.emax with 128 in Hv.
      split; [reflexivity|]. split; [exact Hv|]. split.
      * unfold F32.leb, F32.fabs, f2_23 in Hle. cbn [SFabs] in Hle.
        rewrite SFleb_value in Hle; [|exact Hv|reflexivity].
        apply Z.leb_le in Hle. exact Hle.
      * intros ->. specialize (Hneg eq_refl).
        unfold F32.ltb, F32.fabs, f2_m26 in Hneg. cbn [SFabs] in Hneg.
        rewrite SFltb_value in Hneg; [|reflexivity|exact Hv].
        apply Z.ltb_lt in Hneg. exact Hneg.
  - intros [[s ->]|(s & m & e & -> & Hb & Hv & Hs)].
    + split; [reflexivity|]. split; [reflexivity|]. destruct s; discriminate.
    + split; [exact Hb|]. split.
      * unfold F32.leb, F32.fabs, f2_23. cbn [SFabs].
        rewrite SFleb_value; [|exact Hb|reflexivity].
        apply Z.leb_le. exact Hv.
      * intros Hlt. destruct s; [|discriminate Hlt].
        unfold F32.ltb, F32.fabs, f2_m26. cbn [SFabs].
        rewrite SFltb_value; [|reflexivity|exact Hb].
        apply Z.ltb_lt. exact (Hs eq_refl).
Qed.

(** The rational a bounded number stands for is its value over 2^149. *)
Lemma to_Q_value (s : bool) (m : positive) (e : Z) :
  -149 <= e ->
  exists q, F32.to_Q (S754_finite s m e) = Some q /\
            (q == cond_Zopp s (V m e) # units)%Q.
Proof.
  intros He. unfold F32.to_Q. eexists. split; [reflexivity|].
  set (n := if s then Z.neg m else Z.pos m).
  assert (Hn : cond_Zopp s (V m e) = n * 2 ^ (e + 149)).
  { unfold V, n. destruct s; cbn [cond_Zopp]; [|reflexivity].
    rewrite <- Z.mul_opp_l. reflexivity. }
  rewrite Hn. unfold Qeq. cbn [Qnum Qden].
  change (Z.pos units) with (2 ^ 149).
  destruct (Z.leb_spec 0 e) as [Hp|Hp]; cbn [Qnum Qden].
  - rewrite Z.mul_1_r, <- Z.mul_assoc, <- Z.pow_add_r by lia. reflexivity.
  - rewrite Z2Pos.id by (apply Z.pow_pos_nonneg; lia).
    rewrite <- Z.mul_assoc, <- Z.pow_add_r by lia.
    f_equal. f_equal. lia.
Qed.

(** The value of 1, and that a finite number is not 0. *)
Lemma V_one : V 8388608 (-23) = 2 ^ 149.
Proof. reflexivity. Qed.

Lemma finite_not_zero (s : bool) (m : positive) (e : Z) :
  (S754_finite s m e != f0)%f32 = true.
Proof. destruct s; reflexivity. Qed.

(** Every multiple of one half below 2^23 degrees is such a number, so are
    the values a drag leaves. *)
Lemma half_settles (k : Z) : Z.abs k < 2 ^ 24 -> settles (half k).
Proof.
  intros Hk. apply settles_cases.
  destruct (Z.eq_dec k 0) as [->|Hk0]; [left; exists false; reflexivity|right].
  destruct (half_form k ltac:(lia)) as (m & e & Hf & Hb & Hv).
  exists (k <? 0), m, e. split; [exact Hf|]. split; [exact Hb|].
  rewrite Hv. change (2 ^ 172) with (2 ^ 24 * 2 ^ 148).
  change (2 ^ 123) with (2 ^ 123 * 1).
  assert (Hc : 0 < 2 ^ 148) by reflexivity.
  assert (H123 : 2 ^ 123 * 1 < 1 * 2 ^ 148) by reflexivity.
  split.
  - apply Z.mul_le_mono_nonneg_r; lia.
  - intros _. eapply Z.lt_le_trans; [exact H123|].
    apply Z.mul_le_mono_nonneg_r; lia.
Qed.

(** One half off a magnitude, in rationals. *)
Lemma half_off_Q (v v' : Z) :
  v' = v - 2 ^ 148 -> (v' # units == (v # units) - (1 # 2))%Q.
Proof.
  intros ->. unfold Qeq, Qminus, Qplus, Qopp. cbn [Qnum Qden].
  rewrite Pos2Z.inj_mul. change (Z.pos units) with (2 * 2 ^ 148).
  change (Z.pos 2) with 2. set (c := 2 ^ 148). ring.
Qed.

(** What one idle tick does to a number the spring back settles from. *)
Lemma relax_settles (x : F32.t) :
  settles x ->
  settles (relax x) /\
  weight (relax x) = (if 2 ^ 149 <=? weight x then weight x - 2 ^ 148 else 0) /\
  (F32.geb (F32.fabs x) f1 = true ->
     exists v v',
       F32.to_Q (F32.fabs x) = Some v /\ F32.to_Q (F32.fabs (relax x)) = Some v' /\
       (v' == v - (1 # 2))%Q) /\
  (F32.ltb (F32.fabs x) f1 = true -> (x != f0)%f32 = true -> relax x = f0) /\
  F32.leb (F32.fabs (relax x)) (F32.fabs x) = true /\
  (F32.geb x f0 = true -> F32.geb (relax x) f0 = true) /\
  (F32.leb x f0 = true -> F32.leb (relax x) f0 = true) /\
  (relax x = f0 \/ (relax x != f0)%f32 = true \/ relax x = x).
Proof.
  intros Hx. apply settles_cases in Hx.
  destruct Hx as [[s ->]|(s & m & e & -> & Hb & Hv & Hs)].
  - change (relax (S754_zero s)) with (S754_zero s).
    split; [apply settles_cases; left; exists s; reflexivity|].
    split; [reflexivity|].
    split; [intros H; discriminate H|].
    split; [intros _ H; discriminate H|].
    split; [reflexivity|].
    split; [intros H; exact H|]. split; [intros H; exact H|].
    right; right; reflexivity.
  - destruct (bounded_facts m e Hb) as (He & _).
    assert (H149 : 2 ^ 149 = 2 * 2 ^ 148) by reflexivity.
    assert (H148 : 0 < 2 ^ 148) by reflexivity.
    assert (H123 : 2 ^ 123 < 2 ^ 148) by reflexivity.
    cbn [weight].
    destruct (Z.leb_spec (2 ^ 149) (V m e)) as [Hfar|Hnear].
    + destruct (relax_far s m e Hb ltac:(lia)) as (m' & e' & -> & Hb' & Hv').
      destruct (bounded_facts m' e' Hb') as (He' & _).
      cbn [weight].
      split.
      { apply settles_cases. right. exists s, m', e'.
        split; [reflexivity|]. split; [exact Hb'|]. split; [lia|]. intros _. lia. }
      split; [exact Hv'|].
      split.
      { intros _. unfold F32.fabs. cbn [SFabs].
        destruct (to_Q_value false m e ltac:(lia)) as (v & Hq & Hqv).
        destruct (to_Q_value false m' e' ltac:(lia)) as (v' & Hq' & Hqv').
        exists v, v'. split; [exact Hq|]. split; [exact Hq'|].
        cbn [cond_Zopp] in Hqv, Hqv'. rewrite Hqv, Hqv'.
        apply half_off_Q, Hv'. }
      split.
      { intros Hlt. unfold F32.ltb, F32.fabs, f1 in Hlt. cbn [SFabs] in Hlt.
        rewrite SFltb_value in Hlt; [|exact Hb|reflexivity].
        rewrite V_one in Hlt. apply Z.ltb_lt in Hlt. lia. }
      split.
      { unfold F32.leb, F32.fabs. cbn [SFabs].
        rewrite SFleb_value; [|exact Hb'|exact Hb]. apply Z.leb_le. lia. }
      split; [destruct s; intros H; [discriminate H | reflexivity]|].
      split; [destruct s; intros H; [reflexivity | discriminate H]|].
      right; left. apply finite_not_zero.
    + rewrite (relax_near s m e Hb Hnear Hs).
      split; [apply settles_cases; left; exists false; reflexivity|].
      split; [reflexivity|].
      split.
      { intros Hge. unfold F32.geb, F32.fabs, f1 in Hge. cbn [SFabs] in Hge.
        rewrite SFleb_value in Hge; [|reflexivity|exact Hb].
        rewrite V_one in Hge. apply Z.leb_le in Hge. lia. }
      split; [intros _ _; reflexivity|].
      split; [reflexivity|].
      split; [intros _; reflexivity|]. split; [intros _; reflexivity|].
      left; reflexivity.
Qed.

(** A zero stays as it is, idle or not. *)
Lemma zero_stays (lm : Libm) (clock : list Z) (last : Z) (p : Planet.t) :
  (Planet.userRotationX p != f0)%f32 = false ->
  Planet.userRotationX (updates lm clock last p) = Planet.userRotationX p.
Proof.
  revert p. induction clock as [|now clock IH]; intros p Hz; [reflexivity|].
  rewrite updates_cons.
  assert (H1 : Planet.userRotationX (Planet.update lm now last p) = Planet.userRotationX p).
  { unfold Planet.update. cbn [Planet.userRotationX]. rewrite Hz, andb_false_r. reflexivity. }
  rewrite IH; [exact H1 | rewrite H1; exact Hz].
Qed.

(** A run of idle ticks from a number the spring back settles from. *)
Lemma idle_run_settles (lm : Libm) (last : Z) (clock : list Z) (p : Planet.t) :
  Forall (fun now => Planet.idle now last = true) clock ->
  settles (Planet.userRotationX p) ->
  let q := updates lm clock last p in
  settles (Planet.userRotationX q) /\
  (weight (Planet.userRotationX p) <= Z.of_nat (length clock) * 2 ^ 148 ->
   (Planet.userRotationX q != f0)%f32 = false) /\
  ((Planet.userRotationX p != f0)%f32 = true ->
   (Planet.userRotationX q != f0)%f32 = false -> Planet.userRotationX q = f0).
Proof.
  intros Hidle. revert p.
  induction Hidle as [|now clock Hnow Hidle IH]; intros p Hx; cbv zeta.
  - change (updates lm [] last p) with p. split; [exact Hx|]. split.
    + intros Hw. cbn [length] in Hw. change (Z.of_nat 0 * 2 ^ 148) with 0 in Hw.
      apply settles_cases in Hx.
      destruct Hx as [[s ->]|(s & m & e & Hp & Hb & _)]; [reflexivity|].
      rewrite Hp in Hw. cbn [weight] in Hw.
      destruct (bounded_facts m e Hb) as (He & _).
      pose proof (V_pos m e ltac:(lia)). lia.
    + intros H1 H2. rewrite H1 in H2. discriminate H2.
  - rewrite updates_cons.
    set (p1 := Planet.update lm now last p).
    assert (Hp1 : Planet.userRotationX p1 = relax (Planet.userRotationX p))
      by (apply update_userRotationX, Hnow).
    destruct (relax_settles _ Hx) as (Hs1 & Hw1 & _ & _ & _ & _ & _ & Hz1).
    rewrite <- Hp1 in Hs1, Hw1, Hz1.
    destruct (IH p1 Hs1) as (IH1 & IH2 & IH3). cbv zeta in IH1, IH2, IH3.
    split; [exact IH1|]. split.
    + intros Hw. apply IH2. rewrite Hw1.
      cbn [length] in Hw. rewrite Nat2Z.inj_succ, Z.mul_succ_l in Hw.
      assert (0 <= Z.of_nat (length clock) * 2 ^ 148)
        by (apply Z.mul_nonneg_nonneg; [lia | apply Z.pow_nonneg; lia]).
      destruct (Z.leb_spec (2 ^ 149) (weight (Planet.userRotationX p))); lia.
    + intros Hnz Hq.
      destruct Hz1 as [Hz|[Hz|Hz]].
      * rewrite zero_stays by (rewrite Hz; reflexivity). exact Hz.
      * exact (IH3 Hz Hq).
      * apply IH3; [rewrite Hz; exact Hnz | exact Hq].
Qed.

(** A value that an idle tick leaves alone stays for good. *)
Lemma stuck_run (lm : Libm) (clock : list Z) (last : Z) (p : Planet.t) :
  relax (Planet.userRotationX p) = Planet.userRotationX p ->
  Planet.userRotationX (updates lm clock last p) = Planet.userRotationX p.
Proof.
  revert p. induction clock as [|now clock IH]; intros p Hr; [reflexivity|].
  rewrite updates_cons.
  assert (H1 : Planet.userRotationX (Planet.update lm now last p) = Planet.userRotationX p).
  { destruct (Planet.idle now last) eqn:Hi.
    - rewrite update_userRotationX by exact Hi. exact Hr.
    - apply update_userRotationX_busy, Hi. }
  rewrite IH; [exact H1 | rewrite H1; exact Hr].
Qed.

(** C3, as stated, fails for starting values that no drag leaves.  From
    -2^-30 degrees one idle update gives +0.5 degrees: the sign is crossed
    and the magnitude grows.  From 33554432 = 2^25 degrees the idle updates
    change nothing, however many there are: [x - 0.5f] rounds back to [x],
    and the value never reaches 0. *)
Lemma spring_back_not_from_every_value :
  let x := Planet.userRotationX in
  let tick := Planet.update series_libm 2600 600 in
  let tiny := Planet.setRotation (SFopp (F32.lit 1 1073741824)) f0 demo_planet in
  let huge := Planet.setRotation (F32.of_int 33554432) f0 demo_planet in
  Planet.idle 2600 600 = true /\
  (F32.ltb (x tiny) f0 = true /\
   x (tick tiny) = f0_5 /\
   F32.ltb (F32.fabs (x tiny)) (F32.fabs (x (tick tiny))) = true) /\
  ((x huge != f0)%f32 = true /\
   forall n, x (updates series_libm (repeat 2600 n) 600 huge) = x huge).
Proof.
  cbv zeta. split; [reflexivity|]. split; [repeat split|].
  split; [reflexivity|]. intros n. apply stuck_run. reflexivity.
Qed.

(** C3, amended: let [userRotationX] hold any binary32 number of magnitude
    at most 2^23 = 8388608 degrees that is not a negative number of
    magnitude at most 2^-26 degrees ([settles]; every value a drag can
    leave is such a number), and let every update tick find the program
    idle for at least 2000 ms.  Then the value after the ticks of [clock]
    is again such a number, and one more idle tick
    - takes exactly one half off the magnitude when the magnitude is at
      least 1, with no rounding,
    - gives exactly 0 when the magnitude is below 1 and not 0: the step
      leaves less than one half and the snap sets 0,
    - never raises the magnitude and does not cross 0.
    The value is 0 once twice the starting magnitude in ticks have passed,
    and after 16777216 ticks whatever the start; a start other than 0 ends
    at [+0]. *)
Theorem idle_spring_back_reaches_zero
    (lm : Libm) (last : Z) (clock : list Z) (p : Planet.t) :
  settles (Planet.userRotationX p) ->
  Forall (fun now => Planet.idle now last = true) clock ->
  let x := Planet.userRotationX in
  let q := updates lm clock last p in
  settles (x q) /\
  (forall now, Planet.idle now last = true ->
     let q' := Planet.update lm now last q in
     (F32.geb (F32.fabs (x q)) f1 = true ->
        exists v v',
          F32.to_Q (F32.fabs (x q)) = Some v /\
          F32.to_Q (F32.fabs (x q')) = Some v' /\
          (v' == v - (1 # 2))%Q) /\
     (F32.ltb (F32.fabs (x q)) f1 = true -> (x q != f0)%f32 = true -> x q' = f0) /\
     F32.leb (F32.fabs (x q')) (F32.fabs (x q)) = true /\
     (F32.geb (x q) f0 = true -> F32.geb (x q') f0 = true) /\
     (F32.leb (x q) f0 = true -> F32.leb (x q') f0 = true)) /\
  (forall v, F32.to_Q (F32.fabs (x p)) = Some v ->
     (2 * v <= inject_Z (Z.of_nat (length clock)))%Q ->
     (x q != f0)%f32 = false) /\
  (16777216 <= Z.of_nat (length clock) -> (x q != f0)%f32 = false) /\
  ((x p != f0)%f32 = true -> (x q != f0)%f32 = false -> x q = f0).
Proof.
  intros Hx Hidle x q. subst x q.
  destruct (idle_run_settles lm last clock p Hidle Hx) as (Hs & Hw & Hz).
  cbv zeta in Hs, Hw, Hz.
  split; [exact Hs|]. split; [|split; [|split; [|exact Hz]]].
  - intros now Hnow q'. subst q'.
    rewrite update_userRotationX by exact Hnow.
    destruct (relax_settles _ Hs) as (_ & _ & H1 & H2 & H3 & H4 & H5 & _).
    split; [exact H1|]. split; [exact H2|]. split; [exact H3|].
    split; [exact H4 | exact H5].
  - intros v Hv Hle. apply Hw.
    assert (Hn : 0 <= Z.of_nat (length clock)) by lia.
    set (n := Z.of_nat (length clock)) in *. clearbody n.
    apply settles_cases in Hx.
    destruct Hx as [[s Hp]|(s & m & e & Hp & Hb & _)]; rewrite Hp in Hv |- *; cbn [weight].
    + apply Z.mul_nonneg_nonneg; [exact Hn | apply Z.pow_nonneg; lia].
    + destruct (bounded_facts m e Hb) as (He & _).
      unfold F32.fabs in Hv. cbn [SFabs] in Hv.
      destruct (to_Q_value false m e ltac:(lia)) as (v0 & Hq & Hqv).
      rewrite Hq in Hv. injection Hv as <-. cbn [cond_Zopp] in Hqv.
      rewrite Hqv in Hle. unfold Qle, Qmult, inject_Z in Hle. cbn [Qnum Qden] in Hle.
      change (Z.pos (1 * units)) with (2 * 2 ^ 148) in Hle.
      set (c := 2 ^ 148) in *. lia.
  - intros Hn. apply Hw.
    apply settles_cases in Hx.
    assert (Hc : 0 < 2 ^ 148) by reflexivity.
    assert (H172 : 2 ^ 172 = 16777216 * 2 ^ 148) by reflexivity.
    assert (Hm : 16777216 * 2 ^ 148 <= Z.of_nat (length clock) * 2 ^ 148)
      by (apply Z.mul_le_mono_nonneg_r; lia).
    destruct Hx as [[s ->]|(s & m & e & -> & _ & Hv & _)]; cbn [weight]; lia.
Qed.

Lemma idle_spring_back_witness :
  let p := Planet.setRotation (SFopp (F32.lit 13 10)) f25 demo_planet in
  (settles (Planet.userRotationX p) /\
   Forall (fun now => Planet.idle now 600 = true) (repeat 2600 3)) /\
  Planet.userRotationX (updates series_libm (repeat 2600 3) 600 p) = f0.
Proof.
  cbv zeta.
  assert (Hs : settles (Planet.userRotationX
                          (Planet.setRotation (SFopp (F32.lit 13 10)) f25 demo_planet))).
  { split; [reflexivity|]. split; [reflexivity|]. intros _. reflexivity. }
  assert (Hidle : Forall (fun now => Planet.idle now 600 = true) (repeat 2600 3))
    by (repeat constructor).
  split; [split; [exact Hs | exact Hidle]|].
  destruct (idle_spring_back_reaches_zero series_libm 600 (repeat 2600 3)
              (Planet.setRotation (SFopp (F32.lit 13 10)) f25 demo_planet) Hs Hidle)
    as (_ & _ & Hb & _ & Hz).
  apply Hz; [reflexivity|].
  eapply Hb; [reflexivity|]. vm_compute. discriminate.
Defined.

(** ** The position on the orbit *)

(** *** Rounding to nearest *)








(** *** Products *)



(** *** The position at 0 and at 90 degrees *)















(** ** The main loop *)

Lemma main_loop_cons (lm : Libm) (i : Poll) (polls : list Poll) (st : Loop) :
  main_loop lm (i :: polls) st
  = main_loop lm polls (if running (prog st) then frame lm i st else st).
Proof. reflexivity. Qed.

Lemma main_loop_app (lm : Libm) (p1 p2 : list Poll) (st : Loop) :
  main_loop lm (p1 ++ p2) st = main_loop lm p2 (main_loop lm p1 st).
Proof. unfold main_loop. apply fold_left_app. Qed.

Lemma main_loop_left (lm : Libm) (polls : list Poll) (st : Loop) :
  running (prog st) = false -> main_loop lm polls st = st.
Proof.
  intros Hr. induction polls as [|i polls IH]; [reflexivity|].
  rewrite main_loop_cons, Hr. exact IH.
Qed.

(** What a pass leaves in the program variables: rendering gives the planet
    back as it was. *)
Lemma frame_prog (lm : Libm) (i : Poll) (st : Loop) :
  prog (frame lm i st)
  = set_planet (planet_after lm i (prog st)) (handleInputs (polled i) (prog st)).
Proof.
  unfold frame, planet_after, on_gl. cbv zeta.
  set (a := handleInputs (polled i) (prog st)).
  set (p := Planet.update lm (update_ticks i) (lastInteractionTime a) (planet a)).
  destruct (Sun.render _ _) as [s' g1]. cbn [gl].
  pose proof (planet_render_keeps_planet p g1) as Hk.
  destruct (Planet.render p g1) as [p' g2]. cbn [fst] in Hk. subst p'.
  reflexivity.
Qed.

Lemma frame_running (lm : Libm) (i : Poll) (st : Loop) :
  running (prog (frame lm i st))
  = running (prog st) && negb (existsb (fun ev => is_quit (fst ev)) (polled i)).
Proof. rewrite frame_prog. cbn [set_planet running]. apply handleInputs_running. Qed.

Lemma frame_screen (lm : Libm) (i : Poll) (st : Loop) :
  let p := planet_after lm i (prog st) in
  let col := color (gl (screen st)) in
  screen (frame lm i st)
  = {| gl := {| matrix := []; stack := stack (gl (screen st));
                texture := match Planet.moon p with
                           | Some mn => Moon.atmosphereTextureID mn
                           | None => Planet.atmosphereTextureID p
                           end;
                color := white;
                drawn := sun_spheres [] col (sun st) ++ planet_spheres [] col p |};
       base := [camera p];
       light0 := ((f0, f0, f0, f1), []);
       window := window (screen st) ++ [scene col (sun st) p] |}.
Proof.
  cbv zeta. unfold frame, planet_after, on_gl. cbv zeta.
  set (a := handleInputs (polled i) (prog st)).
  set (p := Planet.update lm (update_ticks i) (lastInteractionTime a) (planet a)).
  set (sc := gluLookAt _ _ _ _).
  pose proof (sun_render_gl (Sun.update (sun st)) (gl sc)) as Hs.
  destruct (Sun.render _ _) as [s' g1]. cbn [snd] in Hs. cbn [gl base light0 window].
  pose proof (planet_render_gl p g1) as Hp.
  destruct (Planet.render p g1) as [p' g2]. cbn [snd] in Hp.
  subst g2 g1. reflexivity.
Qed.

Lemma frame_sun (lm : Libm) (i : Poll) (st : Loop) : sun (frame lm i st) = sun st.
Proof.
  unfold frame, on_gl, Sun.render, Sun.update. cbv zeta.
  destruct (Planet.render _ _) as [p' g2]. reflexivity.
Qed.

Lemma frame_planet (lm : Libm) (i : Poll) (st : Loop) :
  planet (prog (frame lm i st)) = planet_after lm i (prog st).
Proof. rewrite frame_prog. reflexivity. Qed.

(** X13: a quit ends the loop after the pass it arrives in, not before.
    The pass whose poll holds the quit handles every event of that poll,
    those after the quit too, updates the planet and shows one more frame;
    then [running] is false and no later poll is read. *)
Theorem main_loop_leaves_at_quit (lm : Libm) (i : Poll) (rest : list Poll) (st : Loop) :
  running (prog st) = true ->
  In SDL_QUIT (map fst (polled i)) ->
  main_loop lm (i :: rest) st = frame lm i st /\
  running (prog (frame lm i st)) = false /\
  planet (prog (frame lm i st)) = planet_after lm i (prog st) /\
  length (window (screen (frame lm i st))) = S (length (window (screen st))).
Proof.
  intros Hr Hq.
  assert (Hstop : running (prog (frame lm i st)) = false).
  { apply in_quit in Hq. rewrite frame_running, Hr, Hq. reflexivity. }
  split; [rewrite main_loop_cons, Hr; apply main_loop_left, Hstop|].
  split; [exact Hstop|]. split; [apply frame_planet|].
  pose proof (frame_screen lm i st) as Hs. cbv zeta in Hs. rewrite Hs.
  cbn [window]. rewrite length_app. cbn [length]. lia.
Qed.

Lemma main_loop_leaves_at_quit_witness :
  let i := {| polled := [ (SDL_QUIT, 100); (SDL_MOUSEWHEEL 1, 101) ]; update_ticks := 102 |} in
  let later := {| polled := [ (SDL_MOUSEWHEEL 1, 200) ]; update_ticks := 201 |} in
  let st := demo_start in
  (running (prog st) = true /\ In SDL_QUIT (map fst (polled i))) /\
  main_loop series_libm [i; later; later] st = frame series_libm i st /\
  Planet.getZoom (planet (prog (frame series_libm i st))) = F32.lit 9 2.
Proof.
  cbv zeta.
  assert (Hq : In SDL_QUIT (map fst [ (SDL_QUIT, 100); (SDL_MOUSEWHEEL 1, 101) ]))
    by (left; reflexivity).
  split; [split; [reflexivity | exact Hq]|].
  destruct (main_loop_leaves_at_quit series_libm
              {| polled := [ (SDL_QUIT, 100); (SDL_MOUSEWHEEL 1, 101) ]; update_ticks := 102 |}
              [ {| polled := [ (SDL_MOUSEWHEEL 1, 200) ]; update_ticks := 201 |};
                {| polled := [ (SDL_MOUSEWHEEL 1, 200) ]; update_ticks := 201 |} ]
              demo_start eq_refl Hq) as (Hloop & _ & Hp & _).
  split; [exact Hloop|].
  rewrite Hp. reflexivity.
Defined.

(** X14: what the loop shows.  From a current colour of opaque white, the
    colour a GL context starts with, every pass of the loop shows exactly
    one frame: the scene of the planet as that pass has left it, so a wheel
    notch or a drag is seen in the frame of the pass that handles it.  The
    sun's sphere and the bodies are drawn opaque white and the shells at
    alpha 0.5 in every frame, the camera is alone under the spheres, with
    the sun at the origin, and the light position is given before the
    camera, while the modelview matrix is the identity. *)
Theorem main_loop_shows (lm : Libm) (polls : list Poll) (st : Loop) :
  color (gl (screen st)) = white ->
  let st' := main_loop lm polls st in
  window (screen st') = window (screen st) ++ shots lm polls st /\
  color (gl (screen st')) = white.
Proof.
  cbv zeta. revert st. induction polls as [|i polls IH]; intros st Hc.
  - cbn [shots]. rewrite app_nil_r. split; [reflexivity | exact Hc].
  - rewrite main_loop_cons. cbn [shots].
    destruct (running (prog st)) eqn:Hr.
    + pose proof (frame_screen lm i st) as Hs. cbv zeta in Hs.
      rewrite Hc in Hs.
      destruct (IH (frame lm i st)) as [Hw Hc'].
      { rewrite Hs. reflexivity. }
      split; [|exact Hc'].
      rewrite Hw, Hs. cbn [window]. rewrite <- app_assoc. reflexivity.
    + rewrite main_loop_left by exact Hr. rewrite app_nil_r.
      split; [reflexivity | exact Hc].
Qed.

Lemma main_loop_shows_witness :
  let polls := [ {| polled := [ (SDL_MOUSEWHEEL 1, 10) ]; update_ticks := 16 |};
                 {| polled := [ (SDL_QUIT, 20) ]; update_ticks := 32 |};
                 {| polled := []; update_ticks := 48 |} ] in
  let st := demo_start in
  color (gl (screen st)) = white /\
  length (window (screen (main_loop series_libm polls st))) = 2%nat /\
  map (fun sh => map with_texture (shot_spheres sh))
      (window (screen (main_loop series_libm polls st)))
  = [ [5; 1; 2; 3; 4]; [5; 1; 2; 3; 4] ].
Proof.
  cbv zeta. split; [reflexivity|].
  destruct (main_loop_shows series_libm
              [ {| polled := [ (SDL_MOUSEWHEEL 1, 10) ]; update_ticks := 16 |};
                {| polled := [ (SDL_QUIT, 20) ]; update_ticks := 32 |};
                {| polled := []; update_ticks := 48 |} ]
              demo_start eq_refl) as [Hw _].
  rewrite Hw. split; reflexivity.
Defined.

(** The handler reaches the planet through its two setters only. *)
Lemma handleInput_planet (event : SDL_Event) (ticks : Z) (a : App) :
  let p' := planet (handleInput event ticks a) in
  p' = Planet.setZoom (Planet.zoom p')
         (Planet.setRotation (Planet.userRotationX p') (Planet.userRotationY p') (planet a)).
Proof.
  cbv zeta.
  destruct event as [|x y|b x y|b x y|y|ty]; cbn [handleInput]; cbv zeta.
  - destruct (planet a); reflexivity.
  - destruct (dragging a); cbn [planet]; destruct (planet a); reflexivity.
  - destruct (b =? SDL_BUTTON_LEFT); cbn [planet]; destruct (planet a); reflexivity.
  - destruct (b =? SDL_BUTTON_LEFT); cbn [planet]; destruct (planet a); reflexivity.
  - cbn [planet].
    repeat match goal with
           | |- context [if ?c then _ else _] => destruct c
           end; destruct (planet a); reflexivity.
  - destruct (planet a); reflexivity.
Qed.

Lemma handleInputs_planet (events : list (SDL_Event * Z)) (a : App) :
  let p' := planet (handleInputs events a) in
  p' = Planet.setZoom (Planet.zoom p')
         (Planet.setRotation (Planet.userRotationX p') (Planet.userRotationY p') (planet a)).
Proof.
  cbv zeta. revert a. induction events as [|ev events IH]; intros a.
  - change (handleInputs [] a) with a. destruct (planet a); reflexivity.
  - rewrite handleInputs_cons.
    rewrite (IH (handleInput (fst ev) (snd ev) a)) at 1.
    rewrite (handleInput_planet (fst ev) (snd ev) a) at 1.
    reflexivity.
Qed.

Lemma half_range_checked : forallb half_in_range (zrange (-80) 161) = true.
Proof. vm_compute. reflexivity. Qed.

Lemma rotation_ok_range (x : F32.t) :
  rotation_ok x -> F32.leb fm40 x = true /\ F32.leb x f40 = true.
Proof.
  intros (k & Hk & ->).
  pose proof (zrange_forallb _ _ _ half_range_checked k ltac:(lia)) as H.
  apply andb_prop in H. exact H.
Qed.

Lemma relax_rotation_ok (x : F32.t) : rotation_ok x -> rotation_ok (relax x).
Proof.
  intros (k & Hk & ->). exists (approach k 1). split; [apply approach_range, Hk|].
  apply relax_half, Hk.
Qed.

Lemma update_rotation_ok (lm : Libm) (now last : Z) (p : Planet.t) :
  rotation_ok (Planet.userRotationX p) ->
  rotation_ok (Planet.userRotationX (Planet.update lm now last p)).
Proof.
  intros Hx. destruct (Planet.idle now last) eqn:Hi.
  - rewrite update_userRotationX by exact Hi. apply relax_rotation_ok, Hx.
  - rewrite update_userRotationX_busy by exact Hi. exact Hx.
Qed.

(** The handler keeps the accumulator and the planet's user X rotation on
    the grid and the anchor inside the window. *)
Lemma handleInput_rotation_ok (event : SDL_Event) (ticks : Z) (a : App) :
  in_window event ->
  0 <= lastMouseY a < SCREEN_HEIGHT ->
  rotation_ok (sphereRotationX a) ->
  rotation_ok (Planet.userRotationX (planet a)) ->
  let a' := handleInput event ticks a in
  0 <= lastMouseY a' < SCREEN_HEIGHT /\
  rotation_ok (sphereRotationX a') /\
  rotation_ok (Planet.userRotationX (planet a')).
Proof.
  intros Hw Hl Hs Hu. cbv zeta.
  destruct event as [|x y|b x y|b x y|y|ty]; cbn [in_window] in Hw; cbn [handleInput].
  - split; [exact Hl | split; assumption].
  - destruct (dragging a); [|split; [exact Hl | split; assumption]].
    cbv zeta. cbn [lastMouseY sphereRotationX planet Planet.setRotation Planet.userRotationX].
    rewrite clamp40_sequential.
    destruct Hs as (k & Hk & Hs). unfold SCREEN_HEIGHT in *.
    rewrite (sint32_small (y - lastMouseY a)) by lia.
    rewrite Hs, drag_step by lia.
    assert (Hr : rotation_ok (half (clampZ (k - (y - lastMouseY a))))).
    { exists (clampZ (k - (y - lastMouseY a))). split; [unfold clampZ; lia | reflexivity]. }
    split; [exact Hw | split; exact Hr].
  - destruct (b =? SDL_BUTTON_LEFT); cbn [lastMouseY sphereRotationX planet].
    + split; [exact Hw | split; assumption].
    + split; [exact Hl | split; assumption].
  - destruct (b =? SDL_BUTTON_LEFT); cbn [lastMouseY sphereRotationX planet];
      (split; [exact Hl | split; assumption]).
  - cbv zeta. cbn [lastMouseY sphereRotationX planet].
    split; [exact Hl|]. split; [exact Hs|].
    repeat match goal with
           | |- context [if ?c then _ else _] => destruct c
           end; exact Hu.
  - split; [exact Hl | split; assumption].
Qed.

Lemma handleInputs_rotation_ok (events : list (SDL_Event * Z)) (a : App) :
  Forall (fun ev => in_window (fst ev)) events ->
  0 <= lastMouseY a < SCREEN_HEIGHT ->
  rotation_ok (sphereRotationX a) ->
  rotation_ok (Planet.userRotationX (planet a)) ->
  let a' := handleInputs events a in
  0 <= lastMouseY a' < SCREEN_HEIGHT /\
  rotation_ok (sphereRotationX a') /\
  rotation_ok (Planet.userRotationX (planet a')).
Proof.
  intros Hw. revert a. induction Hw as [|ev events Hev Hw IH]; intros a Hl Hs Hu.
  - cbv zeta. split; [exact Hl | split; assumption].
  - cbv zeta. rewrite handleInputs_cons.
    destruct (handleInput_rotation_ok (fst ev) (snd ev) a Hev Hl Hs Hu) as (Hl' & Hs' & Hu').
    apply IH; assumption.
Qed.

Lemma frame_ok (lm : Libm) (i : Poll) (st : Loop) :
  Forall (fun ev => in_window (fst ev)) (polled i) ->
  loop_ok st -> loop_ok (frame lm i st).
Proof.
  intros Hw (Hz & Hr & Ho & Hm & Hu & Hs & Hl & Hps & Hos).
  unfold loop_ok. rewrite frame_prog. unfold planet_after.
  set (a := handleInputs (polled i) (prog st)).
  cbn [set_planet planet sphereRotationX lastMouseY].
  pose proof (handleInputs_planet (polled i) (prog st)) as Hp. cbv zeta in Hp.
  fold a in Hp.
  destruct (handleInputs_rotation_ok (polled i) (prog st) Hw Hl Hs Hu) as (Hl' & Hs' & Hu').
  fold a in Hl', Hs', Hu'.
  pose proof (handleInputs_zoom_ok (polled i) (prog st) Hz) as Hz'. fold a in Hz'.
  assert (Hfields :
    Planet.rotationY (planet a) = Planet.rotationY (planet (prog st)) /\
    Planet.orbitAngle (planet a) = Planet.orbitAngle (planet (prog st)) /\
    Planet.moon (planet a) = Planet.moon (planet (prog st)) /\
    Planet.passiveRotationSpeed (planet a) = Planet.passiveRotationSpeed (planet (prog st)) /\
    Planet.orbitSpeed (planet a) = Planet.orbitSpeed (planet (prog st))).
  { rewrite Hp. repeat split. }
  destruct Hfields as (Fr & Fo & Fm & Fps & Fos).
  split; [exact Hz'|].
  split; [rewrite update_rotationY, Fr, Fps; apply advance_ok; assumption|].
  split; [rewrite update_orbitAngle, Fo, Fos; apply advance_ok; assumption|].
  split.
  { intros m Hq. rewrite update_moon, Fm in Hq.
    destruct (Planet.moon (planet (prog st))) as [m0|]; [|discriminate Hq].
    cbn [option_map] in Hq. injection Hq as <-.
    rewrite moon_update_orbitAngle.
    apply advance_ok; [exact moon_speed_ok | apply Hm; reflexivity]. }
  split; [apply update_rotation_ok; exact Hu'|].
  split; [exact Hs'|]. split; [exact Hl'|].
  split.
  - change (speed_ok (Planet.passiveRotationSpeed (planet a))). rewrite Fps. exact Hps.
  - change (speed_ok (Planet.orbitSpeed (planet a))). rewrite Fos. exact Hos.
Qed.

(** X15: the ranges of the whole program.  Let the mouse positions of all
    events be inside the window.  Then whatever the polls hold and however
    events and update ticks interleave, every pass of the main loop keeps
    the zoom within its limits, the passive spin, the planet's orbit angle
    and the moon's orbit angle in [0, 360), and the accumulated and the
    planet's user X rotation on the half-degree grid within [-40, 40]. *)
Theorem main_loop_keeps_ranges (lm : Libm) (polls : list Poll) (st : Loop) :
  Forall (fun i => Forall (fun ev => in_window (fst ev)) (polled i)) polls ->
  loop_ok st ->
  let st' := main_loop lm polls st in
  loop_ok st' /\
  F32.leb fm40 (Planet.userRotationX (planet (prog st'))) = true /\
  F32.leb (Planet.userRotationX (planet (prog st'))) f40 = true.
Proof.
  intros Hw Hok. cbv zeta.
  assert (H : loop_ok (main_loop lm polls st)).
  { revert st Hok. induction Hw as [|i polls Hi Hw IH]; intros st Hok; [exact Hok|].
    rewrite main_loop_cons. apply IH.
    destruct (running (prog st)); [apply frame_ok; assumption | exact Hok]. }
  split; [exact H|].
  apply rotation_ok_range. apply H.
Qed.

Lemma main_loop_keeps_ranges_witness :
  let polls := [ {| polled := [ (SDL_MOUSEBUTTONDOWN SDL_BUTTON_LEFT 100 100, 10);
                                (SDL_MOUSEMOTION 130 700, 12);
                                (SDL_MOUSEWHEEL (-1), 14) ];
                    update_ticks := 16 |};
                 {| polled := []; update_ticks := 3000 |} ] in
  (Forall (fun i => Forall (fun ev => in_window (fst ev)) (polled i)) polls /\
   loop_ok demo_start) /\
  loop_ok (main_loop series_libm polls demo_start).
Proof.
  cbv zeta.
  assert (Hw : Forall (fun i => Forall (fun ev => in_window (fst ev)) (polled i))
                 [ {| polled := [ (SDL_MOUSEBUTTONDOWN SDL_BUTTON_LEFT 100 100, 10);
                                  (SDL_MOUSEMOTION 130 700, 12);
                                  (SDL_MOUSEWHEEL (-1), 14) ];
                      update_ticks := 16 |};
                   {| polled := []; update_ticks := 3000 |} ]).
  { repeat constructor; cbn; unfold SCREEN_HEIGHT; lia. }
  assert (Hok : loop_ok demo_start).
  { unfold loop_ok. cbn.
    split; [split; reflexivity|].
    split; [repeat split|]. split; [repeat split|].
    split; [intros m Hm; injection Hm as <-; repeat split|].
    split; [exists 0; split; [lia | reflexivity]|].
    split; [exists 0; split; [lia | reflexivity]|].
    split; [unfold SCREEN_HEIGHT; lia|].
    split; repeat split. }
  split; [split; [exact Hw | exact Hok]|].
  exact (proj1 (main_loop_keeps_ranges series_libm _ _ Hw Hok)).
Defined.

Lemma main_loop_rotationX (lm : Libm) (polls : list Poll) (st : Loop) :
  Planet.rotationX (planet (prog (main_loop lm polls st)))
  = Planet.rotationX (planet (prog st)).
Proof.
  revert st. induction polls as [|i polls IH]; intros st; [reflexivity|].
  rewrite main_loop_cons, IH.
  destruct (running (prog st)); [|reflexivity].
  rewrite frame_planet. unfold planet_after. cbv zeta.
  rewrite (handleInputs_planet (polled i) (prog st)). reflexivity.
Qed.

(** X16: the rotation getters do not show the user's rotation.
    [getRotationX] returns a field nothing writes: it is 0 after every run
    of the main loop from the start of [main], and no event changes it;
    [getRotationY] returns the passive spin, which no event changes
    either.  A drag is stored by [setRotation] in fields without a
    getter. *)
Theorem getters_do_not_show_the_drag
    (lm : Libm) (polls : list Poll) (events : list (SDL_Event * Z))
    (t1 t2 t3 t4 t5 : Z) (sc : Screen) (a : App) :
  Planet.getRotationX (planet (prog (main_loop lm polls (main_start t1 t2 t3 t4 t5 sc)))) = f0 /\
  Planet.getRotationX (planet (handleInputs events a)) = Planet.getRotationX (planet a) /\
  Planet.getRotationY (planet (handleInputs events a)) = Planet.getRotationY (planet a).
Proof.
  unfold Planet.getRotationX, Planet.getRotationY.
  split; [rewrite main_loop_rotationX; reflexivity|].
  rewrite (handleInputs_planet events a). split; reflexivity.
Qed.

Lemma idle_passes (lm : Libm) (polls : list Poll) (st : Loop) :
  running (prog st) = true ->
  Forall (fun j => polled j = []) polls ->
  prog (main_loop lm polls st)
  = set_planet (updates lm (map update_ticks polls) (lastInteractionTime (prog st))
                        (planet (prog st)))
               (prog st).
Proof.
  intros Hr Hq. revert st Hr. induction Hq as [|i polls Hi Hq IH]; intros st Hr.
  - change (main_loop lm [] st) with st. cbn [map updates fold_left].
    destruct (prog st); reflexivity.
  - rewrite main_loop_cons, Hr.
    assert (Ha : prog (frame lm i st)
                 = set_planet (Planet.update lm (update_ticks i)
                                 (lastInteractionTime (prog st)) (planet (prog st)))
                              (prog st)).
    { rewrite frame_prog. unfold planet_after. rewrite Hi. reflexivity. }
    rewrite IH by (rewrite Ha; exact Hr).
    rewrite Ha. reflexivity.
Qed.

(** X17: the spring back does not reach the accumulator, so the next drag
    motion undoes it.  Hold the left button with [k/2] degrees accumulated
    and let [|k|] or more idle passes go by without events: the planet's
    user X rotation has sprung back to 0 while [sphereRotationX] still
    holds [k/2].  The next motion event, even one with no vertical
    movement, stores [k/2] in the planet again. *)
Theorem drag_after_spring_back_jumps_back
    (lm : Libm) (still : list Poll) (i : Poll) (st : Loop) (k x t : Z) :
  running (prog st) = true ->
  dragging (prog st) = true ->
  0 <= lastMouseY (prog st) < SCREEN_HEIGHT ->
  -80 <= k <= 80 ->
  sphereRotationX (prog st) = half k ->
  Planet.userRotationX (planet (prog st)) = half k ->
  Forall (fun j => polled j = [] /\
                   Planet.idle (update_ticks j) (lastInteractionTime (prog st)) = true) still ->
  Z.abs k <= Z.of_nat (length still) ->
  polled i = [ (SDL_MOUSEMOTION x (lastMouseY (prog st)), t) ] ->
  Planet.idle (update_ticks i) t = false ->
  let st1 := main_loop lm still st in
  let st2 := main_loop lm [i] st1 in
  Planet.userRotationX (planet (prog st1)) = f0 /\
  sphereRotationX (prog st1) = half k /\
  Planet.userRotationX (planet (prog st2)) = half k.
Proof.
  intros Hr Hd Hl Hk Hs Hu Hstill Hn Hi Hbusy. cbv zeta.
  assert (Hq : Forall (fun j => polled j = []) still).
  { eapply Forall_impl; [|exact Hstill]. intros j [Hj _]. exact Hj. }
  assert (Hidle : Forall (fun now => Planet.idle now (lastInteractionTime (prog st)) = true)
                         (map update_ticks still)).
  { apply Forall_map. eapply Forall_impl; [|exact Hstill]. intros j [_ Hj]. exact Hj. }
  pose proof (idle_passes lm still st Hr Hq) as Ha.
  assert (H0 : Planet.userRotationX (planet (prog (main_loop lm still st))) = f0).
  { rewrite Ha. cbn [set_planet planet].
    rewrite (idle_run lm _ _ _ k Hk Hu Hidle), length_map, approach_done by exact Hn.
    reflexivity. }
  split; [exact H0|].
  split; [rewrite Ha; exact Hs|].
  change (main_loop lm [i] (main_loop lm still st))
    with (if running (prog (main_loop lm still st))
          then frame lm i (main_loop lm still st) else main_loop lm still st).
  rewrite Ha at 1. cbn [set_planet running]. rewrite Hr.
  rewrite frame_planet. unfold planet_after. rewrite Hi, Ha.
  unfold handleInputs. cbn [fold_left fst snd].
  unfold handleInput. cbn [set_planet dragging]. rewrite Hd. cbv zeta.
  cbn [lastInteractionTime planet sphereRotationX lastMouseY].
  rewrite update_userRotationX_busy by exact Hbusy.
  cbn [Planet.setRotation Planet.userRotationX].
  rewrite clamp40_sequential, Z.sub_diag.
  change (sint32 0) with 0. cbn [set_planet sphereRotationX].
  rewrite Hs, drag_step by lia.
  f_equal. unfold clampZ. lia.
Qed.

Lemma drag_after_spring_back_jumps_back_witness :
  let still := repeat {| polled := []; update_ticks := 3000 |} 10 in
  let i := {| polled := [ (SDL_MOUSEMOTION 400 90, 4000) ]; update_ticks := 4016 |} in
  (running (prog held_drag) = true /\
   dragging (prog held_drag) = true /\
   0 <= 90 < SCREEN_HEIGHT /\
   -80 <= 10 <= 80 /\
   sphereRotationX (prog held_drag) = half 10 /\
   Planet.userRotationX (planet (prog held_drag)) = half 10 /\
   Forall (fun j => polled j = [] /\ Planet.idle (update_ticks j) 600 = true) still /\
   Z.abs 10 <= Z.of_nat (length still) /\
   Planet.idle 4016 4000 = false) /\
  Planet.userRotationX (planet (prog (main_loop series_libm still held_drag))) = f0 /\
  Planet.userRotationX
    (planet (prog (main_loop series_libm [i] (main_loop series_libm still held_drag))))
  = F32.of_int 5.
Proof.
  cbv zeta.
  assert (Hl : 0 <= 90 < SCREEN_HEIGHT) by (unfold SCREEN_HEIGHT; lia).
  assert (Hk : -80 <= 10 <= 80) by lia.
  assert (Hstill : Forall (fun j => polled j = [] /\ Planet.idle (update_ticks j) 600 = true)
                          (repeat {| polled := []; update_ticks := 3000 |} 10)).
  { apply Forall_forall. intros j Hin. apply repeat_spec in Hin. subst j.
    split; reflexivity. }
  assert (Hn : Z.abs 10 <= Z.of_nat (length (repeat {| polled := []; update_ticks := 3000 |} 10))).
  { rewrite repeat_length. lia. }
  split.
  { split; [reflexivity|]. split; [reflexivity|]. split; [exact Hl|]. split; [exact Hk|].
    split; [reflexivity|]. split; [reflexivity|]. split; [exact Hstill|].
    split; [exact Hn | reflexivity]. }
  destruct (drag_after_spring_back_jumps_back series_libm
              (repeat {| polled := []; update_ticks := 3000 |} 10)
              {| polled := [ (SDL_MOUSEMOTION 400 90, 4000) ]; update_ticks := 4016 |}
              held_drag 10 400 4000
              eq_refl eq_refl Hl Hk eq_refl eq_refl Hstill Hn eq_refl eq_refl)
    as (H0 & _ & H2).
  split; [exact H0 | exact H2].
Defined.

(** ** Start-up and shutdown *)

(** X18: the test of [IMG_Init] passes when one of the two formats is
    there.  [main] goes on exactly when the value returned has the JPG bit
    (bit 0) or the PNG bit (bit 1) set; it does not require both, although
    it loads both PNG and JPG files afterwards. *)
Theorem IMG_Init_accepts_one_format (initted : Z) :
  IMG_Init_failed initted = negb (Z.testbit initted 0 || Z.testbit initted 1).
Proof.
  unfold IMG_Init_failed.
  change (Z.lor IMG_INIT_PNG IMG_INIT_JPG) with (Z.ones 2).
  rewrite Z.land_ones by lia.
  rewrite <- (Z.mod_pow2_bits_low initted 2 0), <- (Z.mod_pow2_bits_low initted 2 1) by lia.
  pose proof (Z.mod_pos_bound initted (2 ^ 2) ltac:(lia)) as Hm.
  assert (H : initted mod 2 ^ 2 = 0 \/ initted mod 2 ^ 2 = 1 \/
              initted mod 2 ^ 2 = 2 \/ initted mod 2 ^ 2 = 3) by lia.
  destruct H as [-> | [-> | [-> | ->]]]; reflexivity.
Qed.

Lemma main_loop_running (lm : Libm) (polls : list Poll) (st : Loop) :
  running (prog (main_loop lm polls st)) = running (prog st) && negb (quits polls).
Proof.
  revert st. induction polls as [|i polls IH]; intros st.
  - cbn. rewrite andb_true_r. reflexivity.
  - rewrite main_loop_cons, IH. cbn [quits existsb].
    destruct (running (prog st)) eqn:Hr.
    + rewrite frame_running, Hr. cbn [andb]. rewrite negb_orb. reflexivity.
    + rewrite Hr. reflexivity.
Qed.

Lemma releases_app (l1 l2 : list call) : releases (l1 ++ l2) = releases l1 ++ releases l2.
Proof. apply filter_app. Qed.

Lemma surfaces_app (l1 l2 : list call) : surfaces (l1 ++ l2) = surfaces l1 + surfaces l2.
Proof.
  induction l1 as [|c l1 IH]; [reflexivity|].
  change ((c :: l1) ++ l2) with (c :: (l1 ++ l2)).
  destruct c as [| | | | |file [|]| | | | | | | | | |]; cbn [surfaces]; rewrite IH; lia.
Qed.

Lemma initSDL_cases (pf : Platform) (s : Process) :
  exists s',
    leaves s s' 0 [] /\ display s' = display s /\
    initSDL pf s = (s', if startup_ok pf then Returned tt else Exited 1).
Proof.
  unfold initSDL, startup_ok.
  cbv [bind does exit ret]. cbn [log loads display].
  destruct (SDL_Init_result pf <? 0); cbn [negb andb].
  2: destruct (SDL_CreateWindow_result pf); cbn [negb andb].
  2: destruct (SDL_GL_CreateContext_result pf); cbn [negb andb].
  2: destruct (SDL_GL_SetSwapInterval_result pf <? 0).
  all: eexists; split; [|split; [|reflexivity]]; [|reflexivity].
  all: unfold leaves; cbn [log loads display];
    rewrite ?releases_app, ?surfaces_app, ?app_nil_r; cbn;
    repeat split; first [reflexivity | lia].
Qed.

Lemma loadTexture_cases (pf : Platform) (file : string) (s : Process) :
  exists s',
    leaves s s' 1 [] /\
    loadTexture pf file s
    = (s', if texture_ok pf (loads s) file
           then Returned (glGenTextures_result pf (loads s)) else Exited 1).
Proof.
  unfold loadTexture, texture_ok.
  cbv [bind does exit ret on_display]. cbn [log loads display].
  destruct (IMG_Load_result pf (loads s) file) as [surface|].
  1: destruct (BytesPerPixel surface =? 3); cbn [orb].
  2: destruct (BytesPerPixel surface =? 4).
  all: eexists; split; [|reflexivity].
  all: unfold leaves; cbn [log loads display];
    rewrite ?releases_app, ?surfaces_app, ?app_nil_r; cbn;
    repeat split; first [reflexivity | lia].
Qed.

Lemma bind_does {A : Type} (c : call) (k : unit -> run A) (s : Process) :
  bind (does c) k s = k tt {| log := log s ++ [c]; loads := loads s; display := display s |}.
Proof. reflexivity. Qed.

Lemma bind_on_display {A : Type} (f : Screen -> Screen) (k : unit -> run A) (s : Process) :
  bind (on_display f) k s
  = k tt {| log := log s; loads := loads s; display := f (display s) |}.
Proof. reflexivity. Qed.

Lemma bind_cleanup {A : Type} (k : unit -> run A) (s : Process) :
  bind cleanup k s
  = k tt {| log := ((log s ++ [SDL_GL_DeleteContext]) ++ [SDL_DestroyWindow]) ++ [SDL_Quit];
            loads := loads s; display := display s |}.
Proof. reflexivity. Qed.

Ltac load_texture pf Hx s' N R S E :=
  unfold bind at 1 in Hx;
  match type of Hx with
  | context [loadTexture pf ?file ?s] =>
      destruct (loadTexture_cases pf file s) as (s' & (N & R & S) & E)
  end;
  rewrite E in Hx; cbn [loads log] in N, R, S, Hx.

Ltac summary Hx :=
  cbv beta iota in Hx; subst;
  cbn [fst snd log];
  repeat first
    [ rewrite releases_app
    | rewrite surfaces_app
    | match goal with
      | H : releases (log _) = _ |- _ => rewrite H
      | H : surfaces (log _) = _ |- _ => rewrite H
      end ];
  cbn; repeat split; first [reflexivity | lia].

(** X19: how [main] ends and what it has released by then.  If [SDL_Init],
    the window or the GL context fails, the process exits with status 1 and
    has released nothing; a failure to set VSync changes nothing.  If
    [IMG_Init] fails, [main] returns 1 after [cleanup]: context, window,
    SDL.  If one of the five images does not load or has neither three nor
    four bytes per pixel, the process exits with status 1 and has released
    neither the window nor the context.  Otherwise [main] returns 0 once a
    poll has held a quit, having released the moon, SDL_image, the context,
    the window and SDL in this order, and until then it is in the loop.
    However it ends, no loaded surface is left unfreed. *)
Theorem main_outcome (pf : Platform) (lm : Libm) (polls : list Poll) :
  let s := fst (main pf lm polls start) in
  let r := snd (main pf lm polls start) in
  surfaces (log s) = 0 /\
  if negb (startup_ok pf) then
    r = Exited 1 /\ releases (log s) = []
  else if IMG_Init_failed (IMG_Init_result pf) then
    r = Returned 1 /\
    releases (log s) = [SDL_GL_DeleteContext; SDL_DestroyWindow; SDL_Quit]
  else if negb (textures_ok pf) then
    r = Exited 1 /\ releases (log s) = []
  else if quits polls then
    r = Returned 0 /\
    releases (log s) = [delete_moon; IMG_Quit; SDL_GL_DeleteContext; SDL_DestroyWindow; SDL_Quit]
  else
    r = Looping /\ releases (log s) = [].
Proof.
  cbv zeta. unfold textures_ok.
  remember (main pf lm polls start) as x eqn:Hx.
  unfold main in Hx. unfold bind at 1 in Hx.
  destruct (initSDL_cases pf start) as (s1 & (N1 & R1 & S1) & D1 & E1).
  rewrite E1 in Hx. cbn in N1, R1, S1.
  destruct (startup_ok pf); cbn [negb]; [|summary Hx].
  rewrite bind_on_display, bind_does in Hx.
  destruct (IMG_Init_failed (IMG_Init_result pf)).
  { rewrite bind_does, bind_cleanup in Hx. unfold ret in Hx. summary Hx. }
  load_texture pf Hx s2 N2 R2 S2 E2. rewrite N1 in *. cbn [Nat.add] in *.
  destruct (texture_ok pf 0 "map2.png"); cbn [negb andb]; [|summary Hx].
  load_texture pf Hx s3 N3 R3 S3 E3. rewrite N2 in *. cbn [Nat.add] in *.
  destruct (texture_ok pf 1 "clouds.png"); cbn [negb andb]; [|summary Hx].
  load_texture pf Hx s4 N4 R4 S4 E4. rewrite N3 in *. cbn [Nat.add] in *.
  destruct (texture_ok pf 2 "moon.jpg"); cbn [negb andb]; [|summary Hx].
  load_texture pf Hx s5 N5 R5 S5 E5. rewrite N4 in *. cbn [Nat.add] in *.
  destruct (texture_ok pf 3 "clouds.png"); cbn [negb andb]; [|summary Hx].
  load_texture pf Hx s6 N6 R6 S6 E6. rewrite N5 in *. cbn [Nat.add] in *.
  destruct (texture_ok pf 4 "map2.png"); cbn [negb andb]; [|summary Hx].
  rewrite bind_does in Hx. unfold bind at 1 in Hx. unfold loop at 1 in Hx.
  cbn [log loads display] in Hx.
  rewrite main_loop_running in Hx. cbn [main_start prog main_app running andb] in Hx.
  destruct (quits polls); cbn [negb] in Hx.
  - rewrite !bind_does, bind_cleanup in Hx. unfold ret in Hx. summary Hx.
  - summary Hx.
Qed.

(** X20: [loadTexture] frees the surface it has loaded on both ways out.
    From any process state, the call returns the generated texture name,
    with that texture bound, exactly when the image loads and has three or
    four bytes per pixel, and exits with status 1 otherwise; either way the
    number of loaded and not freed surfaces is what it was before, and
    nothing else is released. *)
Theorem loadTexture_frees_its_surface (pf : Platform) (file : string) (s : Process) :
  let s' := fst (loadTexture pf file s) in
  let r := snd (loadTexture pf file s) in
  surfaces (log s') = surfaces (log s) /\
  releases (log s') = releases (log s) /\
  if texture_ok pf (loads s) file
  then r = Returned (glGenTextures_result pf (loads s)) /\
       texture (gl (display s')) = glGenTextures_result pf (loads s)
  else r = Exited 1.
Proof.
  cbv zeta. unfold loadTexture, texture_ok.
  cbv [bind does exit ret on_display]. cbn [log loads display].
  destruct (IMG_Load_result pf (loads s) file) as [surface|].
  1: destruct (BytesPerPixel surface =? 3); cbn [orb].
  2: destruct (BytesPerPixel surface =? 4).
  all: cbn [fst snd log display];
    rewrite ?releases_app, ?surfaces_app, ?app_nil_r; cbn;
    repeat split; first [reflexivity | lia].
Qed.
